(** * SnapScript: annotated text to structured document

  A shallow embedding of [services/docxService.ts]: the crop helper
  [cropImage] and the document builder [generateAndDownloadDocx], together
  with the JavaScript primitives they rely on (regular-expression split and
  match for the [[CROP:...]] tag, [String.prototype.split], [parseInt],
  IEEE-754 double arithmetic, [Math.max]).

  Strings are sequences of UTF-16 code units; numbers are binary64 floats
  (the [spec_float] model of the standard library); the browser objects the
  code drives (image decoder, canvas, object URLs, console) are an explicit
  [Browser] oracle and a [World] state threaded through the calls. A step
  that throws ends the function with a rejected promise; the one
  constructor of the docx library that does throw on the builder's own
  arguments, [new TextRun] with a colour that is no hexadecimal value, is
  modelled with the library's check.

  The development also embeds [services/geminiService.ts] (the reading of
  the file as a data URL, the call of the model, [String.prototype.trim])
  over a [Gemini] oracle, and the handlers of [App.tsx] that act on the
  list of files (select, remove, clear, move, process, download), with
  JavaScript arrays written by index where the code relies on them. *)

From Stdlib Require Import String Ascii.
From Stdlib Require Import List ZArith NArith Bool Lia Permutation.
From Stdlib Require Import Floats.SpecFloat.
From Equations Require Import Equations.
Import ListNotations.

Set Implicit Arguments.
Local Open Scope list_scope.

(* ===================================================================== *)
(** * JavaScript strings *)
(* ===================================================================== *)

Module JsString.

(** A code unit of a JavaScript string. *)
Definition char := N.

(** A JavaScript string: its sequence of code units. *)
Definition str := list char.

Definition cu (a : ascii) : char := N_of_ascii a.

(** A string literal of the source, as code units. *)
Definition lit (s : string) : str := List.map cu (list_ascii_of_string s).

Definition LF : char := 10%N.

(** [!s] of the source: the empty string is the only falsy string. *)
Definition falsy (s : str) : bool :=
  match s with [] => true | _ :: _ => false end.

Definition truthy (s : str) : bool := negb (falsy s).

(** [\d] of a regular expression without the unicode flag: [0-9]. *)
Definition is_digit (c : char) : bool :=
  (N.leb 48 c && N.leb c 57)%bool.

(** [s.split(sep)] for a one-code-unit separator: [cur] is the piece being
    read. The result always has at least one piece. *)
Fixpoint split_on (sep : char) (cur : str) (s : str) : list str :=
  match s with
  | [] => [cur]
  | c :: s' =>
      if N.eqb c sep then cur :: split_on sep [] s'
      else split_on sep (cur ++ [c]) s'
  end.

Definition split_char (sep : char) (s : str) : list str := split_on sep [] s.

(** White space and line terminators, what [trim] removes and what the
    conversion of a string to a number skips at its ends: TAB, LF, VT,
    FF, CR, SP, NBSP, U+1680, U+2000..U+200A, LS, PS, U+202F, U+205F,
    U+3000, U+FEFF. All are single code units. *)
Definition is_whitespace (c : char) : bool :=
  existsb (N.eqb c)
    [9; 10; 11; 12; 13; 32; 160; 5760; 8232; 8233; 8239; 8287; 12288;
     65279]%N
  || (N.leb 8192 c && N.leb c 8202).

(** [s.trimStart()]. *)
Fixpoint trimStart (s : str) : str :=
  match s with
  | [] => []
  | c :: s' => if is_whitespace c then trimStart s' else s
  end.

(** [s.trimEnd()]. *)
Definition trimEnd (s : str) : str := rev (trimStart (rev s)).

(** [s.trim()]. *)
Definition trim (s : str) : str := trimEnd (trimStart s).

(** A hexadecimal digit: [0-9a-fA-F]. *)
Definition is_hex_digit (c : char) : bool :=
  is_digit c
  || (N.leb 65 c && N.leb c 70)
  || (N.leb 97 c && N.leb c 102).

End JsString.

Import JsString.

(* ===================================================================== *)
(** * The crop tag: the two regular expressions *)
(* ===================================================================== *)

Module CropTag.

Section Matcher.
Variable A : Type.

(** A literal character of the pattern, with the rest of the pattern as
    continuation [k] on the remaining input. *)
Definition chr (c : char) (k : str -> option A) (s : str) : option A :=
  match s with
  | [] => None
  | x :: s' => if N.eqb x c then k s' else None
  end.

(** A run of literal characters. *)
Definition chrs (cs : str) (k : str -> option A) : str -> option A :=
  fold_right chr k cs.

(** [(\d+)]: greedy, with backtracking. [g] is what the group has consumed
    so far; the longer alternative is tried first, and only when the rest of
    the pattern fails on it is the group closed here. *)
Fixpoint digits_plus (k : str -> str -> option A) (g : str) (s : str)
  : option A :=
  match s with
  | [] => None
  | c :: s' =>
      if is_digit c then
        match digits_plus k (g ++ [c]) s' with
        | Some r => Some r
        | None => k (g ++ [c]) s'
        end
      else None
  end.

(** [\[\[CROP:(\d+),(\d+),(\d+),(\d+)\]\]] matched at the start of the
    input; [k] receives the four groups and the input left. *)
Definition tag_body (k : str -> str -> str -> str -> str -> option A)
  : str -> option A :=
  chrs (lit "[[CROP:")
    (digits_plus (fun g1 =>
       chr (cu ",") (digits_plus (fun g2 =>
         chr (cu ",") (digits_plus (fun g3 =>
           chr (cu ",") (digits_plus (fun g4 =>
             chrs (lit "]]") (k g1 g2 g3 g4)) [])) [])) [])) []).

End Matcher.

(** [cropRegex = /(\[\[CROP:\d+,\d+,\d+,\d+\]\])/g] tried at the start of
    [s] (what [split] does at each index): the input left after the match.
    The match itself, which is also its only capture group, is the prefix
    of [s] that was consumed. *)
Definition cropRegex_at (s : str) : option str :=
  tag_body (fun _ _ _ _ rest => Some rest) s.

(** [part.match(/^\[\[CROP:(\d+),(\d+),(\d+),(\d+)\]\]$/)]: the four
    capture groups, [None] for JavaScript's [null]. *)
Definition match_tag (part : str) : option (str * str * str * str) :=
  tag_body (fun g1 g2 g3 g4 rest =>
              match rest with
              | [] => Some (g1, g2, g3, g4)
              | _ :: _ => None
              end) part.

(** The text of a tag with the given fields. *)
Definition tag (a b c d : str) : str :=
  lit "[[CROP:" ++ a ++ lit "," ++ b ++ lit "," ++ c ++ lit "," ++ d
    ++ lit "]]".

(** A non-empty run of decimal digits. *)
Definition digits (g : str) : Prop :=
  g <> [] /\ Forall (fun c => is_digit c = true) g.

(** ** What a successful match looks like *)

Lemma chr_Some (A : Type) c (k : str -> option A) s r :
  chr c k s = Some r -> exists s', s = c :: s' /\ k s' = Some r.
Proof.
  destruct s as [|x s']; simpl; [discriminate|].
  destruct (N.eqb_spec x c); [|discriminate].
  subst. eauto.
Qed.

Lemma chrs_Some (A : Type) cs (k : str -> option A) s r :
  chrs cs k s = Some r -> exists s', s = cs ++ s' /\ k s' = Some r.
Proof.
  revert s. induction cs as [|c cs IH]; simpl; intros s H.
  - eauto.
  - apply chr_Some in H. destruct H as (s1 & -> & H).
    apply IH in H. destruct H as (s2 & -> & H). eauto.
Qed.

Lemma digits_plus_Some (A : Type) (k : str -> str -> option A) s :
  forall g r, digits_plus k g s = Some r ->
  exists d s', digits d /\ s = d ++ s' /\ k (g ++ d) s' = Some r.
Proof.
  induction s as [|c s IH]; simpl; intros g r H; [discriminate|].
  destruct (is_digit c) eqn:Hc; [|discriminate].
  destruct (digits_plus k (g ++ [c]) s) as [r'|] eqn:E.
  - inversion H; subst r'. apply IH in E.
    destruct E as (d & s' & (_ & Hd) & -> & Hk).
    exists (c :: d), s'. rewrite <- app_assoc in Hk.
    repeat split; auto; discriminate.
  - exists [c], s. repeat split; auto; discriminate.
Qed.

Lemma tag_body_Some (A : Type) (k : str -> str -> str -> str -> str -> option A) s r :
  tag_body k s = Some r ->
  exists a b c d rest,
    digits a /\ digits b /\ digits c /\ digits d /\
    s = tag a b c d ++ rest /\ k a b c d rest = Some r.
Proof.
  unfold tag_body. intros H.
  apply chrs_Some in H. destruct H as (s1 & -> & H).
  apply digits_plus_Some in H. destruct H as (a & s2 & Ha & -> & H).
  apply chr_Some in H. destruct H as (s3 & -> & H).
  apply digits_plus_Some in H. destruct H as (b & s4 & Hb & -> & H).
  apply chr_Some in H. destruct H as (s5 & -> & H).
  apply digits_plus_Some in H. destruct H as (c & s6 & Hc & -> & H).
  apply chr_Some in H. destruct H as (s7 & -> & H).
  apply digits_plus_Some in H. destruct H as (d & s8 & Hd & -> & H).
  apply chrs_Some in H. destruct H as (rest & -> & H).
  exists a, b, c, d, rest.
  split; [exact Ha|]. split; [exact Hb|]. split; [exact Hc|].
  split; [exact Hd|]. split; [|exact H].
  unfold tag. repeat rewrite <- app_assoc. reflexivity.
Qed.

Lemma cropRegex_at_Some s rest :
  cropRegex_at s = Some rest ->
  exists a b c d,
    digits a /\ digits b /\ digits c /\ digits d /\ s = tag a b c d ++ rest.
Proof.
  intros H. apply tag_body_Some in H.
  destruct H as (a & b & c & d & r & Ha & Hb & Hc & Hd & -> & H).
  inversion H; subst. exists a, b, c, d. auto.
Qed.

(** A match consumes at least one code unit, so the split loop advances. *)
Lemma cropRegex_at_shorter s rest :
  cropRegex_at s = Some rest -> length rest < length s.
Proof.
  intros H. apply cropRegex_at_Some in H.
  destruct H as (a & b & c & d & _ & _ & _ & _ & ->).
  unfold tag. simpl. rewrite !length_app. simpl. lia.
Qed.

(** ** [String.prototype.split] with a regular expression *)

Definition inspect (X : Type) (x : X) : { y : X | x = y } :=
  exist _ x eq_refl.

(** The loop of [RegExp.prototype[Symbol.split]] on the string [S]: [pending]
    is [S.substring(p, q)], the text since the last match, and [s] is
    [S.substring(q)]. At each [q] the pattern is tried at that index; a match
    pushes the pending text and the capture group, and sets [p = q = e]; a
    failure moves [q] one code unit on. After the loop the text left is
    pushed. *)
Equations? split_loop (pending : str) (s : str) : list str
  by wf (length s) lt :=
  split_loop pending [] := [pending];
  split_loop pending (c :: s') with inspect (cropRegex_at (c :: s')) := {
    | exist _ (Some rest) _ :=
        pending
          :: firstn (length (c :: s') - length rest) (c :: s')
          :: split_loop [] rest;
    | exist _ None _ := split_loop (pending ++ [c]) s' }.
Proof.
  apply cropRegex_at_shorter in e. simpl in e. lia.
Qed.

(** [fullText.split(cropRegex)]. *)
Definition split_cropRegex (fullText : str) : list str :=
  split_loop [] fullText.

End CropTag.

Import CropTag.

(* ===================================================================== *)
(** * JavaScript numbers *)
(* ===================================================================== *)

Module JsNumber.

(** The Number type is IEEE-754 binary64. *)
Definition prec : Z := 53.
Definition emax : Z := 1024.

Definition number := spec_float.

(** The Number value of a mathematical integer (round to nearest, ties to
    even; an integer within 2^53 is represented exactly). Integer literals
    of the source and [parseInt] go through it. *)
Definition of_Z (z : Z) : number := binary_normalize prec emax z 0 false.

Definition sub (x y : number) : number := SFsub prec emax x y.
Definition div (x y : number) : number := SFdiv prec emax x y.
Definition mul (x y : number) : number := SFmul prec emax x y.

(** [x <= y]: false as soon as one side is NaN. *)
Definition leb (x y : number) : bool := SFleb x y.
Definition ltb (x y : number) : bool := SFltb x y.

Definition is_nan (x : number) : bool :=
  match x with S754_nan => true | _ => false end.

(** One round of the loop of [Math.max]: [highest] so far, next [value]. *)
Definition max_step (highest value : number) : number :=
  if is_nan highest || is_nan value then S754_nan
  else
    match value, highest with
    | S754_zero false, S754_zero true => value
    | _, _ => if ltb highest value then value else highest
    end.

(** [Math.max(a, b)]: the loop starts from -Infinity. *)
Definition Math_max (a b : number) : number :=
  max_step (max_step (S754_infinity true) a) b.

(** The mathematical value of a run of decimal digits. *)
Definition decimal (g : str) : Z :=
  fold_left (fun acc c => (10 * acc + (Z.of_N c - 48))%Z) g 0%Z.

(** [parseInt(g)] for a capture group [g] of the tag pattern, a non-empty
    run of decimal digits: no sign, no prefix, nothing to skip or to cut.
    The result is the Number value of the integer; an engine may round a
    run of more than 20 significant digits a little differently. *)
Definition parseInt (g : str) : number := of_Z (decimal g).

End JsNumber.

Import JsNumber.

(* ===================================================================== *)
(** * The docx objects the builder constructs *)
(* ===================================================================== *)

Module Docx.

Definition ArrayBuffer := list N.

Inductive HeadingLevel := TITLE | HEADING_3.

Record Spacing := { before : option Z; after : option Z }.

(** Options of [new TextRun({...})]; a field the source leaves out is
    [None] (or [false]). *)
Record TextRunOptions := {
  text : str;
  bold : bool;
  italics : bool;
  color : option str;
  size : option Z;
  break : option Z
}.

Record Transformation := { width : number; height : number }.

(** Options of [new ImageRun({...})]. *)
Record ImageRunOptions := {
  data : ArrayBuffer;
  transformation : Transformation;
  type : str
}.

Inductive Run :=
| TextRun (o : TextRunOptions)
| ImageRun (o : ImageRunOptions).

(** Options of [new Paragraph({...})]. *)
Record Paragraph := {
  p_text : option str;
  heading : option HeadingLevel;
  spacing : option Spacing;
  children : list Run
}.

(** [new Document({ sections: [{ properties: {}, children }] })]. *)
Record Document := { section_children : list Paragraph }.

End Docx.

Import Docx.

(* ===================================================================== *)
(** * The browser: oracle and state *)
(* ===================================================================== *)

Module Web.

(** A [File]: its name and its bytes. *)
Record File := { name : str; bytes : list N }.

(** A decoded [HTMLImageElement], by the two properties the code reads. *)
Record Image := { img_width : number; img_height : number }.

(** [new Error(message)]. *)
Inductive Error := mkError (message : str).

(** What the browser decides. [decode]: the image loads ([onload]) or not
    ([onerror]). [getContext2d]: a canvas of that width and height gives a 2D
    context. [drawImage]: the exception the call throws, if any.
    [toBlob]: the PNG bytes read back from the canvas ([FileReader]), [None]
    when the blob is null. *)
Record Browser := {
  decode : File -> option Image;
  getContext2d : number -> number -> bool;
  drawImage : File -> number -> number -> number -> number -> option Error;
  toBlob : File -> number -> number -> number -> number -> option ArrayBuffer
}.

Definition URL := N.

(** The state the code acts on: the object URLs alive, the next one the
    browser will hand out, what [console.error] has logged, and the files
    saved through the download link. *)
Record World := {
  objectURLs : list URL;
  nextURL : URL;
  console : list Error;
  downloads : list (str * Document)
}.

(** A computation on the world. *)
Definition M (A : Type) : Type := World -> A * World.

Definition ret (A : Type) (a : A) : M A := fun w => (a, w).

Definition bind (A B : Type) (m : M A) (k : A -> M B) : M B :=
  fun w => let (a, w') := m w in k a w'.

(** How a promise settles. *)
Inductive Result (A : Type) :=
| resolve (a : A)
| reject (e : Error).

Arguments resolve {A} a.
Arguments reject {A} e.

(** [URL.createObjectURL(x)]. *)
Definition createObjectURL : M URL :=
  fun w =>
    (nextURL w,
     {| objectURLs := nextURL w :: objectURLs w;
        nextURL := N.succ (nextURL w);
        console := console w;
        downloads := downloads w |}).

(** [URL.revokeObjectURL(url)]. *)
Definition revokeObjectURL (url : URL) : M unit :=
  fun w =>
    (tt,
     {| objectURLs := remove N.eq_dec url (objectURLs w);
        nextURL := nextURL w;
        console := console w;
        downloads := downloads w |}).

(** [console.error(_, err)]. *)
Definition console_error (err : Error) : M unit :=
  fun w =>
    (tt,
     {| objectURLs := objectURLs w;
        nextURL := nextURL w;
        console := console w ++ [err];
        downloads := downloads w |}).

(** The click on the link whose [download] attribute is [filename]. *)
Definition save_as (filename : str) (doc : Document) : M unit :=
  fun w =>
    (tt,
     {| objectURLs := objectURLs w;
        nextURL := nextURL w;
        console := console w;
        downloads := downloads w ++ [(filename, doc)] |}).

End Web.

Import Web.

Notation "x <- m ;; k" := (bind m (fun x => k))
  (at level 61, m at next level, right associativity).
Notation "m ;;; k" := (bind m (fun _ => k))
  (at level 61, right associativity).

(** A step that may throw, inside an [async] function: what follows it runs
    only when it does not, and what it throws is what the function rejects
    with. *)
Definition bind_try (A C : Type) (m : M (Result A)) (k : A -> M (Result C))
  : M (Result C) :=
  r <- m ;;
  match r with
  | resolve a => k a
  | reject e => ret (reject e)
  end.

Notation "x <-? m ;; k" := (bind_try m (fun x => k))
  (at level 61, m at next level, right associativity).

(* ===================================================================== *)
(** * types.ts *)
(* ===================================================================== *)

Inductive ProcessingStatus := IDLE | PROCESSING | COMPLETED | ERROR.

Record UploadedFile := {
  id : str;
  file : File;
  previewUrl : str;
  status : ProcessingStatus;
  extractedText : option str;
  errorMessage : option str
}.

(* ===================================================================== *)
(** * services/docxService.ts *)
(* ===================================================================== *)

Module DocxService.

(** ** [cropImage] *)

(** The promise [cropImage] returns, run to its settlement. The object URL
    is created first; [img.onerror] revokes it and rejects; [img.onload]
    computes the rectangle and rejects on a non-positive extent or a missing
    context, the [catch] revokes the URL and rejects with what was thrown,
    a null blob rejects, and [reader.onloadend] revokes the URL and
    resolves with the bytes. *)
Definition cropImage (B : Browser) (file : File)
  (ymin xmin ymax xmax : number) : M (Result ArrayBuffer) :=
  url <- createObjectURL ;;
  match decode B file with
  | None =>
      revokeObjectURL url ;;;
      ret (reject (mkError (lit "Failed to load image for cropping")))
  | Some img =>
      let realX := mul (div xmin (of_Z 1000)) (img_width img) in
      let realY := mul (div ymin (of_Z 1000)) (img_height img) in
      let realW := mul (div (sub xmax xmin) (of_Z 1000)) (img_width img) in
      let realH := mul (div (sub ymax ymin) (of_Z 1000)) (img_height img) in
      if leb realW (of_Z 0) || leb realH (of_Z 0) then
        ret (reject (mkError (lit "Invalid crop dimensions")))
      else if negb (getContext2d B realW realH) then
        ret (reject (mkError (lit "Could not get canvas context")))
      else
        match drawImage B file realX realY realW realH with
        | Some e =>
            revokeObjectURL url ;;;
            ret (reject e)
        | None =>
            match toBlob B file realX realY realW realH with
            | None => ret (reject (mkError (lit "Crop failed")))
            | Some buffer =>
                revokeObjectURL url ;;;
                ret (resolve buffer)
            end
        end
  end.

(** ** [generateAndDownloadDocx] *)

(** [f.extractedText && f.extractedText.length > 0]: [null] and the empty
    string are falsy. *)
Definition has_text (f : UploadedFile) : bool :=
  match extractedText f with
  | None => false
  | Some t => truthy t && (0 <? List.length t)
  end.

Definition MAX_PAGE_WIDTH : number := of_Z 500.

(** The literal [1.414]: the double nearest to 1414/1000, which is what the
    correctly rounded quotient of the two integers is. *)
Definition PAGE_ASPECT_RATIO : number := div (of_Z 1414) (of_Z 1000).

Definition titleParagraph : Paragraph :=
  {| p_text := Some (lit "Extracted Content");
     heading := Some TITLE;
     spacing := Some {| before := None; after := Some 400%Z |};
     children := [] |}.

Definition headerParagraph (f : UploadedFile) : Paragraph :=
  {| p_text := None;
     heading := Some HEADING_3;
     spacing := Some {| before := Some 400%Z; after := Some 200%Z |};
     children :=
       [TextRun {| text := lit "Source: " ++ name (file f);
                   bold := true;
                   italics := true;
                   color := Some (lit "666666");
                   size := Some 20%Z;
                   break := None |}] |}.

Definition bodyParagraph (runs : list Run) : Paragraph :=
  {| p_text := None;
     heading := None;
     spacing := Some {| before := None; after := Some 120%Z |};
     children := runs |}.

Definition pageBreakParagraph : Paragraph :=
  {| p_text := None;
     heading := None;
     spacing := None;
     children :=
       [TextRun {| text := [];
                   bold := false;
                   italics := false;
                   color := None;
                   size := None;
                   break := Some 1%Z |}] |}.

Definition lineRun (line : str) : Run :=
  TextRun {| text := line;
             bold := false;
             italics := false;
             color := None;
             size := Some 24%Z;
             break := None |}.

(** The options of the run the [catch] block asks for. *)
Definition missingImageOptions : TextRunOptions :=
  {| text := lit "[MISSING IMAGE]";
     bold := true;
     italics := false;
     color := Some (lit "red");
     size := None;
     break := None |}.

(** [isNaN(Number("0x" + val))] is false: [val] is a non-empty run of
    hexadecimal digits, white space after it aside. *)
Definition is_hex_number (val : str) : bool :=
  truthy (trimEnd val) && forallb is_hex_digit (trimEnd val).

(** The docx library checks the colour of a run when the run is
    constructed (its [hexColorValue]): "auto", or six hexadecimal digits,
    a leading "#" dropped; anything else throws. *)
Definition hexColorValue (val : str) : Result str :=
  if list_eq_dec N.eq_dec val (lit "auto") then resolve val
  else
    let color :=
      match val with
      | c :: rest => if N.eqb c (cu "#") then rest else val
      | [] => val
      end in
    if negb (List.length color =? 6) || negb (is_hex_number color) then
      reject (mkError (lit "Invalid hex value '" ++ color
                         ++ lit "'. Expected 6 digit hex value"))
    else resolve color.

(** [new TextRun(options)]: the run, or what the check of its colour
    throws. A run without colour, or with an empty one, is not checked. *)
Definition new_TextRun (o : TextRunOptions) : Result Run :=
  match color o with
  | Some c =>
      if truthy c then
        match hexColorValue c with
        | resolve _ => resolve (TextRun o)
        | reject e => reject e
        end
      else resolve (TextRun o)
  | None => resolve (TextRun o)
  end.

Definition imageRun (imageBuffer : ArrayBuffer) (ymin xmin ymax xmax : number)
  : Run :=
  let coordWidth := sub xmax xmin in
  let coordHeight := sub ymax ymin in
  let displayWidth := mul (div coordWidth (of_Z 1000)) MAX_PAGE_WIDTH in
  let displayHeight :=
    mul (div coordHeight (of_Z 1000)) (mul MAX_PAGE_WIDTH PAGE_ASPECT_RATIO) in
  ImageRun {| data := imageBuffer;
              transformation :=
                {| width := Math_max (of_Z 20) displayWidth;
                   height := Math_max (of_Z 20) displayHeight |};
              type := lit "png" |}.

(** The two variables the loops write: the paragraphs of the document and
    the runs of the paragraph being filled. *)
Record Builder := {
  docChildren : list Paragraph;
  currentRuns : list Run
}.

Definition push_run (r : Run) (b : Builder) : Builder :=
  {| docChildren := docChildren b; currentRuns := currentRuns b ++ [r] |}.

Definition flushParagraph (b : Builder) : Builder :=
  if 0 <? List.length (currentRuns b) then
    {| docChildren := docChildren b ++ [bodyParagraph (currentRuns b)];
       currentRuns := [] |}
  else b.

(** The callback of [lines.forEach]; [len] is [lines.length]. *)
Definition line_step (len : nat) (line : str) (lineIndex : nat) (b : Builder)
  : Builder :=
  let b1 := if truthy line then push_run (lineRun line) b else b in
  if lineIndex <? len - 1 then flushParagraph b1 else b1.

(** [array.forEach((x, i) => ...)] from index [i] on, on a state. *)
Fixpoint forEach (X St : Type) (f : X -> nat -> St -> St) (i : nat)
  (l : list X) (s : St) : St :=
  match l with
  | [] => s
  | x :: l' => forEach f (S i) l' (f x i s)
  end.

(** The [else] branch: the part is text. *)
Definition text_part (part : str) (b : Builder) : Builder :=
  let lines := split_char LF part in
  forEach (line_step (List.length lines)) 0 lines b.

(** The [if (match)] branch: the part is a crop tag with groups [g1..g4].
    When the crop rejects, the [catch] block logs the error and constructs
    the placeholder run; what that construction throws leaves the [catch]
    block, and the function. *)
Definition crop_part (B : Browser) (f : File) (g1 g2 g3 g4 : str)
  (b : Builder) : M (Result Builder) :=
  let ymin := parseInt g1 in
  let xmin := parseInt g2 in
  let ymax := parseInt g3 in
  let xmax := parseInt g4 in
  r <- cropImage B f ymin xmin ymax xmax ;;
  match r with
  | resolve imageBuffer =>
      ret (resolve (push_run (imageRun imageBuffer ymin xmin ymax xmax) b))
  | reject err =>
      console_error err ;;;
      match new_TextRun missingImageOptions with
      | resolve run => ret (resolve (push_run run b))
      | reject e => ret (reject e)
      end
  end.

(** The body of the loop over [parts]. *)
Definition part_step (B : Browser) (f : File) (part : str) (b : Builder)
  : M (Result Builder) :=
  if falsy part then ret (resolve b)
  else
    match match_tag part with
    | Some (g1, g2, g3, g4) => crop_part B f g1 g2 g3 g4 b
    | None => ret (resolve (text_part part b))
    end.

(** [for (let i = 0; i < parts.length; i++)]. *)
Fixpoint for_parts (B : Browser) (f : File) (parts : list str) (b : Builder)
  : M (Result Builder) :=
  match parts with
  | [] => ret (resolve b)
  | part :: parts' =>
      b' <-? part_step B f part b ;;
      for_parts B f parts' b'
  end.

(** The body of the loop over [validFiles]; [len] is [validFiles.length]. *)
Definition file_step (B : Browser) (len : nat) (index : nat)
  (f : UploadedFile) (children : list Paragraph)
  : M (Result (list Paragraph)) :=
  let fullText := match extractedText f with Some t => t | None => [] end in
  let parts := split_cropRegex fullText in
  b <-? for_parts B (file f) parts
          {| docChildren := children ++ [headerParagraph f];
             currentRuns := [] |} ;;
  let b' := flushParagraph b in
  ret (resolve (if index <? len - 1
                then docChildren b' ++ [pageBreakParagraph]
                else docChildren b')).

(** [for (let index = 0; index < validFiles.length; index++)], from
    [index] on. *)
Fixpoint for_files (B : Browser) (len : nat) (index : nat)
  (fs : list UploadedFile) (children : list Paragraph)
  : M (Result (list Paragraph)) :=
  match fs with
  | [] => ret (resolve children)
  | f :: fs' =>
      children' <-? file_step B len index f children ;;
      for_files B len (S index) fs' children'
  end.

Definition validFiles (files : list UploadedFile) : list UploadedFile :=
  filter has_text files.

(** [generateAndDownloadDocx] up to [new Document(...)]: the document, or
    the error thrown: there is nothing to put in it, or a step of the loops
    threw. *)
Definition buildDocument (B : Browser) (files : list UploadedFile)
  : M (Result Document) :=
  if List.length (validFiles files) =? 0 then
    ret (reject (mkError (lit "No text available to download.")))
  else
    children <-? for_files B (List.length (validFiles files)) 0
                   (validFiles files) [titleParagraph] ;;
    ret (resolve {| section_children := children |}).

(** The whole function; the document encoder is left out of the picture, a
    saved file is recorded by the document it holds. *)
Definition generateAndDownloadDocx (B : Browser) (files : list UploadedFile)
  : M (Result unit) :=
  r <- buildDocument B files ;;
  match r with
  | reject e => ret (reject e)
  | resolve doc =>
      url <- createObjectURL ;;
      save_as (lit "SnapScript_Extracted.docx") doc ;;;
      revokeObjectURL url ;;;
      ret (resolve tt)
  end.

End DocxService.

Import DocxService.

(* ===================================================================== *)
(** * The parser's view of the split: segments *)
(* ===================================================================== *)

Module Parser.

(** The two kinds of part the loop over [parts] tells apart. A crop
    segment keeps the substring it was matched from. *)
Inductive Segment :=
| TextSegment (content : str)
| CropSegment (ymin xmin ymax xmax : number) (matched : str).

(** The test the loop applies to a non-empty part. *)
Definition classify (part : str) : Segment :=
  match match_tag part with
  | Some (g1, g2, g3, g4) =>
      CropSegment (parseInt g1) (parseInt g2) (parseInt g3) (parseInt g4) part
  | None => TextSegment part
  end.

(** The parts the loop does not skip, classified. *)
Definition parse (fullText : str) : list Segment :=
  map classify (filter truthy (split_cropRegex fullText)).

(** The text a segment stands for in the input. *)
Definition source (seg : Segment) : str :=
  match seg with
  | TextSegment content => content
  | CropSegment _ _ _ _ matched => matched
  end.

End Parser.

Import Parser.

(* ===================================================================== *)
(** * services/geminiService.ts *)
(* ===================================================================== *)

Module GeminiService.

(** A value a promise is rejected with: an [Error], or something that is
    not one (the event that [reader.onerror] hands to [reject]). *)
Inductive Thrown :=
| thrown_Error (e : Error)
| thrown_event.

(** How a promise of this service settles. *)
Inductive Settled (A : Type) :=
| fulfilled (a : A)
| rejected (t : Thrown).

Arguments fulfilled {A} a.
Arguments rejected {A} t.

(** What lies outside the service. [file_type]: [file.type].
    [readAsDataURL]: [reader.result] when the read ends, [None] when the
    reader fires [onerror]. [generateContent]: how the call settles for a
    MIME type and a payload ([None]: [undefined]) -- the model name, the
    prompt and the configuration are constants of the request -- with
    [response.text], [None] when it is [undefined]. *)
Record Gemini := {
  file_type : File -> str;
  readAsDataURL : File -> option str;
  generateContent : str -> option str -> Settled (option str)
}.

(** [fileToGenerativePart]: the part of the data URL after its first
    comma, up to the next one. *)
Definition fileToGenerativePart (G : Gemini) (file : File)
  : Settled (option str) :=
  match readAsDataURL G file with
  | None => rejected thrown_event
  | Some base64String =>
      fulfilled (nth_error (split_char (cu ",") base64String) 1)
  end.

(** The [try] block of [extractTextFromImage]. *)
Definition extractText_try (G : Gemini) (file : File) : Settled str :=
  match fileToGenerativePart G file with
  | rejected t => rejected t
  | fulfilled base64Data =>
      let mimeType :=
        if truthy (file_type G file) then file_type G file
        else lit "image/png" in
      match generateContent G mimeType base64Data with
      | rejected t => rejected t
      | fulfilled text =>
          match text with
          | None =>
              rejected (thrown_Error
                          (mkError (lit "No text generated from the model.")))
          | Some t =>
              if falsy t then
                rejected (thrown_Error
                            (mkError (lit "No text generated from the model.")))
              else fulfilled (trim t)
          end
      end
  end.

(** [extractTextFromImage]: how its promise settles, and the values it
    passes to [console.error]. The [catch] logs what was thrown and throws
    it again. *)
Definition extractTextFromImage (G : Gemini) (file : File)
  : Settled str * list Thrown :=
  match extractText_try G file with
  | fulfilled text => (fulfilled text, [])
  | rejected error => (rejected error, [error])
  end.

End GeminiService.

Import GeminiService.

(* ===================================================================== *)
(** * JavaScript arrays written by index *)
(* ===================================================================== *)

Module JsArray.

(** An array slot: a value, [undefined], or an index that was never
    written. *)
Inductive Slot (X : Type) :=
| Val (x : X)
| Undefined
| Hole.

Arguments Val {X} x.
Arguments Undefined {X}.
Arguments Hole {X}.

(** [a[i]]: a hole and an index past the end read as [undefined]. *)
Definition get (X : Type) (a : list (Slot X)) (i : nat) : option X :=
  match nth_error a i with
  | Some (Val x) => Some x
  | _ => None
  end.

Definition put (X : Type) (v : option X) : Slot X :=
  match v with
  | Some x => Val x
  | None => Undefined
  end.

(** [a[i] = v]: past the end the array grows, leaving holes. *)
Definition set (X : Type) (a : list (Slot X)) (i : nat) (v : option X)
  : list (Slot X) :=
  if i <? List.length a then firstn i a ++ put v :: skipn (S i) a
  else a ++ repeat Hole (i - List.length a) ++ [put v].

(** [[...l]] of an array without holes. *)
Definition dense (X : Type) (l : list X) : list (Slot X) := map Val l.

End JsArray.

Import JsArray.

(* ===================================================================== *)
(** * App.tsx, components/ImageCard.tsx *)
(* ===================================================================== *)

Module App.

(** [a === b] on strings. *)
Definition str_eqb (a b : str) : bool :=
  if list_eq_dec N.eq_dec a b then true else false.

Definition status_eqb (a b : ProcessingStatus) : bool :=
  match a, b with
  | IDLE, IDLE | PROCESSING, PROCESSING | COMPLETED, COMPLETED
  | ERROR, ERROR => true
  | _, _ => false
  end.

Inductive Direction := up | down.

(** The updater of [moveFile]. *)
Definition moveFile (X : Type) (prev : list X) (index : nat)
  (direction : Direction) : list (Slot X) :=
  let newFiles := dense prev in
  match direction with
  | up =>
      if 0 <? index then
        let a := get newFiles (index - 1) in
        let b := get newFiles index in
        set (set newFiles index a) (index - 1) b
      else newFiles
  | down =>
      if (Z.of_nat index <? Z.of_nat (List.length newFiles) - 1)%Z then
        let a := get newFiles (index + 1) in
        let b := get newFiles index in
        set (set newFiles index a) (index + 1) b
      else newFiles
  end.

(** [ImageCard]: the [disabled] attribute of the two move buttons. *)
Definition moveUpDisabled (index : nat) : bool := index =? 0.

Definition moveDownDisabled (index totalCount : nat) : bool :=
  (Z.of_nat index =? Z.of_nat totalCount - 1)%Z.

Section Page.

(** The text of an object URL, and the values of the successive calls of
    [uuidv4] in one handler. *)
Variable url_name : URL -> str.
Variable uuidv4 : nat -> str.

(** [URL.revokeObjectURL(s)] for the text of a URL. *)
Definition revokeObjectURL_named (s : str) : M unit :=
  fun w =>
    (tt,
     {| objectURLs :=
          filter (fun u => negb (str_eqb (url_name u) s)) (objectURLs w);
        nextURL := nextURL w;
        console := console w;
        downloads := downloads w |}).

(** [filesArray.map(file => ({...}))], from the [k]-th call of [uuidv4]. *)
Fixpoint newFiles_from (k : nat) (filesArray : list File)
  : M (list UploadedFile) :=
  match filesArray with
  | [] => ret []
  | file :: rest =>
      url <- createObjectURL ;;
      more <- newFiles_from (S k) rest ;;
      ret ({| id := uuidv4 k;
              file := file;
              previewUrl := url_name url;
              status := IDLE;
              extractedText := None;
              errorMessage := None |} :: more)
  end.

(** [handleFileSelect], on [event.target.files] ([None]: [null]) and the
    list the updater receives. *)
Definition handleFileSelect (selected : option (list File))
  (prev : list UploadedFile) : M (list UploadedFile) :=
  match selected with
  | None => ret prev
  | Some filesArray =>
      if 0 <? List.length filesArray then
        newFiles <- newFiles_from 0 filesArray ;;
        ret (prev ++ newFiles)
      else ret prev
  end.

(** [handleRemoveFile]. *)
Definition handleRemoveFile (id0 : str) (prev : list UploadedFile)
  : M (list UploadedFile) :=
  match find (fun f => str_eqb (id f) id0) prev with
  | Some fileToRemove => revokeObjectURL_named (previewUrl fileToRemove)
  | None => ret tt
  end ;;;
  ret (filter (fun f => negb (str_eqb (id f) id0)) prev).

(** [files.forEach(f => URL.revokeObjectURL(f.previewUrl))]. *)
Fixpoint revoke_all (files : list UploadedFile) : M unit :=
  match files with
  | [] => ret tt
  | f :: rest => revokeObjectURL_named (previewUrl f) ;;; revoke_all rest
  end.

(** [handleClearAll]. *)
Definition handleClearAll (files : list UploadedFile)
  : M (list UploadedFile) :=
  revoke_all files ;;; ret [].

End Page.

(** ** [processImages] *)

(** [update[index] = g(update[index])] on a copy of [prev]. Past the end
    the source stores an object without [id] and [file], which is no
    [UploadedFile]: [None]. *)
Definition update_at (index : nat) (g : UploadedFile -> UploadedFile)
  (prev : list UploadedFile) : option (list UploadedFile) :=
  match nth_error prev index with
  | Some u => Some (firstn index prev ++ g u :: skipn (S index) prev)
  | None => None
  end.

(** The three updaters of [processImages]. *)
Definition markProcessing (index : nat) :=
  update_at index
    (fun u =>
       {| id := id u; file := file u; previewUrl := previewUrl u;
          status := PROCESSING;
          extractedText := extractedText u;
          errorMessage := errorMessage u |}).

Definition markCompleted (index : nat) (text : str) :=
  update_at index
    (fun u =>
       {| id := id u; file := file u; previewUrl := previewUrl u;
          status := COMPLETED;
          extractedText := Some text;
          errorMessage := errorMessage u |}).

Definition markError (index : nat) (msg : str) :=
  update_at index
    (fun u =>
       {| id := id u; file := file u; previewUrl := previewUrl u;
          status := ERROR;
          extractedText := extractedText u;
          errorMessage := Some msg |}).

(** [error instanceof Error ? error.message : "Unknown error"]. *)
Definition error_message (error : Thrown) : str :=
  match error with
  | thrown_Error (mkError m) => m
  | thrown_event => lit "Unknown error"
  end.

(** The files not yet completed, with their indices. *)
Definition pendingIndices (newFiles : list UploadedFile)
  : list (UploadedFile * nat) :=
  filter (fun item => negb (status_eqb (status (fst item)) COMPLETED))
    (combine newFiles (seq 0 (List.length newFiles))).

(** One turn of the loop, on the list the updaters receive. [extract] is
    how the promise of [extractTextFromImage] settles. *)
Definition process_item (extract : File -> Settled str)
  (item : UploadedFile * nat) (prev : list UploadedFile)
  : option (list UploadedFile) :=
  match markProcessing (snd item) prev with
  | None => None
  | Some prev1 =>
      match extract (file (fst item)) with
      | fulfilled text => markCompleted (snd item) text prev1
      | rejected error => markError (snd item) (error_message error) prev1
      end
  end.

Fixpoint for_pending (extract : File -> Settled str)
  (items : list (UploadedFile * nat)) (prev : list UploadedFile)
  : option (list UploadedFile) :=
  match items with
  | [] => Some prev
  | item :: rest =>
      match process_item extract item prev with
      | None => None
      | Some prev' => for_pending extract rest prev'
      end
  end.

(** [processImages] with no other handler running in between: [files] is
    the list the closure captured, [prev] the list the first updater
    receives. *)
Definition processImages (extract : File -> Settled str)
  (files prev : list UploadedFile) : option (list UploadedFile) :=
  for_pending extract (pendingIndices files) prev.

(** [completedCount]. *)
Definition completedCount (files : list UploadedFile) : nat :=
  List.length (filter (fun f => status_eqb (status f) COMPLETED) files).

(** The [disabled] attribute of the download button. *)
Definition downloadDisabled (files : list UploadedFile) : bool :=
  completedCount files =? 0.

(** [handleDownload]: the text of the alert, if one is shown. *)
Definition handleDownload (B : Browser) (files : list UploadedFile)
  : M (option str) :=
  r <- generateAndDownloadDocx B files ;;
  match r with
  | resolve _ => ret None
  | reject (mkError m) => ret (Some (lit "Error generating document: " ++ m))
  end.

End App.

Import App.

(* ===================================================================== *)
(** * Definitions used to state the properties *)
(* ===================================================================== *)

(** The input does not go on with a digit. *)
Definition no_digit_head (s : str) : Prop :=
  match s with
  | [] => True
  | c :: _ => is_digit c = false
  end.

(** The opening bracket, which a tag holds only at its start. *)
Definition bracket : char := cu "[".

(** [x] is not NaN and carries the sign [s]. *)
Definition has_sign (s : bool) (x : number) : Prop :=
  match x with
  | S754_zero s' | S754_infinity s' | S754_finite s' _ _ => s' = s
  | S754_nan => False
  end.

(** [x] is a zero, or negative (finite or not). *)
Definition nonpos (x : number) : Prop :=
  match x with
  | S754_zero _ => True
  | S754_infinity s | S754_finite s _ _ => s = true
  | S754_nan => False
  end.

(** [x] is the integer [a], exactly. *)
Definition int_repr (a : Z) (x : number) : Prop :=
  match x with
  | S754_zero false => a = 0%Z
  | S754_finite false m e => (e <= 0)%Z /\ (Zpos m = a * 2 ^ (- e))%Z
  | _ => False
  end.

(* ===================================================================== *)
(** * Sample inputs *)
(* ===================================================================== *)

Module Samples.

(** A fresh page: no object URL alive, nothing logged, nothing saved. *)
Definition world0 : World :=
  {| objectURLs := []; nextURL := 0%N; console := []; downloads := [] |}.

(** A browser in which every image decodes to 1000 x 1000 pixels and every
    canvas operation succeeds; the PNG read back is the file's own bytes. *)
Definition okBrowser : Browser :=
  {| decode := fun _ =>
       Some {| img_width := of_Z 1000; img_height := of_Z 1000 |};
     getContext2d := fun _ _ => true;
     drawImage := fun _ _ _ _ _ => None;
     toBlob := fun f _ _ _ _ => Some (bytes f) |}.

(** A browser in which no image decodes. *)
Definition brokenBrowser : Browser :=
  {| decode := fun _ => None;
     getContext2d := fun _ _ => true;
     drawImage := fun _ _ _ _ _ => None;
     toBlob := fun f _ _ _ _ => Some (bytes f) |}.

Definition png (n : string) : File := {| name := lit n; bytes := [137%N] |}.

(** An uploaded file as the application holds it. *)
Definition uploaded (n : string) (st : ProcessingStatus) (t : option str)
  : UploadedFile :=
  {| id := lit n;
     file := png n;
     previewUrl := [];
     status := st;
     extractedText := t;
     errorMessage := None |}.

End Samples.

Import Samples.

(** A strictly positive finite Number. *)
Definition positive_finite (x : number) : Prop :=
  match x with
  | S754_finite false _ _ => True
  | _ => False
  end.

(** How the promise of [cropImage] settles; it does not depend on the
    state of the page (see [cropImage_fst]). *)
Definition crop_result (B : Browser) (f : File)
  (ymin xmin ymax xmax : number) : Result ArrayBuffer :=
  fst (cropImage B f ymin xmin ymax xmax world0).

(** The URL a crop creates is fresh when every URL alive was handed out
    before. *)
Definition urls_wf (w : World) : Prop :=
  Forall (fun u => (u < nextURL w)%N) (objectURLs w).

(** The width the builder computes for the image of a marker, before the
    floor of 20. *)
Definition displayWidth (xmin xmax : number) : number :=
  mul (div (sub xmax xmin) (of_Z 1000)) MAX_PAGE_WIDTH.

(** The height: the grouping is the source's, [500 * 1.414] first. *)
Definition displayHeight (ymin ymax : number) : number :=
  mul (div (sub ymax ymin) (of_Z 1000)) (mul MAX_PAGE_WIDTH PAGE_ASPECT_RATIO).

(** The builder with [D] in front of its paragraphs. *)
Definition prepend (D : list Paragraph) (b : Builder) : Builder :=
  {| docChildren := D ++ docChildren b; currentRuns := currentRuns b |}.

(** The error the docx library throws for the colour "red". *)
Definition InvalidColor : Error :=
  mkError (lit "Invalid hex value 'red'. Expected 6 digit hex value").

(** The part is no tag, or it is one whose crop resolves. *)
Definition part_resolves (B : Browser) (f : File) (part : str) : bool :=
  match match_tag part with
  | Some (g1, g2, g3, g4) =>
      match crop_result B f (parseInt g1) (parseInt g2) (parseInt g3)
              (parseInt g4) with
      | resolve _ => true
      | reject _ => false
      end
  | None => true
  end.

(** The crop of every tag in the text of the file resolves. *)
Definition crops_resolve (B : Browser) (f : UploadedFile) : bool :=
  forallb (part_resolves B (file f))
    (split_cropRegex
       match extractedText f with Some t => t | None => [] end).

(** The paragraphs of one file's text: its parts processed from an empty
    builder and the last paragraph flushed, when the loop over the parts
    comes to its end; none when a step throws, as no document is built
    then. The state of the page plays no part in it (see
    [for_parts_fst]). *)
Definition body (B : Browser) (f : UploadedFile) : list Paragraph :=
  let fullText := match extractedText f with Some t => t | None => [] end in
  match fst (for_parts B (file f) (split_cropRegex fullText)
               {| docChildren := []; currentRuns := [] |} world0) with
  | resolve b => docChildren (flushParagraph b)
  | reject _ => []
  end.

(** A function applied to what a promise resolves with. *)
Definition on_resolve (A C : Type) (g : A -> C) (r : Result A) : Result C :=
  match r with
  | resolve a => resolve (g a)
  | reject e => reject e
  end.


(** Title aside, the document of the files [fs]: header and body of each,
    a page break after each but the last. *)
Fixpoint layout (B : Browser) (fs : list UploadedFile) : list Paragraph :=
  match fs with
  | [] => []
  | f :: fs' =>
      headerParagraph f :: body B f
        ++ match fs' with
           | [] => []
           | _ :: _ => pageBreakParagraph :: layout B fs'
           end
  end.

(** The paragraph is a file header. *)
Definition is_header (p : Paragraph) : bool :=
  match heading p with
  | Some HEADING_3 => true
  | _ => false
  end.

(** The run carries a break. *)
Definition has_break (r : Run) : bool :=
  match r with
  | TextRun o => match break o with Some _ => true | None => false end
  | ImageRun _ => false
  end.


(** The run is an image. *)
Definition is_imageRun (r : Run) : bool :=
  match r with
  | ImageRun _ => true
  | TextRun _ => false
  end.

(** A paragraph of body text: no heading, no break in its runs. *)
Definition is_body (p : Paragraph) : Prop :=
  heading p = None /\ Forall (fun r => has_break r = false) (children p).

(** The error thrown when no file has text. *)
Definition NoContent : Error :=
  mkError (lit "No text available to download.").

(** A run without a break. *)
Definition plain (r : Run) : Prop := has_break r = false.

(** What the loops keep true of the builder. *)
Definition builder_ok (b : Builder) : Prop :=
  Forall is_body (docChildren b) /\ Forall plain (currentRuns b).

(** The file [f] with its processing status replaced. *)
Definition with_status (st : UploadedFile -> ProcessingStatus)
  (f : UploadedFile) : UploadedFile :=
  {| id := id f;
     file := file f;
     previewUrl := previewUrl f;
     status := st f;
     extractedText := extractedText f;
     errorMessage := errorMessage f |}.


(** The two files of the example: plain text, and a single tag. *)
Definition file_x : UploadedFile :=
  uploaded "x.png" COMPLETED (Some (lit "Hello")).

Definition file_y : UploadedFile :=
  uploaded "y.png" COMPLETED (Some (lit "[[CROP:0,0,500,500]]")).

(** A browser that decodes every image to 1000 x 1000 pixels and yields a
    blob only for the source rectangle of width 3000 and height 2000. *)
Definition rect3000x2000Browser : Browser :=
  {| decode := fun _ =>
       Some {| img_width := of_Z 1000; img_height := of_Z 1000 |};
     getContext2d := fun _ _ => true;
     drawImage := fun _ _ _ _ _ => None;
     toBlob := fun f _ _ realW realH =>
       if SFeqb realW (of_Z 3000) && SFeqb realH (of_Z 2000)
       then Some (bytes f) else None |}.

(* ===================================================================== *)
(** * Definitions used to state further properties *)
(* ===================================================================== *)

(** No tag starts anywhere in [s]. *)
Definition tag_free (s : str) : Prop :=
  forall pre suf, s = pre ++ suf -> cropRegex_at suf = None.

(** The shape of a split: text, tag, text, ..., tag, text, where no text
    holds a tag. *)
Inductive parts_shape : list str -> Prop :=
| shape_text (t : str) : tag_free t -> parts_shape [t]
| shape_tag (t a b c d : str) (rest : list str) :
    tag_free t ->
    digits a -> digits b -> digits c -> digits d ->
    parts_shape rest ->
    parts_shape (t :: tag a b c d :: rest).

(** The part is a crop tag for the loop. *)
Definition is_tag_part (part : str) : bool :=
  match match_tag part with
  | Some _ => true
  | None => false
  end.

(** [pieces.join(sep)] for a one-code-unit separator. *)
Definition join (sep : char) (pieces : list str) : str :=
  match pieces with
  | [] => []
  | p :: ps => p ++ flat_map (fun q => sep :: q) ps
  end.

(** The text run of one line, none for an empty line. *)
Definition line_runs (line : str) : list Run :=
  if truthy line then [lineRun line] else [].

(** The run a tag gives when its crop resolves: the image. *)
Definition tag_runs (B : Browser) (f : File) (g1 g2 g3 g4 : str)
  : list Run :=
  match crop_result B f (parseInt g1) (parseInt g2) (parseInt g3)
          (parseInt g4) with
  | resolve imageBuffer =>
      [imageRun imageBuffer (parseInt g1) (parseInt g2) (parseInt g3)
         (parseInt g4)]
  | reject _ => []
  end.

(** The runs one part of the text gives. *)
Definition part_runs (B : Browser) (f : File) (part : str) : list Run :=
  match match_tag part with
  | Some (g1, g2, g3, g4) => tag_runs B f g1 g2 g3 g4
  | None => flat_map line_runs (split_char LF part)
  end.

(** All the runs the builder holds, finished paragraphs first. *)
Definition runs_of (b : Builder) : list Run :=
  flat_map children (docChildren b) ++ currentRuns b.

(** A text run has some text. *)
Definition run_nonempty (r : Run) : Prop :=
  match r with
  | TextRun o => text o <> []
  | ImageRun _ => True
  end.

(** A paragraph has some run, and no text run of it is empty. *)
Definition para_nonempty (p : Paragraph) : Prop :=
  children p <> [] /\ Forall run_nonempty (children p).

(** What the loops keep true of the builder, for [para_nonempty]. *)
Definition builder_nonempty (b : Builder) : Prop :=
  Forall para_nonempty (docChildren b) /\ Forall run_nonempty (currentRuns b).

(** The crop leaves by one of the exits that do not revoke the object URL:
    the degenerate rectangle, the missing context, the null blob. *)
Definition early_exit (B : Browser) (f : File)
  (ymin xmin ymax xmax : number) : bool :=
  match decode B f with
  | None => false
  | Some img =>
      let realX := mul (div xmin (of_Z 1000)) (img_width img) in
      let realY := mul (div ymin (of_Z 1000)) (img_height img) in
      let realW := mul (div (sub xmax xmin) (of_Z 1000)) (img_width img) in
      let realH := mul (div (sub ymax ymin) (of_Z 1000)) (img_height img) in
      if leb realW (of_Z 0) || leb realH (of_Z 0) then true
      else if negb (getContext2d B realW realH) then true
      else
        match drawImage B f realX realY realW realH with
        | Some _ => false
        | None =>
            match toBlob B f realX realY realW realH with
            | None => true
            | Some _ => false
            end
        end
  end.

(** A computation revokes no object URL that was alive when it started,
    and keeps the URLs alive older than the next one. *)
Definition keeps_urls (A : Type) (m : M A) : Prop :=
  forall w,
    urls_wf w ->
    urls_wf (snd (m w))
    /\ incl (objectURLs w) (objectURLs (snd (m w))).

(** The text neither starts nor ends with white space. *)
Definition trimmed (s : str) : Prop :=
  match s with
  | [] => True
  | c :: _ => is_whitespace c = false /\ is_whitespace (last s c) = false
  end.

(** An answering service: the read gives [dataURL], the call resolves with
    the text [answer]. *)
Definition answering (dataURL : str) (answer : option str) : Gemini :=
  {| file_type := fun _ => [];
     readAsDataURL := fun _ => Some dataURL;
     generateContent := fun _ _ => fulfilled answer |}.

(** [x] with the neighbour after it, somewhere in a list. *)
Definition swapped (X : Type) (l1 : list X) (x y : X) (l2 : list X)
  : list X := l1 ++ y :: x :: l2.

(** The [k] object URLs the browser hands out from [n] on. *)
Fixpoint urls_from (n : URL) (k : nat) : list URL :=
  match k with
  | 0 => []
  | S k' => n :: urls_from (N.succ n) k'
  end.

(** An entry as [handleFileSelect] creates it. *)
Definition fresh_entry (f : UploadedFile) : Prop :=
  status f = IDLE /\ extractedText f = None /\ errorMessage f = None.

(** Some object URL alive in [w] has the text [s]. *)
Definition alive (url_name : URL -> str) (w : World) (s : str) : Prop :=
  exists u, In u (objectURLs w) /\ url_name u = s.

(** An entry after a successful extraction, and after a failed one. *)
Definition completed_with (text : str) (u : UploadedFile) : UploadedFile :=
  {| id := id u; file := file u; previewUrl := previewUrl u;
     status := COMPLETED;
     extractedText := Some text;
     errorMessage := errorMessage u |}.

Definition failed_with (error : Thrown) (u : UploadedFile) : UploadedFile :=
  {| id := id u; file := file u; previewUrl := previewUrl u;
     status := ERROR;
     extractedText := extractedText u;
     errorMessage := Some (error_message error) |}.

(** What a whole run of [processImages] makes of one entry. *)
Definition processed (extract : File -> Settled str) (u : UploadedFile)
  : UploadedFile :=
  if status_eqb (status u) COMPLETED then u
  else match extract (file u) with
       | fulfilled text => completed_with text u
       | rejected error => failed_with error u
       end.

(** An entry is [COMPLETED] exactly when it has a text. *)
Definition text_iff_completed (f : UploadedFile) : Prop :=
  status f = COMPLETED <-> extractedText f <> None.

(** One handler of the application, run to its end, takes the list of
    files from [prev] to [next]. A move is one made from a card, whose
    index is below the length. *)
Inductive handled : list UploadedFile -> list UploadedFile -> Prop :=
| handled_select url_name uuidv4 selected w prev :
    handled prev (fst (handleFileSelect url_name uuidv4 selected prev w))
| handled_remove url_name id0 w prev :
    handled prev (fst (handleRemoveFile url_name id0 prev w))
| handled_clear url_name w prev :
    handled prev (fst (handleClearAll url_name prev w))
| handled_move index direction prev next :
    index < List.length prev ->
    moveFile prev index direction = dense next ->
    handled prev next
| handled_process extract prev next :
    processImages extract prev prev = Some next ->
    handled prev next.

(** The lists of files a session reaches from the empty one. *)
Inductive session : list UploadedFile -> Prop :=
| session_start : session []
| session_step prev next : session prev -> handled prev next -> session next.

(** The service answers a file with white space only. *)
Definition blank_answer (G : Gemini) (f : File) : Prop :=
  exists dataURL t,
    readAsDataURL G f = Some dataURL
    /\ generateContent G
         (match file_type G f with
          | [] => lit "image/png"
          | _ :: _ => file_type G f
          end)
         (nth_error (split_char (cu ",") dataURL) 1)
       = fulfilled (Some t)
    /\ t <> []
    /\ Forall (fun c => is_whitespace c = true) t.

(* ===================================================================== *)
(** * The model on small inputs *)
(* ===================================================================== *)

Example split_cropRegex_two_tags :
  split_cropRegex (lit "ab[[CROP:1,22,3,4]]c[[CROP:1,2,3]]")
  = [lit "ab"; lit "[[CROP:1,22,3,4]]"; lit "c[[CROP:1,2,3]]"].
Proof. vm_compute. reflexivity. Qed.

Example split_cropRegex_adjacent_tags :
  split_cropRegex (lit "[[CROP:1,2,3,4]][[CROP:5,6,7,8]]")
  = [[]; lit "[[CROP:1,2,3,4]]"; []; lit "[[CROP:5,6,7,8]]"; []].
Proof. vm_compute. reflexivity. Qed.

Example match_tag_groups :
  match_tag (lit "[[CROP:10,200,0030,4]]")
  = Some (lit "10", lit "200", lit "0030", lit "4").
Proof. vm_compute. reflexivity. Qed.

Example match_tag_is_anchored :
  match_tag (lit "[[CROP:1,2,3,4]]x") = None
  /\ match_tag (lit "x[[CROP:1,2,3,4]]") = None
  /\ match_tag (lit "[[CROP:1,2,3,-4]]") = None
  /\ match_tag (lit "[[CROP:1, 2,3,4]]") = None.
Proof. vm_compute. repeat split. Qed.

Example parseInt_leading_zeros : parseInt (lit "0030") = of_Z 30.
Proof. reflexivity. Qed.

Example split_char_trailing_break :
  split_char LF (lit "a" ++ [LF] ++ [LF] ++ lit "b" ++ [LF])
  = [lit "a"; []; lit "b"; []].
Proof. reflexivity. Qed.

Example text_part_paragraphs :
  text_part (lit "a" ++ [LF] ++ [LF] ++ lit "b" ++ [LF] ++ lit "c")
    {| docChildren := []; currentRuns := [] |}
  = {| docChildren :=
         [bodyParagraph [lineRun (lit "a")]; bodyParagraph [lineRun (lit "b")]];
       currentRuns := [lineRun (lit "c")] |}.
Proof. reflexivity. Qed.

Example Math_max_examples :
  Math_max (of_Z 20) (of_Z 50) = of_Z 50
  /\ Math_max (of_Z 20) (div (of_Z 1) (of_Z 2)) = of_Z 20
  /\ Math_max (of_Z 20) S754_nan = S754_nan.
Proof. vm_compute. repeat split. Qed.

Example page_height_is_707 : mul MAX_PAGE_WIDTH PAGE_ASPECT_RATIO = of_Z 707.
Proof. vm_compute. reflexivity. Qed.

(* ===================================================================== *)
(** * Properties of the split *)
(* ===================================================================== *)

Lemma split_loop_nil pending : split_loop pending [] = [pending].
Proof. now simp split_loop. Qed.

Lemma split_loop_match pending c s rest :
  cropRegex_at (c :: s) = Some rest ->
  split_loop pending (c :: s)
  = pending :: firstn (List.length (c :: s) - List.length rest) (c :: s)
      :: split_loop [] rest.
Proof.
  intros H. simp split_loop.
  destruct (inspect (cropRegex_at (c :: s))) as [o e].
  destruct o as [r|]; [|congruence].
  assert (r = rest) by congruence. subst r.
  now simp split_loop.
Qed.

Lemma split_loop_skip pending c s :
  cropRegex_at (c :: s) = None ->
  split_loop pending (c :: s) = split_loop (pending ++ [c]) s.
Proof.
  intros H. simp split_loop.
  destruct (inspect (cropRegex_at (c :: s))) as [o e].
  destruct o as [r|]; [congruence|].
  now simp split_loop.
Qed.

(** The capture group of a match is the text of the tag. *)
Lemma matched_prefix (t rest : str) :
  firstn (List.length (t ++ rest) - List.length rest) (t ++ rest) = t.
Proof.
  rewrite length_app, Nat.add_sub.
  rewrite firstn_app, Nat.sub_diag, firstn_all. simpl. apply app_nil_r.
Qed.

(** Induction on the string the way the loop walks it: a match jumps over
    the tag, a failure moves one code unit on. *)
Lemma split_loop_ind (P : str -> Prop) :
  P [] ->
  (forall c s a b c' d rest,
      digits a -> digits b -> digits c' -> digits d ->
      c :: s = tag a b c' d ++ rest ->
      cropRegex_at (c :: s) = Some rest -> P rest -> P (c :: s)) ->
  (forall c s, cropRegex_at (c :: s) = None -> P s -> P (c :: s)) ->
  forall s, P s.
Proof.
  intros Hnil Hmatch Hskip s.
  remember (List.length s) as n eqn:Hn. revert s Hn.
  induction n as [n IH] using lt_wf_ind. intros s Hn.
  destruct s as [|c s]; [exact Hnil|].
  destruct (cropRegex_at (c :: s)) as [rest|] eqn:E.
  - destruct (cropRegex_at_Some _ E) as (a & b & c' & d & Ha & Hb & Hc & Hd & Hs).
    apply (Hmatch c s a b c' d rest); auto.
    apply (IH (List.length rest)); [|reflexivity].
    apply cropRegex_at_shorter in E. lia.
  - apply Hskip; [exact E|].
    apply (IH (List.length s)); [simpl in Hn; lia | reflexivity].
Qed.

Lemma split_loop_concat s :
  forall pending, concat (split_loop pending s) = pending ++ s.
Proof.
  induction s as [| c s a b c' d rest Ha Hb Hc Hd Hs E IH | c s E IH]
    using split_loop_ind; intros pending.
  - rewrite split_loop_nil. simpl. now rewrite app_nil_r.
  - rewrite split_loop_match with (rest := rest) by exact E.
    rewrite Hs at 1 2.
    rewrite matched_prefix. simpl. rewrite IH, Hs. reflexivity.
  - rewrite split_loop_skip by exact E.
    rewrite IH, <- app_assoc. reflexivity.
Qed.

Lemma concat_filter_truthy (l : list str) :
  concat (filter truthy l) = concat l.
Proof.
  induction l as [|x l IH]; [reflexivity|].
  destruct x as [|c x]; simpl; [exact IH|].
  now rewrite IH.
Qed.

Lemma source_classify part : source (classify part) = part.
Proof.
  unfold classify.
  destruct (match_tag part) as [[[[g1 g2] g3] g4]|]; reflexivity.
Qed.

(** C1. Round trip of the parser: for every input string, the texts of the
    text segments and the matched substrings of the crop segments,
    concatenated in order, give the input back; so do the raw parts of the
    split, empty ones included. *)
Theorem C1_parse_roundtrip (fullText : str) :
  concat (map source (parse fullText)) = fullText
  /\ concat (split_cropRegex fullText) = fullText.
Proof.
  assert (H : concat (split_cropRegex fullText) = fullText)
    by apply (split_loop_concat fullText []).
  split; [|exact H].
  unfold parse. rewrite map_map.
  rewrite (map_ext _ (fun x => x) source_classify), map_id.
  now rewrite concat_filter_truthy.
Qed.

(* ===================================================================== *)
(** * The matcher is deterministic on a tag *)
(* ===================================================================== *)

Lemma chr_cons (A : Type) c (k : str -> option A) s :
  chr c k (c :: s) = k s.
Proof. simpl. now rewrite N.eqb_refl. Qed.

Lemma chrs_app (A : Type) cs (k : str -> option A) s :
  chrs cs k (cs ++ s) = k s.
Proof.
  unfold chrs. induction cs as [|c cs IH]; [reflexivity|].
  simpl. now rewrite N.eqb_refl.
Qed.

Lemma digits_plus_no_digit (A : Type) (k : str -> str -> option A) g s :
  no_digit_head s -> digits_plus k g s = None.
Proof.
  destruct s as [|c s]; simpl; [reflexivity|].
  now intros ->.
Qed.

(** When what follows the group in the pattern cannot start on a digit,
    the group takes the whole run of digits. *)
Lemma digits_plus_greedy (A : Type) (k : str -> str -> option A) d :
  (forall g c s, is_digit c = true -> k g (c :: s) = None) ->
  digits d ->
  forall g s, no_digit_head s -> digits_plus k g (d ++ s) = k (g ++ d) s.
Proof.
  intros Hk [Hne Hd]. induction Hd as [|c d Hc Hd IH]; [congruence|].
  intros g s Hs. simpl. rewrite Hc.
  destruct d as [|c' d].
  - simpl. now rewrite digits_plus_no_digit.
  - rewrite IH by (discriminate || exact Hs).
    rewrite <- app_assoc. simpl.
    destruct (k (g ++ c :: c' :: d) s); [reflexivity|].
    inversion Hd; subst. now apply Hk.
Qed.

Lemma chr_digit_head (A : Type) sep (k : str -> option A) c s :
  is_digit sep = false -> is_digit c = true -> chr sep k (c :: s) = None.
Proof.
  intros Hsep Hc. simpl.
  destruct (N.eqb_spec c sep); [congruence | reflexivity].
Qed.

Lemma chr_app (A : Type) c (k : str -> option A) s :
  chr c k ([c] ++ s) = k s.
Proof. apply chr_cons. Qed.

Lemma tag_body_tag (A : Type)
  (k : str -> str -> str -> str -> str -> option A) a b c d rest :
  digits a -> digits b -> digits c -> digits d ->
  tag_body k (tag a b c d ++ rest) = k a b c d rest.
Proof.
  intros Ha Hb Hc Hd. unfold tag_body, tag.
  repeat rewrite <- app_assoc.
  change (lit ",") with [cu ","].
  rewrite chrs_app.
  rewrite digits_plus_greedy;
    [ | intros; now apply chr_digit_head | exact Ha | reflexivity ].
  rewrite chr_app.
  rewrite digits_plus_greedy;
    [ | intros; now apply chr_digit_head | exact Hb | reflexivity ].
  rewrite chr_app.
  rewrite digits_plus_greedy;
    [ | intros; now apply chr_digit_head | exact Hc | reflexivity ].
  rewrite chr_app.
  rewrite digits_plus_greedy;
    [ | intros; now apply chr_digit_head | exact Hd | reflexivity ].
  now rewrite chrs_app.
Qed.

Lemma cropRegex_at_tag a b c d rest :
  digits a -> digits b -> digits c -> digits d ->
  cropRegex_at (tag a b c d ++ rest) = Some rest.
Proof. intros. unfold cropRegex_at. now rewrite tag_body_tag. Qed.

Lemma match_tag_tag a b c d :
  digits a -> digits b -> digits c -> digits d ->
  match_tag (tag a b c d) = Some (a, b, c, d).
Proof.
  intros. unfold match_tag.
  rewrite <- (app_nil_r (tag a b c d)). now rewrite tag_body_tag.
Qed.

Lemma match_tag_Some part a b c d :
  match_tag part = Some (a, b, c, d) ->
  part = tag a b c d /\ digits a /\ digits b /\ digits c /\ digits d.
Proof.
  intros H. apply tag_body_Some in H.
  destruct H as (a' & b' & c' & d' & rest & Ha & Hb & Hc & Hd & -> & H).
  destruct rest; [|discriminate]. inversion H; subst.
  rewrite app_nil_r. auto.
Qed.

(* ===================================================================== *)
(** * A tag in the text is always found by the split *)
(* ===================================================================== *)

Lemma digits_no_bracket d :
  digits d -> Forall (fun x => x <> bracket) d.
Proof.
  intros [_ H]. eapply Forall_impl; [|exact H].
  intros x Hx ->. discriminate.
Qed.

(** After its two opening brackets a tag holds no other one. *)
Lemma tag_brackets a b c d :
  digits a -> digits b -> digits c -> digits d ->
  exists body,
    tag a b c d = bracket :: bracket :: cu "C" :: body
    /\ Forall (fun x => x <> bracket) body.
Proof.
  intros Ha Hb Hc Hd.
  exists (lit "ROP:" ++ a ++ lit "," ++ b ++ lit "," ++ c ++ lit "," ++ d
            ++ lit "]]").
  split; [reflexivity|].
  repeat (apply Forall_app; split);
    try (apply digits_no_bracket; assumption);
    repeat constructor; discriminate.
Qed.

Lemma cropRegex_at_app s rest y :
  cropRegex_at s = Some rest -> cropRegex_at (s ++ y) = Some (rest ++ y).
Proof.
  intros H. apply cropRegex_at_Some in H.
  destruct H as (a & b & c & d & Ha & Hb & Hc & Hd & ->).
  rewrite <- app_assoc. now apply cropRegex_at_tag.
Qed.

(** No match starts before a tag and runs into it. *)
Lemma cropRegex_at_no_straddle x a b c d post :
  digits a -> digits b -> digits c -> digits d ->
  x <> [] ->
  cropRegex_at x = None ->
  cropRegex_at (x ++ tag a b c d ++ post) = None.
Proof.
  intros Ha Hb Hc Hd Hx Hnone.
  destruct (cropRegex_at (x ++ tag a b c d ++ post)) as [r|] eqn:E;
    [exfalso | reflexivity].
  apply cropRegex_at_Some in E.
  destruct E as (a' & b' & c' & d' & Ha' & Hb' & Hc' & Hd' & E).
  apply app_eq_app in E. destruct E as (l & [[E1 E2] | [E1 E2]]).
  - subst x. rewrite cropRegex_at_tag in Hnone by assumption. discriminate.
  - destruct l as [|e l].
    + rewrite app_nil_r in E1. subst x.
      rewrite <- (app_nil_r (tag a' b' c' d')) in Hnone.
      rewrite cropRegex_at_tag in Hnone by assumption. discriminate.
    + destruct (tag_brackets Ha Hb Hc Hd) as (body & HT & _).
      destruct (tag_brackets Ha' Hb' Hc' Hd') as (body' & HT' & Hbody').
      rewrite HT in E2. rewrite HT' in E1. simpl in E2.
      injection E2 as <- E2.
      destruct x as [|x0 x]; [congruence|].
      simpl in E1. injection E1 as <- E1.
      destruct x as [|x1 x]; simpl in E1.
      * injection E1 as E1. subst l. simpl in E2. discriminate.
      * injection E1 as <- E1.
        assert (Hin : In bracket (x ++ bracket :: l))
          by (apply in_or_app; right; left; reflexivity).
        rewrite <- E1 in Hin.
        destruct Hin as [Hin | Hin]; [discriminate|].
        rewrite Forall_forall in Hbody'. now apply (Hbody' _ Hin).
Qed.

Lemma split_loop_match_tag pending a b c d rest :
  digits a -> digits b -> digits c -> digits d ->
  split_loop pending (tag a b c d ++ rest)
  = pending :: tag a b c d :: split_loop [] rest.
Proof.
  intros Ha Hb Hc Hd.
  pose proof (cropRegex_at_tag rest Ha Hb Hc Hd) as E.
  destruct (tag_brackets Ha Hb Hc Hd) as (body & HT & _).
  remember (tag a b c d ++ rest) as s eqn:Hs.
  destruct s as [|c0 s]; [rewrite HT in Hs; discriminate|].
  rewrite split_loop_match with (rest := rest) by exact E.
  rewrite Hs, matched_prefix. reflexivity.
Qed.

(** The parts of a text around a tag are the parts of what precedes it, the
    tag, and the parts of what follows it. *)
Lemma split_loop_around_tag a b c d post :
  digits a -> digits b -> digits c -> digits d ->
  forall pre pending,
    split_loop pending (pre ++ tag a b c d ++ post)
    = split_loop pending pre ++ tag a b c d :: split_loop [] post.
Proof.
  intros Ha Hb Hc Hd pre. pattern pre. apply split_loop_ind; clear pre;
    [ | intros c0 s a' b' c' d' rest Ha' Hb' Hc' Hd' Hs E IH
      | intros c0 s E IH ]; intros pending.
  - rewrite split_loop_nil. simpl. now apply split_loop_match_tag.
  - rewrite Hs. rewrite <- app_assoc.
    rewrite !split_loop_match_tag by assumption.
    rewrite IH. reflexivity.
  - rewrite split_loop_skip by exact E.
    change ((c0 :: s) ++ tag a b c d ++ post)
      with (c0 :: (s ++ tag a b c d ++ post)).
    rewrite split_loop_skip.
    + apply IH.
    + change (c0 :: (s ++ tag a b c d ++ post))
        with ((c0 :: s) ++ tag a b c d ++ post).
      apply cropRegex_at_no_straddle; auto. discriminate.
Qed.

(* ===================================================================== *)
(** * Facts about binary64 arithmetic *)
(* ===================================================================== *)

Section FloatFacts.

Local Open Scope Z_scope.

Lemma shr_1_nonneg mrs : 0 <= shr_m mrs -> 0 <= shr_m (shr_1 mrs).
Proof.
  destruct mrs as [m r s]. simpl.
  destruct m as [|[p|p|]|[p|p|]]; simpl; lia.
Qed.

Lemma iter_shr_1_nonneg p :
  forall mrs, 0 <= shr_m mrs -> 0 <= shr_m (iter_pos shr_1 p mrs).
Proof.
  induction p as [p IH|p IH|]; simpl; intros mrs H.
  - apply IH, IH, shr_1_nonneg, H.
  - apply IH, IH, H.
  - apply shr_1_nonneg, H.
Qed.

Lemma shr_fexp_nonneg m e l :
  0 <= m -> 0 <= shr_m (fst (shr_fexp prec emax m e l)).
Proof.
  intros H. unfold shr_fexp, shr.
  assert (H0 : 0 <= shr_m (shr_record_of_loc m l))
    by (destruct l as [|[]]; exact H).
  destruct (fexp prec emax (Zdigits2 m + e) - e); simpl; auto.
  now apply iter_shr_1_nonneg.
Qed.

Lemma round_nearest_even_nonneg m l :
  0 <= m -> 0 <= round_nearest_even m l.
Proof.
  intros H. destruct l as [|[]]; simpl; try lia.
  destruct (Z.even m); lia.
Qed.

Lemma binary_round_aux_sign s m e l :
  0 <= m -> has_sign s (binary_round_aux prec emax s m e l).
Proof.
  intros H. unfold binary_round_aux.
  pose proof (shr_fexp_nonneg e l H) as H1.
  destruct (shr_fexp prec emax m e l) as [mrs' e'].
  simpl in H1.
  pose proof (round_nearest_even_nonneg (loc_of_shr_record mrs') H1) as H2.
  pose proof (shr_fexp_nonneg e' loc_Exact H2) as H3.
  destruct (shr_fexp prec emax _ e' loc_Exact) as [mrs'' e''].
  simpl in H3.
  destruct (shr_m mrs'') as [|p|p]; simpl; [reflexivity| |lia].
  destruct (_ <=? _); simpl; reflexivity.
Qed.

Lemma binary_round_sign s m e : has_sign s (binary_round prec emax s m e).
Proof.
  unfold binary_round.
  destruct (shl_align m e _) as [mz ez].
  apply binary_round_aux_sign. lia.
Qed.

Lemma has_sign_nonpos x : has_sign true x -> nonpos x.
Proof. destruct x; simpl; auto. Qed.

Lemma nonpos_leb_0 x : nonpos x -> leb x (of_Z 0) = true.
Proof.
  destruct x as [s|s| |s m e]; simpl; intros H;
    try contradiction; subst; reflexivity.
Qed.

Lemma SFdiv_core_nonneg m1 e1 m2 e2 :
  0 <= fst (fst (SFdiv_core_binary prec emax (Zpos m1) e1 (Zpos m2) e2)).
Proof.
  unfold SFdiv_core_binary.
  set (s := _ - _ - _).
  set (m' := match s with Z0 => _ | Zpos _ => _ | Zneg _ => _ end).
  assert (Hm : 0 <= m').
  { subst m'. destruct s; try lia. apply Z.shiftl_nonneg. lia. }
  pose proof (Z.div_pos m' (Zpos m2) Hm ltac:(lia)) as Hq.
  unfold Z.div in Hq.
  destruct (Z.div_eucl m' (Zpos m2)) as [q r]. exact Hq.
Qed.

Lemma div_sign sx mx ex my ey :
  has_sign sx (div (S754_finite sx mx ex) (S754_finite false my ey)).
Proof.
  unfold div, SFdiv.
  pose proof (SFdiv_core_nonneg mx ex my ey) as H.
  destruct (SFdiv_core_binary prec emax (Zpos mx) ex (Zpos my) ey) as [[mz ez] lz].
  simpl in H. rewrite xorb_false_r. now apply binary_round_aux_sign.
Qed.

Lemma div_nonpos x my ey :
  nonpos x -> nonpos (div x (S754_finite false my ey)).
Proof.
  destruct x as [s|s| |s m e]; simpl; intros H; subst; auto.
  apply has_sign_nonpos, div_sign.
Qed.

Lemma mul_sign sx mx ex my ey :
  has_sign sx (mul (S754_finite sx mx ex) (S754_finite false my ey)).
Proof.
  unfold mul, SFmul. rewrite xorb_false_r. apply binary_round_aux_sign. lia.
Qed.

Lemma mul_nonpos x my ey :
  nonpos x -> nonpos (mul x (S754_finite false my ey)).
Proof.
  destruct x as [s|s| |s m e]; simpl; intros H; subst; auto.
  apply has_sign_nonpos, mul_sign.
Qed.

(** ** Integers below 2^53 are represented exactly *)

Lemma digits2_pos_lower p : 2 ^ (Zpos (digits2_pos p) - 1) <= Zpos p.
Proof.
  induction p as [p IH|p IH|]; simpl digits2_pos.
  - rewrite Pos2Z.inj_succ.
    replace (Z.succ (Zpos (digits2_pos p)) - 1)
      with (Z.succ (Zpos (digits2_pos p) - 1)) by lia.
    rewrite Z.pow_succ_r by lia. lia.
  - rewrite Pos2Z.inj_succ.
    replace (Z.succ (Zpos (digits2_pos p)) - 1)
      with (Z.succ (Zpos (digits2_pos p) - 1)) by lia.
    rewrite Z.pow_succ_r by lia. lia.
  - simpl. lia.
Qed.

Lemma iter_xO_val p k : Zpos (Pos.iter xO p k) = Zpos p * 2 ^ Zpos k.
Proof.
  induction k as [|k IH] using Pos.peano_ind.
  - simpl. lia.
  - rewrite Pos.iter_succ, Pos2Z.inj_succ, Z.pow_succ_r by lia.
    rewrite Pos2Z.inj_xO, IH. lia.
Qed.

Lemma digits2_pos_iter_xO p k :
  Zpos (digits2_pos (Pos.iter xO p k)) = Zpos (digits2_pos p) + Zpos k.
Proof.
  induction k as [|k IH] using Pos.peano_ind.
  - simpl. lia.
  - rewrite Pos.iter_succ. simpl digits2_pos.
    rewrite !Pos2Z.inj_succ, IH. lia.
Qed.

Lemma binary_round_aux_canonical s m e :
  fexp prec emax (Zpos (digits2_pos m) + e) = e ->
  e <= emax - prec ->
  binary_round_aux prec emax s (Zpos m) e loc_Exact = S754_finite s m e.
Proof.
  intros Hc He. unfold binary_round_aux, shr_fexp.
  cbn [Zdigits2 shr_record_of_loc]. rewrite Hc, Z.sub_diag.
  cbn [shr shr_m loc_of_shr_record round_nearest_even Zdigits2
       shr_record_of_loc shr_r shr_s].
  rewrite Hc, Z.sub_diag. cbn [shr shr_m].
  apply Z.leb_le in He. now rewrite He.
Qed.

Lemma of_Z_repr a : 0 <= a < 2 ^ 53 -> int_repr a (of_Z a).
Proof.
  intros [H0 H53]. destruct a as [|p|p]; [reflexivity| |lia].
  unfold of_Z, binary_normalize, binary_round.
  pose proof (digits2_pos_lower p) as Hd.
  set (d := Zpos (digits2_pos p)) in *.
  assert (Hd53 : d <= 53).
  { destruct (Z_le_gt_dec d 53) as [|Hgt]; [assumption|exfalso].
    assert (2 ^ 53 <= 2 ^ (d - 1)) by (apply Z.pow_le_mono_r; lia). lia. }
  assert (Hd1 : 1 <= d) by (subst d; lia).
  assert (Hf : fexp prec emax (d + 0) = d - 53).
  { unfold fexp, emin, prec, emax. lia. }
  rewrite Hf. unfold shl_align.
  destruct (d - 53 - 0) as [|k|k] eqn:Hk; try lia.
  - rewrite binary_round_aux_canonical.
    + unfold int_repr. split; [lia|]. change (- 0) with 0.
      rewrite Z.pow_0_r. lia.
    + fold d. unfold fexp, emin, prec, emax. lia.
    + unfold prec, emax. lia.
  - rewrite binary_round_aux_canonical.
    + unfold int_repr. split; [lia|]. rewrite iter_xO_val.
      replace (- (d - 53)) with (Zpos k) by lia. reflexivity.
    + rewrite digits2_pos_iter_xO. fold d.
      unfold fexp, emin, prec, emax. lia.
    + unfold prec, emax. lia.
Qed.

Lemma shl_align_val m e e' :
  e' <= e -> Zpos (fst (shl_align m e e')) = Zpos m * 2 ^ (e - e').
Proof.
  intros H. unfold shl_align.
  destruct (e' - e) as [|k|k] eqn:Hk; simpl fst.
  - replace (e - e') with 0 by lia. simpl. lia.
  - lia.
  - rewrite iter_xO_val. replace (e - e') with (Zpos k) by lia. reflexivity.
Qed.

Lemma sub_nonpos a b x y :
  int_repr a x -> int_repr b y -> a <= b -> nonpos (sub x y).
Proof.
  intros Hx Hy Hab.
  destruct x as [[|]| | |[|] mx ex]; try contradiction;
  destruct y as [[|]| | |[|] my ey]; try contradiction; simpl in Hx, Hy.
  - exact I.
  - reflexivity.
  - exfalso. destruct Hx as [He Hm]. subst b.
    assert (0 < 2 ^ (- ex)) by (apply Z.pow_pos_nonneg; lia). nia.
  - destruct Hx as [Hex Hmx], Hy as [Hey Hmy].
    unfold sub, SFsub, cond_Zopp.
    set (ez := Z.min ex ey).
    rewrite !shl_align_val by (subst ez; lia).
    rewrite Hmx, Hmy, <- !Z.mul_assoc, <- !Z.pow_add_r by (subst ez; lia).
    replace (- ex + (ex - ez)) with (- ez) by lia.
    replace (- ey + (ey - ez)) with (- ez) by lia.
    assert (Hp : 0 < 2 ^ (- ez)) by (apply Z.pow_pos_nonneg; subst ez; lia).
    rewrite <- Z.mul_sub_distr_r.
    destruct ((a - b) * 2 ^ (- ez)) as [|q|q] eqn:Hq.
    + exact I.
    + nia.
    + apply has_sign_nonpos. apply binary_round_sign.
Qed.

End FloatFacts.

(* ===================================================================== *)
(** * The crop: degenerate rectangles *)
(* ===================================================================== *)

Lemma of_Z_1000 : of_Z 1000 = S754_finite false 8796093022208000 (-43).
Proof. vm_compute. reflexivity. Qed.

(** The extent the crop computes from [lo] to [hi] is not positive when
    [hi <= lo]. *)
Lemma extent_nonpos (lo hi : Z) (side : number) :
  (0 <= lo < 2 ^ 53)%Z -> (0 <= hi < 2 ^ 53)%Z -> (hi <= lo)%Z ->
  positive_finite side ->
  leb (mul (div (sub (of_Z hi) (of_Z lo)) (of_Z 1000)) side) (of_Z 0) = true.
Proof.
  intros Hlo Hhi Hle Hside.
  destruct side as [| | |[|] m e]; try contradiction.
  apply nonpos_leb_0, mul_nonpos.
  rewrite of_Z_1000. apply div_nonpos.
  eapply sub_nonpos; [apply of_Z_repr, Hhi | apply of_Z_repr, Hlo | exact Hle].
Qed.

(** C3. For every marker with [xmax <= xmin] or [ymax <= ymin] (integer
    coordinates, here anywhere from 0 up to 2^53, which covers the 0..1000
    scale) and every source image that decodes with a positive width and
    height, the crop is rejected with the degenerate-region error
    ("Invalid crop dimensions"); it does not resolve with a region. *)
Theorem C3_degenerate_region_rejected
  (B : Browser) (f : File) (img : Image) (ymin xmin ymax xmax : Z)
  (w : World) :
  decode B f = Some img ->
  positive_finite (img_width img) ->
  positive_finite (img_height img) ->
  (0 <= ymin < 2 ^ 53)%Z -> (0 <= xmin < 2 ^ 53)%Z ->
  (0 <= ymax < 2 ^ 53)%Z -> (0 <= xmax < 2 ^ 53)%Z ->
  (xmax <= xmin)%Z \/ (ymax <= ymin)%Z ->
  fst (cropImage B f (of_Z ymin) (of_Z xmin) (of_Z ymax) (of_Z xmax) w)
  = reject (mkError (lit "Invalid crop dimensions")).
Proof.
  intros Hdec Hw Hh Hymin Hxmin Hymax Hxmax Hdeg.
  unfold cropImage, bind, createObjectURL. rewrite Hdec.
  destruct Hdeg as [Hx | Hy].
  - rewrite (@extent_nonpos xmin xmax (img_width img)) by assumption.
    reflexivity.
  - rewrite (@extent_nonpos ymin ymax (img_height img)) by assumption.
    rewrite orb_true_r. reflexivity.
Qed.

Lemma C3_degenerate_region_rejected_witness :
  fst (cropImage okBrowser (png "a.png")
         (of_Z 10) (of_Z 500) (of_Z 20) (of_Z 400) world0)
  = reject (mkError (lit "Invalid crop dimensions")).
Proof.
  apply (@C3_degenerate_region_rejected okBrowser (png "a.png")
           {| img_width := of_Z 1000; img_height := of_Z 1000 |}
           10 500 20 400 world0).
  - reflexivity.
  - exact I.
  - exact I.
  - split; [lia | reflexivity].
  - split; [lia | reflexivity].
  - split; [lia | reflexivity].
  - split; [lia | reflexivity].
  - left. lia.
Defined.

(** Beyond the range of doubles the guard is blind: two coordinates of 310
    digits both parse to Infinity, their difference is NaN, and
    [NaN <= 0] is false. *)
Remark extent_of_infinities_passes_guard :
  let huge := of_Z (10 ^ 309) in
  huge = S754_infinity false
  /\ leb (mul (div (sub huge huge) (of_Z 1000)) (of_Z 1000)) (of_Z 0) = false.
Proof. vm_compute. split; reflexivity. Qed.

(* ===================================================================== *)
(** * The crop: outcome and object URLs *)
(* ===================================================================== *)

Lemma cropImage_fst B f ymin xmin ymax xmax w :
  fst (cropImage B f ymin xmin ymax xmax w)
  = crop_result B f ymin xmin ymax xmax.
Proof.
  unfold crop_result, cropImage, bind, createObjectURL.
  destruct (decode B f) as [img|]; [|reflexivity].
  destruct (leb _ _ || leb _ _); [reflexivity|].
  destruct (negb _); [reflexivity|].
  destruct (drawImage B f _ _ _ _); [reflexivity|].
  destruct (toBlob B f _ _ _ _); reflexivity.
Qed.

Lemma remove_fresh (u : URL) (l : list URL) :
  Forall (fun v => (v < u)%N) l -> remove N.eq_dec u l = l.
Proof.
  intros H. apply notin_remove. intros Hin.
  rewrite Forall_forall in H. specialize (H _ Hin). lia.
Qed.

(** On the paths that revoke it, the object URL is gone once the promise
    settles: when the image does not load, when drawing throws, and when the
    crop resolves. *)
Lemma cropImage_releases_url B f ymin xmin ymax xmax w :
  urls_wf w ->
  (decode B f = None
   \/ (exists buffer, crop_result B f ymin xmin ymax xmax = resolve buffer)) ->
  objectURLs (snd (cropImage B f ymin xmin ymax xmax w)) = objectURLs w.
Proof.
  intros Hwf H. unfold crop_result, cropImage, bind, createObjectURL in *.
  destruct (decode B f) as [img|].
  - destruct H as [H | [buffer H]]; [discriminate|].
    destruct (leb _ _ || leb _ _); [discriminate|].
    destruct (negb _); [discriminate|].
    destruct (drawImage B f _ _ _ _); [discriminate|].
    destruct (toBlob B f _ _ _ _); [|discriminate].
    simpl. destruct (N.eq_dec (nextURL w) (nextURL w)); [|congruence].
    now apply remove_fresh.
  - simpl. destruct (N.eq_dec (nextURL w) (nextURL w)); [|congruence].
    now apply remove_fresh.
Qed.

(** On the degenerate-rectangle path nothing revokes it. *)
Lemma cropImage_degenerate_keeps_url B f img ymin xmin ymax xmax w :
  decode B f = Some img ->
  leb (mul (div (sub xmax xmin) (of_Z 1000)) (img_width img)) (of_Z 0)
  || leb (mul (div (sub ymax ymin) (of_Z 1000)) (img_height img)) (of_Z 0)
  = true ->
  objectURLs (snd (cropImage B f ymin xmin ymax xmax w))
  = nextURL w :: objectURLs w.
Proof.
  intros Hdec Hdeg. unfold cropImage, bind, createObjectURL.
  rewrite Hdec, Hdeg. reflexivity.
Qed.

(** Nor on the two other early exits: no 2D context, and a null blob. *)
Lemma cropImage_early_exit_keeps_url B f img ymin xmin ymax xmax w :
  decode B f = Some img ->
  let realX := mul (div xmin (of_Z 1000)) (img_width img) in
  let realY := mul (div ymin (of_Z 1000)) (img_height img) in
  let realW := mul (div (sub xmax xmin) (of_Z 1000)) (img_width img) in
  let realH := mul (div (sub ymax ymin) (of_Z 1000)) (img_height img) in
  leb realW (of_Z 0) || leb realH (of_Z 0) = false ->
  getContext2d B realW realH = false
  \/ (drawImage B f realX realY realW realH = None
      /\ toBlob B f realX realY realW realH = None) ->
  objectURLs (snd (cropImage B f ymin xmin ymax xmax w))
  = nextURL w :: objectURLs w.
Proof.
  intros Hdec realX realY realW realH Hpos Hexit.
  unfold cropImage, bind, createObjectURL. rewrite Hdec.
  fold realX realY realW realH. rewrite Hpos.
  destruct Hexit as [Hctx | [Hdraw Hblob]].
  - rewrite Hctx. reflexivity.
  - destruct (getContext2d B realW realH); [|reflexivity].
    simpl negb. cbv iota. rewrite Hdraw, Hblob. reflexivity.
Qed.

(** C8. The claim asks that the object URL opened for the source image be
    released on every exit path of the crop. On the degenerate-region path
    it is not: for the marker (0,0,0,0) on an image that decodes, the crop
    rejects with "Invalid crop dimensions" and the URL it created on a fresh
    page is still alive afterwards. *)
Theorem C8_degenerate_crop_leaks_object_url :
  fst (cropImage okBrowser (png "a.png")
         (of_Z 0) (of_Z 0) (of_Z 0) (of_Z 0) world0)
  = reject (mkError (lit "Invalid crop dimensions"))
  /\ objectURLs world0 = []
  /\ objectURLs (snd (cropImage okBrowser (png "a.png")
                        (of_Z 0) (of_Z 0) (of_Z 0) (of_Z 0) world0))
     = [0%N].
Proof. vm_compute. repeat split. Qed.

(* ===================================================================== *)
(** * The display size of an embedded image *)
(* ===================================================================== *)

Lemma has_sign_not_nan s x : has_sign s x -> is_nan x = false.
Proof. destruct x; simpl; tauto. Qed.

Lemma sub_not_nan a b x y :
  int_repr a x -> int_repr b y -> is_nan (sub x y) = false.
Proof.
  intros Hx Hy.
  destruct x as [[|]| | |[|] mx ex]; try contradiction;
  destruct y as [[|]| | |[|] my ey]; try contradiction; try reflexivity.
  unfold sub, SFsub. generalize (Z.min ex ey). intros ez.
  destruct (_ - _)%Z; simpl binary_normalize; [reflexivity | |].
  - eapply has_sign_not_nan, binary_round_sign.
  - eapply has_sign_not_nan, binary_round_sign.
Qed.

Lemma div_not_nan x m e :
  is_nan x = false -> is_nan (div x (S754_finite false m e)) = false.
Proof.
  destruct x as [s|s| |s mx ex]; intros H; try discriminate; try reflexivity.
  eapply has_sign_not_nan, div_sign.
Qed.

Lemma mul_not_nan x m e :
  is_nan x = false -> is_nan (mul x (S754_finite false m e)) = false.
Proof.
  destruct x as [s|s| |s mx ex]; intros H; try discriminate; try reflexivity.
  eapply has_sign_not_nan, mul_sign.
Qed.

Lemma of_Z_20 : of_Z 20 = S754_finite false 5629499534213120 (-48).
Proof. vm_compute. reflexivity. Qed.

(** [Math.max(20, x)] is at least 20 unless [x] is NaN. *)
Lemma Math_max_20_ge x :
  is_nan x = false -> leb (of_Z 20) (Math_max (of_Z 20) x) = true.
Proof.
  intros Hx. unfold Math_max.
  change (max_step (S754_infinity true) (of_Z 20)) with (of_Z 20).
  rewrite of_Z_20. unfold max_step. rewrite Hx. cbn [is_nan orb].
  set (a := S754_finite false 5629499534213120 (-48)).
  assert (Hstep : leb a (if ltb a x then x else a) = true).
  { destruct (ltb a x) eqn:E; [|reflexivity].
    unfold ltb, SFltb in E. unfold leb, SFleb.
    destruct (SFcompare a x) as [[| |]|]; congruence. }
  destruct x as [[|]|s| |s m e]; exact Hstep.
Qed.

Lemma displayWidth_not_nan (xmin xmax : Z) :
  (0 <= xmin < 2 ^ 53)%Z -> (0 <= xmax < 2 ^ 53)%Z ->
  is_nan (displayWidth (of_Z xmin) (of_Z xmax)) = false.
Proof.
  intros Hlo Hhi. unfold displayWidth.
  change MAX_PAGE_WIDTH
    with (S754_finite false 8796093022208000 (-44)).
  apply mul_not_nan. rewrite of_Z_1000. apply div_not_nan.
  eapply sub_not_nan; apply of_Z_repr; assumption.
Qed.

Lemma displayHeight_not_nan (ymin ymax : Z) :
  (0 <= ymin < 2 ^ 53)%Z -> (0 <= ymax < 2 ^ 53)%Z ->
  is_nan (displayHeight (of_Z ymin) (of_Z ymax)) = false.
Proof.
  intros Hlo Hhi. unfold displayHeight.
  change (mul MAX_PAGE_WIDTH PAGE_ASPECT_RATIO)
    with (S754_finite false 6218837766701056 (-43)).
  apply mul_not_nan. rewrite of_Z_1000. apply div_not_nan.
  eapply sub_not_nan; apply of_Z_repr; assumption.
Qed.

(** C7. For every marker whose crop succeeds, the image run the builder
    appends has width [Math.max(20, (xmax-xmin)/1000 * 500)] and height
    [Math.max(20, (ymax-ymin)/1000 * (500 * 1.414))]; for integer
    coordinates (anywhere from 0 up to 2^53) both are at least 20; and for
    the marker [[CROP:999,999,1000,1000]] both are exactly 20. *)
Theorem C7_display_size
  (B : Browser) (f : File) (g1 g2 g3 g4 : str) (b : Builder) (w : World)
  (imageBuffer : ArrayBuffer) :
  fst (cropImage B f (parseInt g1) (parseInt g2) (parseInt g3) (parseInt g4) w)
  = resolve imageBuffer ->
  let width := Math_max (of_Z 20) (displayWidth (parseInt g2) (parseInt g4)) in
  let height := Math_max (of_Z 20) (displayHeight (parseInt g1) (parseInt g3)) in
  fst (crop_part B f g1 g2 g3 g4 b w)
  = resolve
      (push_run
         (ImageRun {| data := imageBuffer;
                      transformation := {| width := width; height := height |};
                      type := lit "png" |}) b)
  /\ ((0 <= decimal g1 < 2 ^ 53)%Z -> (0 <= decimal g2 < 2 ^ 53)%Z ->
      (0 <= decimal g3 < 2 ^ 53)%Z -> (0 <= decimal g4 < 2 ^ 53)%Z ->
      leb (of_Z 20) width = true /\ leb (of_Z 20) height = true)
  /\ (g1 = lit "999" -> g2 = lit "999" -> g3 = lit "1000" -> g4 = lit "1000" ->
      width = of_Z 20 /\ height = of_Z 20).
Proof.
  intros Hcrop width height. repeat split.
  - unfold crop_part, bind.
    destruct (cropImage B f _ _ _ _ w) as [r w'].
    simpl in Hcrop. subst r. reflexivity.
  - apply Math_max_20_ge, displayWidth_not_nan; assumption.
  - apply Math_max_20_ge, displayHeight_not_nan; assumption.
  - subst. vm_compute. reflexivity.
  - subst. vm_compute. reflexivity.
Qed.

Lemma C7_display_size_witness :
  fst (crop_part okBrowser (png "a.png")
         (lit "999") (lit "999") (lit "1000") (lit "1000")
         {| docChildren := []; currentRuns := [] |} world0)
  = resolve
      (push_run
         (ImageRun {| data := [137%N];
                      transformation :=
                        {| width := of_Z 20; height := of_Z 20 |};
                      type := lit "png" |})
         {| docChildren := []; currentRuns := [] |}).
Proof.
  apply (@C7_display_size okBrowser (png "a.png")
           (lit "999") (lit "999") (lit "1000") (lit "1000")
           {| docChildren := []; currentRuns := [] |} world0 [137%N]).
  vm_compute. reflexivity.
Defined.

(* ===================================================================== *)
(** * The builder, step by step *)
(* ===================================================================== *)

(** The colours the builder asks for: the one of the headers is accepted,
    the one of the placeholder is not. *)
Example hexColorValue_666666 :
  hexColorValue (lit "666666") = resolve (lit "666666").
Proof. reflexivity. Qed.

Example hexColorValue_red : hexColorValue (lit "red") = reject InvalidColor.
Proof. reflexivity. Qed.

(** Every other run of the document is accepted as it is constructed. *)
Lemma new_TextRun_header f :
  Forall (fun r => match r with
                   | TextRun o => new_TextRun o = resolve r
                   | ImageRun _ => True
                   end)
    (children (headerParagraph f) ++ children pageBreakParagraph).
Proof. repeat constructor. Qed.

Lemma new_TextRun_lineRun line :
  match lineRun line with
  | TextRun o => new_TextRun o = resolve (lineRun line)
  | ImageRun _ => True
  end.
Proof. reflexivity. Qed.

Lemma new_TextRun_no_color o :
  color o = None -> new_TextRun o = resolve (TextRun o).
Proof. intros H. unfold new_TextRun. now rewrite H. Qed.

Lemma new_TextRun_missingImage :
  new_TextRun missingImageOptions = reject InvalidColor.
Proof. reflexivity. Qed.

Lemma push_run_prepend D r b :
  push_run r (prepend D b) = prepend D (push_run r b).
Proof. reflexivity. Qed.

Lemma flushParagraph_prepend D b :
  flushParagraph (prepend D b) = prepend D (flushParagraph b).
Proof.
  unfold flushParagraph, prepend. simpl.
  destruct (0 <? List.length (currentRuns b)); simpl; [|reflexivity].
  now rewrite app_assoc.
Qed.

Lemma line_step_prepend D len line i b :
  line_step len line i (prepend D b) = prepend D (line_step len line i b).
Proof.
  unfold line_step.
  destruct (truthy line), (i <? len - 1);
    rewrite ?push_run_prepend, ?flushParagraph_prepend; reflexivity.
Qed.

Lemma forEach_line_step_prepend D len lines :
  forall i b,
    forEach (line_step len) i lines (prepend D b)
    = prepend D (forEach (line_step len) i lines b).
Proof.
  induction lines as [|line lines IH]; intros i b; simpl; [reflexivity|].
  now rewrite line_step_prepend, IH.
Qed.

Lemma text_part_prepend D part b :
  text_part part (prepend D b) = prepend D (text_part part b).
Proof. apply forEach_line_step_prepend. Qed.

(** A crop step, by the outcome of the crop. *)
Lemma crop_part_fst B f g1 g2 g3 g4 b w :
  fst (crop_part B f g1 g2 g3 g4 b w)
  = match crop_result B f (parseInt g1) (parseInt g2) (parseInt g3)
            (parseInt g4) with
    | resolve imageBuffer =>
        resolve (push_run (imageRun imageBuffer (parseInt g1) (parseInt g2)
                             (parseInt g3) (parseInt g4)) b)
    | reject _ => reject InvalidColor
    end.
Proof.
  unfold crop_part, bind.
  rewrite <- (cropImage_fst B f _ _ _ _ w).
  destruct (cropImage B f _ _ _ _ w) as [[buffer|e] w']; reflexivity.
Qed.

(** A step of the loop over the parts, by the kind of the part. *)
Lemma part_step_outcome B f part b w :
  fst (part_step B f part b w)
  = if falsy part then resolve b
    else
      match match_tag part with
      | Some (g1, g2, g3, g4) =>
          match crop_result B f (parseInt g1) (parseInt g2) (parseInt g3)
                  (parseInt g4) with
          | resolve imageBuffer =>
              resolve
                (push_run (imageRun imageBuffer (parseInt g1) (parseInt g2)
                             (parseInt g3) (parseInt g4)) b)
          | reject _ => reject InvalidColor
          end
      | None => resolve (text_part part b)
      end.
Proof.
  unfold part_step. destruct (falsy part); [reflexivity|].
  destruct (match_tag part) as [[[[g1 g2] g3] g4]|]; [|reflexivity].
  apply crop_part_fst.
Qed.

Lemma part_step_fst B f part b w :
  fst (part_step B f part b w) = fst (part_step B f part b world0).
Proof. now rewrite !part_step_outcome. Qed.

Lemma part_step_prepend B f part D b w :
  fst (part_step B f part (prepend D b) w)
  = on_resolve (prepend D) (fst (part_step B f part b w)).
Proof.
  rewrite !part_step_outcome. destruct (falsy part); [reflexivity|].
  destruct (match_tag part) as [[[[g1 g2] g3] g4]|].
  - destruct (crop_result B f _ _ _ _); reflexivity.
  - simpl. now rewrite text_part_prepend.
Qed.

(** A step resolves exactly on a part whose crop, if it is a tag,
    resolves; the only error a step throws is the one of the colour. *)
Lemma part_step_resolves B f part b w :
  match fst (part_step B f part b w) with
  | resolve _ => part_resolves B f part = true
  | reject e => part_resolves B f part = false /\ e = InvalidColor
  end.
Proof.
  rewrite part_step_outcome. unfold part_resolves.
  destruct part as [|c part]; [reflexivity|]. cbn [falsy].
  destruct (match_tag (c :: part)) as [[[[g1 g2] g3] g4]|]; [|reflexivity].
  destruct (crop_result B f _ _ _ _); [reflexivity | now split].
Qed.

(** The loop over the parts, one step at a time. *)
Lemma for_parts_cons B f part parts b w :
  fst (for_parts B f (part :: parts) b w)
  = match fst (part_step B f part b world0) with
    | resolve b' => fst (for_parts B f parts b' world0)
    | reject e => reject e
    end.
Proof.
  revert part b w.
  assert (Hw : forall parts b w,
             fst (for_parts B f parts b w)
             = fst (for_parts B f parts b world0)).
  { clear parts. induction parts as [|part parts IH]; intros b w;
      [reflexivity|].
    cbn [for_parts]. unfold bind_try, bind.
    pose proof (part_step_fst B f part b w) as H.
    destruct (part_step B f part b w) as [r w1].
    destruct (part_step B f part b world0) as [r0 w0].
    cbn [fst] in H. subst r0.
    destruct r as [b'|e]; [|reflexivity].
    now rewrite (IH b' w1), (IH b' w0). }
  intros part b w. rewrite Hw. cbn [for_parts]. unfold bind_try, bind.
  destruct (part_step B f part b world0) as [[b'|e] w0]; cbn [fst];
    [apply Hw | reflexivity].
Qed.

(** The outcome of the loop does not depend on the state of the page. *)
Lemma for_parts_fst B f parts b w :
  fst (for_parts B f parts b w) = fst (for_parts B f parts b world0).
Proof.
  destruct parts as [|part parts]; [reflexivity|].
  now rewrite !for_parts_cons.
Qed.

Lemma for_parts_prepend B f D parts :
  forall b w,
    fst (for_parts B f parts (prepend D b) w)
    = on_resolve (prepend D) (fst (for_parts B f parts b w)).
Proof.
  induction parts as [|part parts IH]; intros b w; [reflexivity|].
  rewrite !for_parts_cons, part_step_prepend.
  destruct (fst (part_step B f part b world0)) as [b'|e]; [|reflexivity].
  apply IH.
Qed.

(** The loop comes to its end exactly when every crop resolves. *)
Lemma for_parts_resolves B f parts :
  forall b w,
    match fst (for_parts B f parts b w) with
    | resolve _ => forallb (part_resolves B f) parts = true
    | reject e => forallb (part_resolves B f) parts = false /\ e = InvalidColor
    end.
Proof.
  induction parts as [|part parts IH]; intros b w; [reflexivity|].
  rewrite for_parts_cons. cbn [forallb].
  pose proof (part_step_resolves B f part b world0) as H.
  destruct (fst (part_step B f part b world0)) as [b'|e].
  - rewrite H. apply IH.
  - destruct H as [H ->]. now rewrite H.
Qed.

(** The body of a file whose crops resolve is what the loop built. *)
Lemma body_resolves B f :
  crops_resolve B f = true ->
  exists b,
    fst (for_parts B (file f)
           (split_cropRegex
              match extractedText f with Some t => t | None => [] end)
           {| docChildren := []; currentRuns := [] |} world0)
    = resolve b
    /\ body B f = docChildren (flushParagraph b).
Proof.
  unfold crops_resolve, body. intros H. cbv zeta.
  set (parts := split_cropRegex _) in *.
  pose proof (for_parts_resolves B (file f) parts
                {| docChildren := []; currentRuns := [] |} world0) as Hr.
  destruct (fst (for_parts B (file f) parts _ world0)) as [b|e].
  - exists b. now split.
  - destruct Hr as [Hr _]. congruence.
Qed.

(** One file: its header, its body, and the page break if it is not the
    last; or the error of a failed crop. *)
Lemma file_step_fst B len index f children w :
  fst (file_step B len index f children w)
  = if crops_resolve B f then
      resolve (children ++ headerParagraph f :: body B f
                 ++ (if index <? len - 1 then [pageBreakParagraph] else []))
    else reject InvalidColor.
Proof.
  unfold file_step, bind_try, bind, body, crops_resolve. cbv zeta.
  set (parts := split_cropRegex _).
  pose proof (for_parts_fst B (file f) parts
                {| docChildren := children ++ [headerParagraph f];
                   currentRuns := [] |} w) as H.
  destruct (for_parts B (file f) parts _ w) as [r w'].
  cbn [fst] in H. subst r.
  replace {| docChildren := children ++ [headerParagraph f];
             currentRuns := [] |}
    with (prepend (children ++ [headerParagraph f])
            {| docChildren := []; currentRuns := [] |})
    by (unfold prepend; simpl; now rewrite app_nil_r).
  rewrite for_parts_prepend.
  pose proof (for_parts_resolves B (file f) parts
                {| docChildren := []; currentRuns := [] |} world0) as Hr.
  destruct (fst (for_parts B (file f) parts _ world0)) as [b|e].
  - rewrite Hr. cbn [on_resolve fst]. rewrite flushParagraph_prepend.
    simpl. destruct (index <? len - 1); simpl;
      repeat rewrite <- app_assoc; simpl; rewrite ?app_nil_r; reflexivity.
  - destruct Hr as [Hr ->]. rewrite Hr. reflexivity.
Qed.

Lemma for_files_fst B len fs :
  forall index children w,
    index + List.length fs = len ->
    fst (for_files B len index fs children w)
    = if forallb (crops_resolve B) fs then resolve (children ++ layout B fs)
      else reject InvalidColor.
Proof.
  induction fs as [|f fs IH]; intros index children w Hlen.
  - simpl. now rewrite app_nil_r.
  - cbn [for_files forallb]. unfold bind_try, bind.
    pose proof (file_step_fst B len index f children w) as H.
    destruct (file_step B len index f children w) as [r w'].
    cbn [fst] in H. subst r.
    destruct (crops_resolve B f); [|reflexivity]. cbn [andb].
    rewrite IH by (simpl in Hlen; lia).
    destruct (forallb (crops_resolve B) fs); [|reflexivity].
    simpl layout. destruct fs as [|g fs].
    + simpl in Hlen.
      assert (E : (index <? len - 1) = false) by (apply Nat.ltb_ge; lia).
      rewrite E. simpl. now rewrite !app_nil_r.
    + simpl in Hlen.
      assert (E : (index <? len - 1) = true) by (apply Nat.ltb_lt; lia).
      rewrite E. repeat (rewrite <- app_assoc; simpl). reflexivity.
Qed.

(** The document the function builds, or the error it throws. *)
Lemma buildDocument_fst B files w :
  fst (buildDocument B files w)
  = match validFiles files with
    | [] => reject NoContent
    | _ :: _ =>
        if forallb (crops_resolve B) (validFiles files) then
          resolve {| section_children :=
                       titleParagraph :: layout B (validFiles files) |}
        else reject InvalidColor
    end.
Proof.
  unfold buildDocument.
  destruct (validFiles files) as [|f fs] eqn:E; [reflexivity|].
  simpl (List.length _ =? 0). unfold bind_try, bind.
  pose proof (@for_files_fst B (List.length (f :: fs)) (f :: fs) 0
                [titleParagraph] w eq_refl) as H.
  destruct (for_files B _ 0 (f :: fs) [titleParagraph] w) as [r w'].
  cbn [fst] in H. subst r.
  destruct (forallb (crops_resolve B) (f :: fs)); reflexivity.
Qed.

(** A property of the builder that every step keeps holds when the loop
    comes to its end. *)
Lemma for_parts_invariant (P : Builder -> Prop) B f :
  (forall part b b',
      P b -> fst (part_step B f part b world0) = resolve b' -> P b') ->
  forall parts b b' w,
    P b -> fst (for_parts B f parts b w) = resolve b' -> P b'.
Proof.
  intros Hstep parts. induction parts as [|part parts IH]; intros b b' w Hb H.
  - inversion H. now subst.
  - rewrite for_parts_cons in H.
    destruct (fst (part_step B f part b world0)) as [b1|e] eqn:E;
      [|discriminate].
    eapply IH; [|exact H]. eapply Hstep; eassumption.
Qed.

(* ===================================================================== *)
(** * Body paragraphs are neither headers nor page breaks *)
(* ===================================================================== *)

Lemma push_run_ok r b : plain r -> builder_ok b -> builder_ok (push_run r b).
Proof.
  intros Hr [Hd Hc]. split; [exact Hd|].
  apply Forall_app. split; [exact Hc | now constructor].
Qed.

Lemma flushParagraph_ok b : builder_ok b -> builder_ok (flushParagraph b).
Proof.
  intros [Hd Hc]. unfold flushParagraph.
  destruct (0 <? List.length (currentRuns b)); [|now split].
  split; [|constructor].
  apply Forall_app. split; [exact Hd|].
  constructor; [|constructor]. split; [reflexivity | exact Hc].
Qed.

Lemma line_step_ok len line i b :
  builder_ok b -> builder_ok (line_step len line i b).
Proof.
  intros Hb. unfold line_step.
  assert (H1 : builder_ok (if truthy line then push_run (lineRun line) b else b))
    by (destruct (truthy line); [now apply push_run_ok | exact Hb]).
  destruct (i <? len - 1); [now apply flushParagraph_ok | exact H1].
Qed.

Lemma text_part_ok part b : builder_ok b -> builder_ok (text_part part b).
Proof.
  unfold text_part. generalize (List.length (split_char LF part)) as len.
  generalize 0 as i. generalize (split_char LF part) as lines.
  intros lines. revert b.
  induction lines as [|line lines IH]; intros b i len Hb; simpl; [exact Hb|].
  apply IH, line_step_ok, Hb.
Qed.

Lemma part_step_ok B f part b b' w :
  builder_ok b -> fst (part_step B f part b w) = resolve b' -> builder_ok b'.
Proof.
  intros Hb. rewrite part_step_outcome. destruct (falsy part).
  - intros H. inversion H. now subst.
  - destruct (match_tag part) as [[[[g1 g2] g3] g4]|].
    + destruct (crop_result B f _ _ _ _); intros H; inversion H.
      now apply push_run_ok.
    + intros H. inversion H. now apply text_part_ok.
Qed.

Lemma body_is_body B f : Forall is_body (body B f).
Proof.
  unfold body. cbv zeta.
  destruct (fst (for_parts B (file f) _ _ world0)) as [b|e] eqn:E;
    [|constructor].
  apply flushParagraph_ok.
  eapply (@for_parts_invariant builder_ok B (file f)); [| |exact E].
  - intros part b0 b1. apply part_step_ok.
  - split; constructor.
Qed.

Lemma is_body_not_header p : is_body p -> is_header p = false.
Proof. intros [H _]. unfold is_header. now rewrite H. Qed.


Lemma filter_all_false (X : Type) (p : X -> bool) (l : list X) :
  Forall (fun x => p x = false) l -> filter p l = [].
Proof.
  induction 1 as [|x l Hx _ IH]; [reflexivity|].
  simpl. now rewrite Hx.
Qed.

Lemma body_no_header B f : filter is_header (body B f) = [].
Proof.
  apply filter_all_false.
  eapply Forall_impl; [|apply body_is_body]. apply is_body_not_header.
Qed.


Lemma layout_last B f : layout B [f] = headerParagraph f :: body B f.
Proof. simpl. now rewrite app_nil_r. Qed.

Lemma layout_more B f g fs :
  layout B (f :: g :: fs)
  = headerParagraph f :: body B f ++ pageBreakParagraph :: layout B (g :: fs).
Proof. reflexivity. Qed.

(** The headers of the document are those of the files, in their order. *)
Lemma layout_headers B fs :
  filter is_header (layout B fs) = map headerParagraph fs.
Proof.
  induction fs as [|f fs IH]; [reflexivity|].
  destruct fs as [|g fs].
  - rewrite layout_last. cbn [filter map].
    change (is_header (headerParagraph f)) with true. cbv iota.
    now rewrite body_no_header.
  - rewrite layout_more. cbn [filter].
    change (is_header (headerParagraph f)) with true. cbv iota.
    rewrite filter_app, body_no_header. cbn [app filter].
    change (is_header pageBreakParagraph) with false. cbv iota.
    rewrite IH. reflexivity.
Qed.


Lemma validFiles_all files :
  Forall (fun f => has_text f = true) files -> validFiles files = files.
Proof.
  induction 1 as [|f files Hf _ IH]; [reflexivity|].
  unfold validFiles in *. simpl. now rewrite Hf, IH.
Qed.

(* ===================================================================== *)
(** * What the function saves *)
(* ===================================================================== *)

Lemma cropImage_downloads B f ymin xmin ymax xmax w :
  downloads (snd (cropImage B f ymin xmin ymax xmax w)) = downloads w.
Proof.
  unfold cropImage, bind, createObjectURL.
  destruct (decode B f) as [img|]; [|reflexivity].
  destruct (leb _ _ || leb _ _); [reflexivity|].
  destruct (negb _); [reflexivity|].
  destruct (drawImage B f _ _ _ _); [reflexivity|].
  destruct (toBlob B f _ _ _ _); reflexivity.
Qed.

(** A computation that leaves the saved files as they are. *)
Lemma bind_try_downloads (A C : Type) (m : M (Result A))
  (k : A -> M (Result C)) :
  (forall w, downloads (snd (m w)) = downloads w) ->
  (forall a w, downloads (snd (k a w)) = downloads w) ->
  forall w, downloads (snd (bind_try m k w)) = downloads w.
Proof.
  intros Hm Hk w. unfold bind_try, bind.
  specialize (Hm w). destruct (m w) as [[a|e] w1]; cbn [snd] in *.
  - now rewrite Hk.
  - exact Hm.
Qed.

Lemma part_step_downloads B f part b w :
  downloads (snd (part_step B f part b w)) = downloads w.
Proof.
  unfold part_step. destruct (falsy part); [reflexivity|].
  destruct (match_tag part) as [[[[g1 g2] g3] g4]|]; [|reflexivity].
  unfold crop_part, bind.
  pose proof (cropImage_downloads B f (parseInt g1) (parseInt g2)
                (parseInt g3) (parseInt g4) w) as H.
  destruct (cropImage B f _ _ _ _ w) as [[buffer|e] w']; exact H.
Qed.

Lemma for_parts_downloads B f parts :
  forall b w, downloads (snd (for_parts B f parts b w)) = downloads w.
Proof.
  induction parts as [|part parts IH]; intros b w; [reflexivity|].
  cbn [for_parts]. apply bind_try_downloads.
  - intros w0. apply part_step_downloads.
  - intros b' w0. apply IH.
Qed.

Lemma file_step_downloads B len index f children w :
  downloads (snd (file_step B len index f children w)) = downloads w.
Proof.
  unfold file_step. cbv zeta. apply bind_try_downloads.
  - intros w0. apply for_parts_downloads.
  - reflexivity.
Qed.

Lemma for_files_downloads B len fs :
  forall index children w,
    downloads (snd (for_files B len index fs children w)) = downloads w.
Proof.
  induction fs as [|f fs IH]; intros index children w; [reflexivity|].
  cbn [for_files]. apply bind_try_downloads.
  - intros w0. apply file_step_downloads.
  - intros c w0. apply IH.
Qed.

Lemma buildDocument_downloads B files w :
  downloads (snd (buildDocument B files w)) = downloads w.
Proof.
  unfold buildDocument.
  destruct (List.length (validFiles files) =? 0); [reflexivity|].
  apply bind_try_downloads.
  - intros w0. apply for_files_downloads.
  - reflexivity.
Qed.

(** The whole function: it rejects and saves nothing, or resolves after
    saving the document under the fixed file name. *)
Lemma generateAndDownloadDocx_spec B files w :
  match fst (buildDocument B files w) with
  | reject e =>
      fst (generateAndDownloadDocx B files w) = reject e
      /\ downloads (snd (generateAndDownloadDocx B files w)) = downloads w
  | resolve doc =>
      fst (generateAndDownloadDocx B files w) = resolve tt
      /\ downloads (snd (generateAndDownloadDocx B files w))
         = downloads w ++ [(lit "SnapScript_Extracted.docx", doc)]
  end.
Proof.
  unfold generateAndDownloadDocx, bind.
  pose proof (buildDocument_downloads B files w) as H.
  destruct (buildDocument B files w) as [[doc|e] w'];
    simpl in *; rewrite H; split; reflexivity.
Qed.

(* ===================================================================== *)
(** * Which files go into the document *)
(* ===================================================================== *)

Lemma buildDocument_rejects_iff B files w :
  fst (buildDocument B files w) = reject NoContent <-> validFiles files = [].
Proof.
  rewrite buildDocument_fst.
  destruct (validFiles files) as [|f fs]; [split; reflexivity|].
  destruct (forallb (crops_resolve B) (f :: fs)); split; discriminate.
Qed.

(** C5, as stated, fails: the claim has the function fail exactly on the
    empty input and build a document for every non-empty one. An input
    holding one file without text is not empty, and the function rejects
    it with "No text available to download.": the files are filtered on
    their text before the emptiness test. *)
Lemma C5_counterexample :
  [uploaded "a.png" COMPLETED None] <> []
  /\ fst (buildDocument okBrowser [uploaded "a.png" COMPLETED None] world0)
     = reject NoContent
  /\ ~ (forall B files w,
          fst (buildDocument B files w) = reject NoContent <-> files = []).
Proof.
  split; [discriminate|]. split; [reflexivity|].
  intros H.
  specialize (H okBrowser [uploaded "a.png" COMPLETED None] world0).
  destruct H as [H _]. specialize (H eq_refl). discriminate.
Qed.

(** C5, amended. The function fails, rejecting with "No text available to
    download." and saving no document, exactly when no file of its input
    has a non-empty extracted text: the empty input is one such case, and
    on an input whose files all have text it is the only one. For every
    input with at least one such file, when the crops of the tags in the
    texts resolve, a document is built, and saved under the name
    "SnapScript_Extracted.docx". *)
Theorem C5_no_content_iff_no_file_with_text
  (B : Browser) (files : list UploadedFile) (w : World) :
  (fst (buildDocument B files w) = reject NoContent <-> validFiles files = [])
  /\ (files = [] -> fst (buildDocument B files w) = reject NoContent)
  /\ (Forall (fun f => has_text f = true) files ->
      (fst (buildDocument B files w) = reject NoContent <-> files = []))
  /\ (validFiles files = [] ->
      fst (generateAndDownloadDocx B files w) = reject NoContent
      /\ downloads (snd (generateAndDownloadDocx B files w)) = downloads w)
  /\ (validFiles files <> [] ->
      forallb (crops_resolve B) (validFiles files) = true ->
      exists doc,
        fst (buildDocument B files w) = resolve doc
        /\ fst (generateAndDownloadDocx B files w) = resolve tt
        /\ downloads (snd (generateAndDownloadDocx B files w))
           = downloads w ++ [(lit "SnapScript_Extracted.docx", doc)]).
Proof.
  pose proof (generateAndDownloadDocx_spec B files w) as Hg.
  pose proof (buildDocument_rejects_iff B files w) as Hiff.
  split; [exact Hiff|].
  split; [intros ->; now apply Hiff|].
  split; [intros Hall; now rewrite Hiff, (validFiles_all Hall)|].
  rewrite buildDocument_fst in *. split.
  - intros Hv. rewrite Hv in Hg. exact Hg.
  - intros Hne Hcrops. destruct (validFiles files) as [|f fs]; [congruence|].
    rewrite Hcrops in *. eexists. split; [reflexivity | exact Hg].
Qed.

Lemma C5_no_content_iff_no_file_with_text_witness :
  (exists doc,
      fst (buildDocument okBrowser
             [uploaded "x.png" COMPLETED (Some (lit "Hello"))] world0)
      = resolve doc)
  /\ fst (generateAndDownloadDocx okBrowser
            [uploaded "a.png" COMPLETED None] world0)
     = reject NoContent.
Proof.
  split.
  - destruct (@C5_no_content_iff_no_file_with_text okBrowser
                [uploaded "x.png" COMPLETED (Some (lit "Hello"))] world0)
      as (_ & _ & _ & _ & H).
    destruct H as (doc & H & _); [discriminate | reflexivity |].
    exists doc. exact H.
  - destruct (@C5_no_content_iff_no_file_with_text okBrowser
                [uploaded "a.png" COMPLETED None] world0)
      as (_ & _ & _ & H & _).
    apply H. reflexivity.
Defined.

Lemma has_text_with_status st f : has_text (with_status st f) = has_text f.
Proof. reflexivity. Qed.

Lemma validFiles_with_status st files :
  validFiles (map (with_status st) files)
  = map (with_status st) (validFiles files).
Proof.
  unfold validFiles. induction files as [|f files IH]; [reflexivity|].
  simpl. rewrite has_text_with_status.
  destruct (has_text f); simpl; now rewrite IH.
Qed.

Lemma for_files_with_status B st len fs :
  forall index children w,
    for_files B len index (map (with_status st) fs) children w
    = for_files B len index fs children w.
Proof.
  induction fs as [|f fs IH]; intros index children w; [reflexivity|].
  simpl. unfold bind_try, bind.
  change (file_step B len index (with_status st f) children w)
    with (file_step B len index f children w).
  destruct (file_step B len index f children w) as [[children'|e] w'];
    [apply IH | reflexivity].
Qed.

(** C10. A file is eligible exactly when its extracted text is a non-empty
    string; the status is never read. The headers of the document are those
    of the input files that have text, in input order, and replacing the
    statuses of the files in any way changes neither the result nor the
    effects of the function. *)
Theorem C10_eligibility_by_text_only
  (B : Browser) (files : list UploadedFile) (w : World) :
  validFiles files
  = filter (fun f => match extractedText f with
                     | Some (_ :: _) => true
                     | _ => false
                     end) files
  /\ (forall doc,
        fst (buildDocument B files w) = resolve doc ->
        filter is_header (section_children doc)
        = map headerParagraph (validFiles files))
  /\ (forall st : UploadedFile -> ProcessingStatus,
        generateAndDownloadDocx B (map (with_status st) files) w
        = generateAndDownloadDocx B files w).
Proof.
  repeat split.
  - unfold validFiles. apply filter_ext. intros f. unfold has_text.
    destruct (extractedText f) as [[|c t]|]; reflexivity.
  - intros doc H. rewrite buildDocument_fst in H.
    destruct (validFiles files) as [|f fs] eqn:E; [discriminate|].
    destruct (forallb (crops_resolve B) (f :: fs)); [|discriminate].
    assert (Hd : doc = {| section_children :=
                            titleParagraph :: layout B (f :: fs) |})
      by congruence.
    rewrite Hd. exact (layout_headers B (f :: fs)).
  - intros st. unfold generateAndDownloadDocx, buildDocument, bind_try, bind.
    rewrite validFiles_with_status, length_map.
    destruct (List.length (validFiles files) =? 0); [reflexivity|].
    rewrite for_files_with_status. reflexivity.
Qed.

Lemma C10_eligibility_by_text_only_witness :
  validFiles
    [uploaded "a.png" ERROR (Some (lit "Hi"));
     uploaded "b.png" COMPLETED (Some []);
     uploaded "c.png" COMPLETED None;
     uploaded "d.png" IDLE (Some (lit "Yo"))]
  = [uploaded "a.png" ERROR (Some (lit "Hi"));
     uploaded "d.png" IDLE (Some (lit "Yo"))].
Proof.
  rewrite (proj1 (@C10_eligibility_by_text_only okBrowser _ world0)).
  reflexivity.
Defined.

(* ===================================================================== *)
(** * One part of the text *)
(* ===================================================================== *)

Lemma tag_truthy a b c d : falsy (tag a b c d) = false.
Proof. reflexivity. Qed.

Lemma part_step_tag B f a b c d bld :
  digits a -> digits b -> digits c -> digits d ->
  part_step B f (tag a b c d) bld = crop_part B f a b c d bld.
Proof.
  intros Ha Hb Hc Hd. unfold part_step.
  rewrite tag_truthy, match_tag_tag by assumption. reflexivity.
Qed.

Lemma part_step_text B f part bld w :
  falsy part = false -> match_tag part = None ->
  fst (part_step B f part bld w) = resolve (text_part part bld).
Proof. intros H1 H2. unfold part_step. now rewrite H1, H2. Qed.

Lemma lit_digits_0 : digits (lit "0").
Proof. split; [discriminate | repeat constructor]. Qed.



Lemma lit_digits_500 : digits (lit "500").
Proof. split; [discriminate | repeat constructor]. Qed.

Lemma lit_digits_2000 : digits (lit "2000").
Proof. split; [discriminate | repeat constructor]. Qed.

Lemma lit_digits_3000 : digits (lit "3000").
Proof. split; [discriminate | repeat constructor]. Qed.

Lemma cropImage_console B f ymin xmin ymax xmax w :
  console (snd (cropImage B f ymin xmin ymax xmax w)) = console w.
Proof.
  unfold cropImage, bind, createObjectURL.
  destruct (decode B f) as [img|]; [|reflexivity].
  destruct (leb _ _ || leb _ _); [reflexivity|].
  destruct (negb _); [reflexivity|].
  destruct (drawImage B f _ _ _ _); [reflexivity|].
  destruct (toBlob B f _ _ _ _); reflexivity.
Qed.

(** A tag whose crop rejects is a part that does not resolve. *)
Lemma part_resolves_tag_reject B f a b c d e :
  digits a -> digits b -> digits c -> digits d ->
  crop_result B f (parseInt a) (parseInt b) (parseInt c) (parseInt d)
  = reject e ->
  part_resolves B f (tag a b c d) = false.
Proof.
  intros Ha Hb Hc Hd H. unfold part_resolves.
  now rewrite match_tag_tag, H by assumption.
Qed.

Lemma part_resolves_tag_resolve B f a b c d buffer :
  digits a -> digits b -> digits c -> digits d ->
  crop_result B f (parseInt a) (parseInt b) (parseInt c) (parseInt d)
  = resolve buffer ->
  part_resolves B f (tag a b c d) = true.
Proof.
  intros Ha Hb Hc Hd H. unfold part_resolves.
  now rewrite match_tag_tag, H by assumption.
Qed.

Lemma forallb_false_In (X : Type) (p : X -> bool) (l : list X) (x : X) :
  In x l -> p x = false -> forallb p l = false.
Proof.
  intros Hin Hx. destruct (forallb p l) eqn:E; [|reflexivity].
  rewrite forallb_forall in E. rewrite (E x Hin) in Hx. discriminate.
Qed.


(** A file whose text holds a tag whose crop rejects stops the builder. *)
Lemma buildDocument_failed_crop B u a b c d pre post e files w :
  digits a -> digits b -> digits c -> digits d ->
  crop_result B (file u) (parseInt a) (parseInt b) (parseInt c) (parseInt d)
  = reject e ->
  extractedText u = Some (pre ++ tag a b c d ++ post) ->
  In u files ->
  fst (buildDocument B files w) = reject InvalidColor.
Proof.
  intros Ha Hb Hc Hd Hcrop Ht Hin.
  assert (Hu : crops_resolve B u = false).
  { unfold crops_resolve. rewrite Ht.
    apply forallb_false_In with (x := tag a b c d).
    - unfold split_cropRegex.
      rewrite (@split_loop_around_tag a b c d post Ha Hb Hc Hd pre []).
      apply in_or_app. right. now left.
    - eapply part_resolves_tag_reject; eassumption. }
  assert (Hv : In u (validFiles files)).
  { unfold validFiles. apply filter_In. split; [exact Hin|].
    unfold has_text. rewrite Ht.
    destruct pre; reflexivity. }
  rewrite buildDocument_fst.
  destruct (validFiles files) as [|f fs]; [destruct Hv|].
  now rewrite (@forallb_false_In _ (crops_resolve B) (f :: fs) u Hv Hu).
Qed.

(** C4. The code does not do what the claim says. When the crop of a
    marker fails, for whatever reason, the [catch] block logs the error
    and then constructs the placeholder run with the colour "red", which
    the docx library refuses: the constructor throws, the error leaves the
    loops, and the function rejects with it. No "[MISSING IMAGE]" run is
    appended, the remaining parts and files are not processed, and for any
    input holding a file with such a marker no document is built or
    saved. *)
Theorem C4_failed_crop_rejects_the_document
  (B : Browser) (f : File) (g1 g2 g3 g4 : str) (b : Builder) (w : World)
  (e : Error) :
  digits g1 -> digits g2 -> digits g3 -> digits g4 ->
  fst (cropImage B f (parseInt g1) (parseInt g2) (parseInt g3) (parseInt g4) w)
  = reject e ->
  fst (part_step B f (tag g1 g2 g3 g4) b w) = reject InvalidColor
  /\ console (snd (part_step B f (tag g1 g2 g3 g4) b w)) = console w ++ [e]
  /\ (forall rest,
        fst (for_parts B f (tag g1 g2 g3 g4 :: rest) b w)
        = reject InvalidColor)
  /\ (forall u pre post files w',
        file u = f ->
        extractedText u = Some (pre ++ tag g1 g2 g3 g4 ++ post) ->
        In u files ->
        fst (generateAndDownloadDocx B files w') = reject InvalidColor
        /\ downloads (snd (generateAndDownloadDocx B files w'))
           = downloads w').
Proof.
  intros H1 H2 H3 H4 Hcrop.
  assert (Hres : crop_result B f (parseInt g1) (parseInt g2) (parseInt g3)
                   (parseInt g4) = reject e)
    by (unfold crop_result; now rewrite cropImage_fst in Hcrop |- *).
  assert (Hstep : fst (part_step B f (tag g1 g2 g3 g4) b w)
                  = reject InvalidColor).
  { rewrite part_step_tag, crop_part_fst, Hres by assumption. reflexivity. }
  split; [exact Hstep|]. split; [|split].
  - rewrite part_step_tag by assumption. unfold crop_part, bind.
    pose proof (cropImage_console B f (parseInt g1) (parseInt g2)
                  (parseInt g3) (parseInt g4) w) as Hc.
    destruct (cropImage B f _ _ _ _ w) as [r w1].
    cbn [fst snd] in Hcrop, Hc. subst r. simpl. now rewrite Hc.
  - intros rest. rewrite for_parts_cons, <- (part_step_fst B f _ b w).
    now rewrite Hstep.
  - intros u pre post files w' Hf Ht Hin. subst f.
    pose proof (generateAndDownloadDocx_spec B files w') as Hg.
    rewrite (@buildDocument_failed_crop B u g1 g2 g3 g4 pre post e files w'
               H1 H2 H3 H4 Hres Ht Hin) in Hg.
    exact Hg.
Qed.

Lemma C4_failed_crop_rejects_the_document_witness :
  fst (generateAndDownloadDocx okBrowser
         [uploaded "y.png" COMPLETED (Some (lit "A[[CROP:0,0,0,0]]B"))]
         world0)
  = reject InvalidColor
  /\ downloads
       (snd (generateAndDownloadDocx okBrowser
               [uploaded "y.png" COMPLETED (Some (lit "A[[CROP:0,0,0,0]]B"))]
               world0))
     = [].
Proof.
  destruct (@C4_failed_crop_rejects_the_document okBrowser (png "y.png")
              (lit "0") (lit "0") (lit "0") (lit "0")
              {| docChildren := []; currentRuns := [] |} world0
              (mkError (lit "Invalid crop dimensions"))
              lit_digits_0 lit_digits_0 lit_digits_0 lit_digits_0)
    as (_ & _ & _ & H).
  - vm_compute. reflexivity.
  - apply (H (uploaded "y.png" COMPLETED (Some (lit "A[[CROP:0,0,0,0]]B")))
             (lit "A") (lit "B")).
    + reflexivity.
    + reflexivity.
    + now left.
Defined.

(* ===================================================================== *)
(** * Whole documents *)
(* ===================================================================== *)

(** The body of a file, from the outcome of the loop over its parts. *)
Lemma body_of_parts B f t b :
  extractedText f = Some t ->
  fst (for_parts B (file f) (split_cropRegex t)
         {| docChildren := []; currentRuns := [] |} world0)
  = resolve b ->
  body B f = docChildren (flushParagraph b) /\ crops_resolve B f = true.
Proof.
  intros Ht H. unfold body, crops_resolve. rewrite Ht. cbv zeta.
  pose proof (for_parts_resolves B (file f) (split_cropRegex t)
                {| docChildren := []; currentRuns := [] |} world0) as Hr.
  rewrite H in *. now split.
Qed.

Lemma part_step_tag_resolve B f a b c d bld w buffer :
  digits a -> digits b -> digits c -> digits d ->
  crop_result B f (parseInt a) (parseInt b) (parseInt c) (parseInt d)
  = resolve buffer ->
  fst (part_step B f (tag a b c d) bld w)
  = resolve (push_run (imageRun buffer (parseInt a) (parseInt b) (parseInt c)
                         (parseInt d)) bld).
Proof.
  intros Ha Hb Hc Hd H.
  rewrite part_step_tag, crop_part_fst, H by assumption. reflexivity.
Qed.









(* ===================================================================== *)
(** * Tags are not range-checked *)
(* ===================================================================== *)

(** The document of a single file whose text is one tag. *)
Lemma buildDocument_one_tag B u a b c d w :
  digits a -> digits b -> digits c -> digits d ->
  extractedText u = Some (tag a b c d) ->
  fst (buildDocument B [u] w)
  = match crop_result B (file u) (parseInt a) (parseInt b) (parseInt c)
            (parseInt d) with
    | resolve imageBuffer =>
        resolve
          {| section_children :=
               [ titleParagraph;
                 headerParagraph u;
                 bodyParagraph
                   [imageRun imageBuffer (parseInt a) (parseInt b)
                      (parseInt c) (parseInt d)] ] |}
    | reject _ => reject InvalidColor
    end.
Proof.
  intros Ha Hb Hc Hd Ht.
  assert (Hsplit : split_cropRegex (tag a b c d) = [[]; tag a b c d; []]).
  { unfold split_cropRegex.
    pose proof (@split_loop_around_tag a b c d [] Ha Hb Hc Hd [] []) as H.
    rewrite app_nil_r in H. exact H. }
  assert (Hv : validFiles [u] = [u]).
  { unfold validFiles. simpl. unfold has_text. rewrite Ht. reflexivity. }
  rewrite buildDocument_fst, Hv. cbn [forallb].
  destruct (crop_result B (file u) (parseInt a) (parseInt b) (parseInt c)
              (parseInt d)) as [imageBuffer|e] eqn:Hcrop.
  - assert (Hparts : fst (for_parts B (file u) (split_cropRegex (tag a b c d))
                            {| docChildren := []; currentRuns := [] |} world0)
                     = resolve
                         {| docChildren := [];
                            currentRuns :=
                              [imageRun imageBuffer (parseInt a) (parseInt b)
                                 (parseInt c) (parseInt d)] |}).
    { rewrite Hsplit, for_parts_cons.
      change (fst (part_step B (file u) []
                     {| docChildren := []; currentRuns := [] |} world0))
        with (resolve {| docChildren := []; currentRuns := [] |}).
      cbv iota. rewrite for_parts_cons.
      rewrite (@part_step_tag_resolve B (file u) a b c d _ world0
                 imageBuffer Ha Hb Hc Hd Hcrop).
      reflexivity. }
    destruct (body_of_parts B u Ht Hparts) as [Hbody Hres].
    rewrite Hres. cbn [andb]. rewrite layout_last, Hbody. reflexivity.
  - assert (Hres : crops_resolve B u = false).
    { unfold crops_resolve. rewrite Ht, Hsplit. cbn [forallb].
      rewrite (@part_resolves_tag_reject B (file u) a b c d e Ha Hb Hc Hd
                 Hcrop).
      reflexivity. }
    now rewrite Hres.
Qed.

(** C9. Every substring of the form [[CROP:a,b,c,d]], with a, b, c, d any
    non-empty runs of decimal digits (of any length, of any value), is one
    part of the split wherever it stands in the text, and the loop treats
    that part as a crop tag: it is classified as a crop segment with the
    four parsed values, and processing it calls [cropImage] with exactly
    these values and builds the image run from them and from what the crop
    resolves with. Nothing compares them with 1000: for a text that is such
    a tag, the document holds the image the crop gives for the parsed
    values whenever that crop resolves, and the crop computes its rectangle
    from them as they are and hands it to the canvas. *)
Theorem C9_tags_of_any_value_are_crops (a b c d : str) :
  digits a -> digits b -> digits c -> digits d ->
  (forall pre post,
      split_cropRegex (pre ++ tag a b c d ++ post)
      = split_cropRegex pre ++ tag a b c d :: split_cropRegex post)
  /\ classify (tag a b c d)
     = CropSegment (parseInt a) (parseInt b) (parseInt c) (parseInt d)
         (tag a b c d)
  /\ parseInt a = of_Z (decimal a) /\ parseInt b = of_Z (decimal b)
  /\ parseInt c = of_Z (decimal c) /\ parseInt d = of_Z (decimal d)
  /\ (forall B f bld w,
        part_step B f (tag a b c d) bld w
        = (r <- cropImage B f (parseInt a) (parseInt b) (parseInt c)
                  (parseInt d) ;;
           match r with
           | resolve imageBuffer =>
               ret (resolve
                      (push_run
                         (ImageRun
                            {| data := imageBuffer;
                               transformation :=
                                 {| width :=
                                      Math_max (of_Z 20)
                                        (displayWidth (parseInt b)
                                           (parseInt d));
                                    height :=
                                      Math_max (of_Z 20)
                                        (displayHeight (parseInt a)
                                           (parseInt c)) |};
                               type := lit "png" |})
                         bld))
           | reject err => console_error err ;;; ret (reject InvalidColor)
           end) w)
  /\ (forall B u w imageBuffer,
        extractedText u = Some (tag a b c d) ->
        fst (cropImage B (file u) (parseInt a) (parseInt b) (parseInt c)
               (parseInt d) world0)
        = resolve imageBuffer ->
        fst (buildDocument B [u] w)
        = resolve
            {| section_children :=
                 [ titleParagraph;
                   headerParagraph u;
                   bodyParagraph
                     [imageRun imageBuffer (parseInt a) (parseInt b)
                        (parseInt c) (parseInt d)] ] |})
  /\ (forall B f img w,
        decode B f = Some img ->
        let realX := mul (div (parseInt b) (of_Z 1000)) (img_width img) in
        let realY := mul (div (parseInt a) (of_Z 1000)) (img_height img) in
        let realW :=
          mul (div (sub (parseInt d) (parseInt b)) (of_Z 1000))
            (img_width img) in
        let realH :=
          mul (div (sub (parseInt c) (parseInt a)) (of_Z 1000))
            (img_height img) in
        leb realW (of_Z 0) || leb realH (of_Z 0) = false ->
        getContext2d B realW realH = true ->
        drawImage B f realX realY realW realH = None ->
        fst (cropImage B f (parseInt a) (parseInt b) (parseInt c)
               (parseInt d) w)
        = match toBlob B f realX realY realW realH with
          | Some buffer => resolve buffer
          | None => reject (mkError (lit "Crop failed"))
          end).
Proof.
  intros Ha Hb Hc Hd.
  split; [|split; [|split; [|split; [|split; [|split; [|split; [|split]]]]]]];
    try reflexivity.
  - intros pre post. unfold split_cropRegex.
    now apply split_loop_around_tag.
  - unfold classify. now rewrite match_tag_tag.
  - intros B f bld w. rewrite part_step_tag by assumption.
    unfold crop_part, bind.
    destruct (cropImage B f _ _ _ _ w) as [[buffer|e] w']; reflexivity.
  - intros B u w imageBuffer Ht Hcrop.
    rewrite (@buildDocument_one_tag B u a b c d w Ha Hb Hc Hd Ht).
    unfold crop_result. now rewrite Hcrop.
  - intros B f img w Hdec realX realY realW realH Hpos Hctx Hdraw.
    unfold cropImage, bind, createObjectURL. rewrite Hdec.
    fold realX realY realW realH. rewrite Hpos, Hctx, Hdraw. simpl negb.
    cbv iota. destruct (toBlob B f realX realY realW realH); reflexivity.
Qed.

Lemma C9_tags_of_any_value_are_crops_witness :
  split_cropRegex (lit "see [[CROP:0,0,2000,3000]] above")
  = [ lit "see ";
      tag (lit "0") (lit "0") (lit "2000") (lit "3000");
      lit " above" ]
  /\ fst (cropImage rect3000x2000Browser (png "a.png")
            (parseInt (lit "0")) (parseInt (lit "0"))
            (parseInt (lit "2000")) (parseInt (lit "3000")) world0)
     = resolve [137%N]
  /\ fst (buildDocument rect3000x2000Browser
            [uploaded "a.png" COMPLETED (Some (lit "[[CROP:0,0,2000,3000]]"))]
            world0)
     = resolve
         {| section_children :=
              [ titleParagraph;
                headerParagraph
                  (uploaded "a.png" COMPLETED
                     (Some (lit "[[CROP:0,0,2000,3000]]")));
                bodyParagraph
                  [ImageRun
                     {| data := [137%N];
                        transformation :=
                          {| width := of_Z 1500; height := of_Z 1414 |};
                        type := lit "png" |}] ] |}.
Proof.
  destruct (@C9_tags_of_any_value_are_crops
              (lit "0") (lit "0") (lit "2000") (lit "3000")
              lit_digits_0 lit_digits_0 lit_digits_2000 lit_digits_3000)
    as (Hsplit & _ & _ & _ & _ & _ & _ & Hdoc & Hcrop).
  assert (Hc : fst (cropImage rect3000x2000Browser (png "a.png")
                      (parseInt (lit "0")) (parseInt (lit "0"))
                      (parseInt (lit "2000")) (parseInt (lit "3000")) world0)
               = resolve [137%N]).
  { rewrite (Hcrop rect3000x2000Browser (png "a.png")
               {| img_width := of_Z 1000; img_height := of_Z 1000 |} world0);
      vm_compute; reflexivity. }
  split; [|split; [exact Hc|]].
  - change (lit "see [[CROP:0,0,2000,3000]] above")
      with (lit "see " ++ tag (lit "0") (lit "0") (lit "2000") (lit "3000")
              ++ lit " above").
    rewrite Hsplit. vm_compute. reflexivity.
  - rewrite (Hdoc rect3000x2000Browser
               (uploaded "a.png" COMPLETED
                  (Some (lit "[[CROP:0,0,2000,3000]]")))
               world0 [137%N] eq_refl Hc).
    vm_compute. reflexivity.
Defined.

(* ===================================================================== *)
(** * Further properties of the document builder *)
(* ===================================================================== *)

Lemma cropRegex_at_nil : cropRegex_at [] = None.
Proof. reflexivity. Qed.

Lemma cropRegex_at_prefix_None s y :
  cropRegex_at (s ++ y) = None -> cropRegex_at s = None.
Proof.
  intros H. destruct (cropRegex_at s) as [rest|] eqn:E; [|reflexivity].
  rewrite (@cropRegex_at_app s rest y E) in H. discriminate.
Qed.

Lemma tag_free_tail c s : tag_free (c :: s) -> tag_free s.
Proof. intros H pre suf ->. apply (H (c :: pre) suf). reflexivity. Qed.

Lemma split_loop_tag_free s :
  tag_free s -> forall pending, split_loop pending s = [pending ++ s].
Proof.
  induction s as [|c s IH]; intros H pending.
  - now rewrite split_loop_nil, app_nil_r.
  - rewrite split_loop_skip by (apply (H [] (c :: s)); reflexivity).
    rewrite IH by (eapply tag_free_tail; eassumption).
    now rewrite <- app_assoc.
Qed.

Lemma match_tag_cropRegex_at part g :
  match_tag part = Some g -> cropRegex_at part = Some [].
Proof.
  destruct g as [[[a b] c] d]. intros H.
  apply match_tag_Some in H. destruct H as (-> & Ha & Hb & Hc & Hd).
  rewrite <- (app_nil_r (tag a b c d)). now apply cropRegex_at_tag.
Qed.

Lemma tag_free_not_tag t : tag_free t -> match_tag t = None.
Proof.
  intros H. destruct (match_tag t) as [g|] eqn:E; [|reflexivity].
  apply match_tag_cropRegex_at in E.
  rewrite (H [] t eq_refl) in E. discriminate.
Qed.

Lemma no_bracket_tag_free s : ~ In bracket s -> tag_free s.
Proof.
  intros Hs pre suf ->.
  destruct (cropRegex_at suf) as [rest|] eqn:E; [exfalso|reflexivity].
  apply cropRegex_at_Some in E.
  destruct E as (a & b & c & d & Ha & Hb & Hc & Hd & ->).
  destruct (tag_brackets Ha Hb Hc Hd) as (body & HT & _).
  apply Hs. apply in_or_app. right. rewrite HT. left. reflexivity.
Qed.

Lemma split_loop_nonempty s :
  forall pending, 1 <= List.length (split_loop pending s).
Proof.
  pattern s. apply split_loop_ind; clear s;
    [ | intros c s a b c' d rest Ha Hb Hc Hd Hs E IH | intros c s E IH ];
    intros pending.
  - rewrite split_loop_nil. simpl. lia.
  - rewrite Hs, split_loop_match_tag by assumption. simpl. lia.
  - rewrite split_loop_skip by exact E. apply IH.
Qed.

(** X1. A text in which no tag starts is not split: the split gives the
    text itself as its only part, and this happens for no other text. A text
    without an opening bracket is such a text. The parser then sees one
    text segment, and none when the text is empty. *)
Theorem X1_split_without_tag (s : str) :
  (split_cropRegex s = [s] <-> tag_free s)
  /\ (~ In bracket s -> split_cropRegex s = [s])
  /\ (tag_free s ->
      parse s = match s with [] => [] | _ :: _ => [TextSegment s] end).
Proof.
  assert (Hfree : tag_free s -> split_cropRegex s = [s])
    by (intros H; apply (split_loop_tag_free H [])).
  split; [split; [|exact Hfree]|split].
  - intros Hsplit pre suf ->.
    destruct (cropRegex_at suf) as [rest|] eqn:E; [exfalso|reflexivity].
    apply cropRegex_at_Some in E.
    destruct E as (a & b & c & d & Ha & Hb & Hc & Hd & ->).
    unfold split_cropRegex in Hsplit.
    rewrite (@split_loop_around_tag a b c d rest Ha Hb Hc Hd pre []) in Hsplit.
    apply (f_equal (@List.length str)) in Hsplit.
    rewrite length_app in Hsplit. simpl in Hsplit.
    pose proof (split_loop_nonempty pre []). lia.
  - intros H. apply Hfree, no_bracket_tag_free, H.
  - intros H. unfold parse. rewrite (Hfree H).
    destruct s as [|c s]; [reflexivity|].
    simpl. unfold classify. now rewrite (tag_free_not_tag H).
Qed.

Lemma split_loop_shape s :
  forall pending,
    (forall pre suf, pending = pre ++ suf -> suf <> [] ->
                     cropRegex_at (suf ++ s) = None) ->
    parts_shape (split_loop pending s).
Proof.
  pattern s. apply split_loop_ind; clear s;
    [ | intros c s a b c' d rest Ha Hb Hc Hd Hs E IH | intros c s E IH ];
    intros pending Hp.
  - rewrite split_loop_nil. constructor.
    intros pre suf ->. destruct suf as [|x suf]; [reflexivity|].
    rewrite <- (app_nil_r (x :: suf)). apply (Hp pre); [reflexivity|discriminate].
  - rewrite Hs, split_loop_match_tag by assumption.
    constructor; try assumption.
    + intros pre suf ->. destruct suf as [|x suf]; [reflexivity|].
      apply cropRegex_at_prefix_None with (y := c :: s).
      apply (Hp pre); [reflexivity|discriminate].
    + apply IH. intros pre suf Hnil Hne.
      symmetry in Hnil. apply app_eq_nil in Hnil. tauto.
  - rewrite split_loop_skip by exact E. apply IH.
    intros pre suf Hsplit Hne.
    destruct (exists_last Hne) as (suf' & x & ->).
    rewrite app_assoc in Hsplit. apply app_inj_tail in Hsplit.
    destruct Hsplit as [-> <-].
    rewrite <- app_assoc. simpl.
    destruct suf' as [|y suf']; [exact E|].
    apply (Hp pre); [reflexivity|discriminate].
Qed.

Lemma is_tag_part_tag_free t : tag_free t -> is_tag_part t = false.
Proof. intros H. unfold is_tag_part. now rewrite (tag_free_not_tag H). Qed.

Lemma is_tag_part_tag a b c d :
  digits a -> digits b -> digits c -> digits d ->
  is_tag_part (tag a b c d) = true.
Proof. intros. unfold is_tag_part. now rewrite match_tag_tag. Qed.

Lemma parts_shape_classify parts :
  parts_shape parts ->
  List.length (filter is_tag_part parts) * 2 + 1 = List.length parts.
Proof.
  induction 1 as [t Ht | t a b c d rest Ht Ha Hb Hc Hd _ IH].
  - cbn [filter]. now rewrite (is_tag_part_tag_free Ht).
  - cbn [filter].
    rewrite (is_tag_part_tag_free Ht), is_tag_part_tag by assumption.
    cbn [List.length]. lia.
Qed.

(** X2. The parts of a split alternate: text, tag, text, ..., tag, text.
    No text part holds a tag (it may be empty), every other part is a tag of
    four digit groups; so the parts are one more than twice the tags. *)
Theorem X2_split_alternates (s : str) :
  parts_shape (split_cropRegex s)
  /\ List.length (filter is_tag_part (split_cropRegex s)) * 2 + 1
     = List.length (split_cropRegex s).
Proof.
  assert (H : parts_shape (split_cropRegex s)).
  { apply split_loop_shape. intros pre suf Hnil Hne.
    symmetry in Hnil. apply app_eq_nil in Hnil. tauto. }
  split; [exact H | now apply parts_shape_classify].
Qed.


(** ** [split] on a separator *)

Lemma split_on_nonempty sep s : forall cur, split_on sep cur s <> [].
Proof.
  induction s as [|c s IH]; intros cur; simpl; [discriminate|].
  destruct (N.eqb c sep); [discriminate | apply IH].
Qed.

Lemma split_on_join sep s :
  forall cur, join sep (split_on sep cur s) = cur ++ s.
Proof.
  induction s as [|c s IH]; intros cur; simpl.
  - reflexivity.
  - destruct (N.eqb_spec c sep) as [->|Hne].
    + specialize (IH []). pose proof (split_on_nonempty sep s []) as Hne.
      destruct (split_on sep [] s) as [|p ps]; [congruence|].
      simpl in *. now rewrite IH.
    + rewrite IH, <- app_assoc. reflexivity.
Qed.

Lemma split_on_no_sep sep s :
  forall cur, ~ In sep cur ->
              Forall (fun p => ~ In sep p) (split_on sep cur s).
Proof.
  induction s as [|c s IH]; intros cur Hcur; simpl.
  - constructor; [exact Hcur | constructor].
  - destruct (N.eqb_spec c sep) as [->|Hne].
    + constructor; [exact Hcur|]. apply IH. intros [].
    + apply IH. intros Hin. apply in_app_or in Hin.
      destruct Hin as [Hin | [Hin | []]]; [now apply Hcur | congruence].
Qed.

Lemma split_on_length sep s :
  forall cur,
    List.length (split_on sep cur s) = S (count_occ N.eq_dec s sep).
Proof.
  induction s as [|c s IH]; intros cur; simpl; [reflexivity|].
  destruct (N.eqb_spec c sep) as [->|Hne].
  - destruct (N.eq_dec sep sep); [|congruence]. simpl. now rewrite IH.
  - destruct (N.eq_dec c sep); [congruence|]. apply IH.
Qed.

Lemma split_on_absent sep s :
  ~ In sep s -> forall cur, split_on sep cur s = [cur ++ s].
Proof.
  induction s as [|c s IH]; intros Hs cur; simpl.
  - now rewrite app_nil_r.
  - destruct (N.eqb_spec c sep) as [->|Hne].
    + exfalso. apply Hs. now left.
    + rewrite IH by (intros Hin; apply Hs; now right).
      now rewrite <- app_assoc.
Qed.

(** X3. [split] on a one-code-unit separator, as the builder applies it
    to a text part with the line feed: joining the pieces with the separator
    gives the text back, no piece holds the separator, there is one piece
    more than the text has separators, and a text without the separator is
    its own single piece. *)
Theorem X3_split_char_roundtrip (sep : char) (s : str) :
  join sep (split_char sep s) = s
  /\ Forall (fun p => ~ In sep p) (split_char sep s)
  /\ List.length (split_char sep s) = S (count_occ N.eq_dec s sep)
  /\ (~ In sep s -> split_char sep s = [s]).
Proof.
  unfold split_char. repeat split.
  - apply (split_on_join sep s []).
  - apply split_on_no_sep. intros [].
  - apply split_on_length.
  - intros H. apply (@split_on_absent sep s H []).
Qed.

(** ** The runs of a body, in order *)

Lemma runs_of_push r b : runs_of (push_run r b) = runs_of b ++ [r].
Proof. unfold runs_of. simpl. now rewrite app_assoc. Qed.

Lemma runs_of_flush b : runs_of (flushParagraph b) = runs_of b.
Proof.
  unfold runs_of, flushParagraph.
  destruct (0 <? List.length (currentRuns b)); [|reflexivity].
  simpl. rewrite flat_map_app. simpl. now rewrite !app_nil_r.
Qed.

Lemma currentRuns_flush b : currentRuns (flushParagraph b) = [].
Proof.
  unfold flushParagraph.
  destruct (currentRuns b) as [|r rs] eqn:E; simpl; [exact E | reflexivity].
Qed.

Lemma runs_of_line_step len line i b :
  runs_of (line_step len line i b) = runs_of b ++ line_runs line.
Proof.
  unfold line_step, line_runs.
  destruct (truthy line), (i <? len - 1);
    rewrite ?runs_of_flush, ?runs_of_push, ?app_nil_r; reflexivity.
Qed.

Lemma runs_of_forEach len lines :
  forall i b,
    runs_of (forEach (line_step len) i lines b)
    = runs_of b ++ flat_map line_runs lines.
Proof.
  induction lines as [|line lines IH]; intros i b; simpl.
  - now rewrite app_nil_r.
  - now rewrite IH, runs_of_line_step, <- app_assoc.
Qed.

Lemma runs_of_part_step B f part b b' w :
  fst (part_step B f part b w) = resolve b' ->
  runs_of b' = runs_of b ++ part_runs B f part.
Proof.
  rewrite part_step_outcome. unfold part_runs, tag_runs.
  destruct (falsy part) eqn:Hf.
  - destruct part; [|discriminate]. intros H. inversion H.
    simpl. now rewrite app_nil_r.
  - destruct (match_tag part) as [[[[g1 g2] g3] g4]|].
    + destruct (crop_result B f _ _ _ _); intros H; inversion H.
      apply runs_of_push.
    + intros H. inversion H. apply runs_of_forEach.
Qed.

Lemma runs_of_for_parts B f parts :
  forall b b' w,
    fst (for_parts B f parts b w) = resolve b' ->
    runs_of b' = runs_of b ++ flat_map (part_runs B f) parts.
Proof.
  induction parts as [|part parts IH]; intros b b' w H.
  - inversion H. simpl. now rewrite app_nil_r.
  - rewrite for_parts_cons in H.
    destruct (fst (part_step B f part b world0)) as [b1|e] eqn:E;
      [|discriminate].
    rewrite (IH _ _ _ H), (runs_of_part_step _ _ _ _ _ E).
    simpl. now rewrite <- app_assoc.
Qed.

Lemma image_runs_of_parts B f parts :
  forallb (part_resolves B f) parts = true ->
  List.length (filter is_imageRun (flat_map (part_runs B f) parts))
  = List.length (filter is_tag_part parts).
Proof.
  induction parts as [|part parts IH]; [reflexivity|].
  cbn [forallb]. intros H. apply andb_prop in H. destruct H as [Hp Hps].
  simpl. rewrite filter_app, length_app, (IH Hps).
  unfold part_runs, tag_runs, is_tag_part, part_resolves in *.
  destruct (match_tag part) as [[[[g1 g2] g3] g4]|].
  - destruct (crop_result B f _ _ _ _); [reflexivity | discriminate].
  - assert (H : filter is_imageRun (flat_map line_runs (split_char LF part))
                = []).
    { generalize (split_char LF part). intros lines.
      induction lines as [|l lines IHl]; [reflexivity|].
      simpl. rewrite filter_app, IHl. unfold line_runs.
      destruct (truthy l); reflexivity. }
    now rewrite H.
Qed.

(** X4. When the crops of the tags of a file resolve, the runs of its
    body, read through its paragraphs in order, are the runs of the parts
    of its text, in order: for a text part one run per non-empty line, for
    a tag one run, the image of its crop. The body therefore holds as many
    image runs as the split found tags. *)
Theorem X4_body_runs_in_order (B : Browser) (f : UploadedFile) (t : str) :
  extractedText f = Some t ->
  crops_resolve B f = true ->
  flat_map children (body B f)
  = flat_map (part_runs B (file f)) (split_cropRegex t)
  /\ List.length (filter is_imageRun (flat_map children (body B f)))
     = List.length (filter is_tag_part (split_cropRegex t)).
Proof.
  intros Ht Hres.
  destruct (body_resolves B f Hres) as (b & Hb & Hbody).
  rewrite Ht in Hb.
  assert (H : flat_map children (body B f)
              = flat_map (part_runs B (file f)) (split_cropRegex t)).
  { rewrite Hbody.
    pose proof (runs_of_flush b) as Hf.
    unfold runs_of at 1 in Hf. rewrite currentRuns_flush, app_nil_r in Hf.
    rewrite Hf. now rewrite (runs_of_for_parts _ _ _ _ _ Hb). }
  split; [exact H|]. rewrite H. apply image_runs_of_parts.
  unfold crops_resolve in Hres. now rewrite Ht in Hres.
Qed.

Lemma X4_body_runs_in_order_witness :
  flat_map children (body okBrowser file_y)
  = flat_map (part_runs okBrowser (file file_y))
      (split_cropRegex (lit "[[CROP:0,0,500,500]]"))
  /\ List.length
       (filter is_imageRun (flat_map children (body okBrowser file_y)))
     = List.length
         (filter is_tag_part (split_cropRegex (lit "[[CROP:0,0,500,500]]"))).
Proof.
  apply (@X4_body_runs_in_order okBrowser file_y
           (lit "[[CROP:0,0,500,500]]")).
  - reflexivity.
  - vm_compute. reflexivity.
Defined.

(** ** No empty paragraph *)


Lemma push_run_nonempty r b :
  run_nonempty r -> builder_nonempty b -> builder_nonempty (push_run r b).
Proof.
  intros Hr [Hd Hc]. split; [exact Hd|].
  apply Forall_app. split; [exact Hc | now constructor].
Qed.

Lemma flushParagraph_nonempty b :
  builder_nonempty b -> builder_nonempty (flushParagraph b).
Proof.
  intros [Hd Hc]. unfold flushParagraph.
  destruct (currentRuns b) as [|r rs] eqn:E; simpl; [now split; rewrite ?E|].
  split; [|constructor].
  apply Forall_app. split; [exact Hd|].
  constructor; [|constructor]. split; [discriminate | exact Hc].
Qed.

Lemma line_step_nonempty len line i b :
  builder_nonempty b -> builder_nonempty (line_step len line i b).
Proof.
  intros Hb. unfold line_step.
  assert (H1 : builder_nonempty
                 (if truthy line then push_run (lineRun line) b else b)).
  { destruct line as [|c line]; [exact Hb|].
    apply push_run_nonempty; [discriminate | exact Hb]. }
  destruct (i <? len - 1); [now apply flushParagraph_nonempty | exact H1].
Qed.

Lemma text_part_nonempty part b :
  builder_nonempty b -> builder_nonempty (text_part part b).
Proof.
  unfold text_part.
  generalize (List.length (split_char LF part)) as len.
  generalize 0 as i. generalize (split_char LF part) as lines.
  intros lines. revert b.
  induction lines as [|line lines IH]; intros b i len Hb; simpl;
    [exact Hb|].
  apply IH, line_step_nonempty, Hb.
Qed.

Lemma part_step_nonempty B f part b b' w :
  builder_nonempty b ->
  fst (part_step B f part b w) = resolve b' ->
  builder_nonempty b'.
Proof.
  intros Hb. rewrite part_step_outcome. destruct (falsy part).
  - intros H. inversion H. now subst.
  - destruct (match_tag part) as [[[[g1 g2] g3] g4]|].
    + destruct (crop_result B f _ _ _ _); intros H; inversion H.
      apply push_run_nonempty; [exact I | exact Hb].
    + intros H. inversion H. now apply text_part_nonempty.
Qed.

(** X5. The body of a file has no empty paragraph: every paragraph holds
    a run, and no text run of it has the empty text, whatever the extracted
    text and whatever the crops do. *)
Theorem X5_body_has_no_empty_paragraph (B : Browser) (f : UploadedFile) :
  Forall para_nonempty (body B f).
Proof.
  unfold body. cbv zeta.
  destruct (fst (for_parts B (file f) _ _ world0)) as [b|e] eqn:E;
    [|constructor].
  apply flushParagraph_nonempty.
  eapply (@for_parts_invariant builder_nonempty B (file f)); [| |exact E].
  - intros part b0 b1. apply part_step_nonempty.
  - split; constructor.
Qed.

(** ** Text without a tag, and a tag within a line *)

Lemma line_step_closed len l i D :
  flushParagraph
    (line_step len l i {| docChildren := D; currentRuns := [] |})
  = {| docChildren :=
         D ++ map (fun l => bodyParagraph [lineRun l]) (filter truthy [l]);
       currentRuns := [] |}
  /\ ((i <? len - 1) = true ->
      line_step len l i {| docChildren := D; currentRuns := [] |}
      = {| docChildren :=
             D ++ map (fun l => bodyParagraph [lineRun l]) (filter truthy [l]);
           currentRuns := [] |}).
Proof.
  unfold line_step.
  destruct l as [|c l]; destruct (i <? len - 1); simpl;
    rewrite ?app_nil_r; split; intros; (reflexivity || discriminate).
Qed.

(** The lines of a text, from a buffer that is empty at each line start:
    one paragraph per non-empty line. *)
Lemma flush_lines len lines :
  forall i D,
    i + List.length lines = len ->
    flushParagraph
      (forEach (line_step len) i lines
         {| docChildren := D; currentRuns := [] |})
    = {| docChildren :=
           D ++ map (fun l => bodyParagraph [lineRun l]) (filter truthy lines);
         currentRuns := [] |}.
Proof.
  induction lines as [|l lines IH]; intros i D Hlen.
  - simpl. now rewrite app_nil_r.
  - destruct lines as [|l' lines].
    + cbn [forEach]. apply line_step_closed.
    + cbn [forEach] in *. simpl in Hlen.
      rewrite (proj2 (line_step_closed len l i D))
        by (apply Nat.ltb_lt; lia).
      rewrite IH by (simpl; lia).
      rewrite <- app_assoc, <- map_app.
      destruct l as [|c l]; reflexivity.
Qed.

(** X6. When the extracted text holds no tag, the body is one paragraph
    per non-empty line, each with the single text run of that line; empty
    lines leave no paragraph. *)
Theorem X6_body_of_text_without_tag
  (B : Browser) (f : UploadedFile) (t : str) :
  extractedText f = Some t ->
  tag_free t ->
  body B f
  = map (fun l => bodyParagraph [lineRun l])
      (filter truthy (split_char LF t)).
Proof.
  intros Ht Hfree.
  assert (Hs : split_cropRegex t = [t])
    by (apply (split_loop_tag_free Hfree [])).
  destruct t as [|c t].
  { unfold body. rewrite Ht. reflexivity. }
  assert (Hparts : fst (for_parts B (file f) (split_cropRegex (c :: t))
                          {| docChildren := []; currentRuns := [] |} world0)
                   = resolve
                       (text_part (c :: t)
                          {| docChildren := []; currentRuns := [] |})).
  { rewrite Hs, for_parts_cons.
    rewrite part_step_text by (reflexivity || now apply tag_free_not_tag).
    reflexivity. }
  destruct (body_of_parts B f Ht Hparts) as [Hbody _]. rewrite Hbody.
  unfold text_part.
  rewrite (@flush_lines (List.length (split_char LF (c :: t)))
             (split_char LF (c :: t)) 0 [] eq_refl).
  reflexivity.
Qed.

Lemma X6_body_of_text_without_tag_witness :
  body okBrowser file_x
  = map (fun l => bodyParagraph [lineRun l])
      (filter truthy (split_char LF (lit "Hello"))).
Proof.
  apply (@X6_body_of_text_without_tag okBrowser file_x (lit "Hello")).
  - reflexivity.
  - apply no_bracket_tag_free. vm_compute. intuition discriminate.
Defined.

Lemma text_part_one_line t b :
  ~ In LF t -> truthy t = true -> text_part t b = push_run (lineRun t) b.
Proof.
  intros Hlf Ht. unfold text_part.
  unfold split_char. rewrite (@split_on_absent LF t Hlf []).
  simpl. unfold line_step. now rewrite Ht.
Qed.

Lemma part_step_one_line B f t b w :
  tag_free t -> ~ In LF t ->
  fst (part_step B f t b w)
  = resolve {| docChildren := docChildren b;
               currentRuns := currentRuns b ++ line_runs t |}.
Proof.
  intros Hfree Hlf. destruct t as [|c t].
  - simpl. rewrite app_nil_r. now destruct b.
  - rewrite part_step_text by (reflexivity || now apply tag_free_not_tag).
    now rewrite text_part_one_line.
Qed.

(** X7. A tag between two texts without line feed stays in their line:
    for the text [t1 ++ tag ++ t2], when the crop of the tag resolves, the
    body is one paragraph, holding the run of [t1] (none when it is empty),
    the image of the tag, and the run of [t2]. *)
Theorem X7_tag_stays_in_its_line
  (B : Browser) (f : UploadedFile) (t1 t2 a b c d : str)
  (imageBuffer : ArrayBuffer) :
  digits a -> digits b -> digits c -> digits d ->
  tag_free t1 -> tag_free t2 -> ~ In LF t1 -> ~ In LF t2 ->
  extractedText f = Some (t1 ++ tag a b c d ++ t2) ->
  crop_result B (file f) (parseInt a) (parseInt b) (parseInt c) (parseInt d)
  = resolve imageBuffer ->
  body B f
  = [bodyParagraph
       (line_runs t1
          ++ [imageRun imageBuffer (parseInt a) (parseInt b) (parseInt c)
                (parseInt d)]
          ++ line_runs t2)].
Proof.
  intros Ha Hb Hc Hd H1 H2 L1 L2 Ht Hcrop.
  assert (Hparts :
            fst (for_parts B (file f)
                   (split_cropRegex (t1 ++ tag a b c d ++ t2))
                   {| docChildren := []; currentRuns := [] |} world0)
            = resolve
                {| docChildren := [];
                   currentRuns :=
                     line_runs t1
                       ++ [imageRun imageBuffer (parseInt a) (parseInt b)
                             (parseInt c) (parseInt d)]
                       ++ line_runs t2 |}).
  { unfold split_cropRegex.
    rewrite (@split_loop_around_tag a b c d t2 Ha Hb Hc Hd t1 []).
    rewrite (split_loop_tag_free H1 []), (split_loop_tag_free H2 []).
    cbn [app]. rewrite for_parts_cons.
    rewrite (part_step_one_line B (file f) _ world0 H1 L1).
    rewrite for_parts_cons.
    rewrite (@part_step_tag_resolve B (file f) a b c d _ world0 imageBuffer
               Ha Hb Hc Hd Hcrop).
    rewrite for_parts_cons.
    rewrite (part_step_one_line B (file f) _ world0 H2 L2).
    cbn [for_parts ret fst push_run docChildren currentRuns app].
    now rewrite <- !app_assoc. }
  destruct (body_of_parts B f Ht Hparts) as [Hbody _]. rewrite Hbody.
  unfold flushParagraph. cbn [currentRuns docChildren app].
  set (runs := line_runs t1 ++ _ :: line_runs t2).
  assert (Hne : runs <> [])
    by (subst runs; destruct (line_runs t1); discriminate).
  destruct runs; [congruence | reflexivity].
Qed.

Lemma X7_tag_stays_in_its_line_witness :
  body okBrowser
    (uploaded "p.png" COMPLETED
       (Some (lit "A" ++ tag (lit "0") (lit "0") (lit "500") (lit "500")
                ++ lit "B")))
  = [bodyParagraph
       (line_runs (lit "A")
          ++ [imageRun [137%N] (parseInt (lit "0")) (parseInt (lit "0"))
                (parseInt (lit "500")) (parseInt (lit "500"))]
          ++ line_runs (lit "B"))].
Proof.
  apply (@X7_tag_stays_in_its_line okBrowser
           (uploaded "p.png" COMPLETED
              (Some (lit "A"
                       ++ tag (lit "0") (lit "0") (lit "500") (lit "500")
                       ++ lit "B")))
           (lit "A") (lit "B") (lit "0") (lit "0") (lit "500") (lit "500")
           [137%N]
           lit_digits_0 lit_digits_0 lit_digits_500 lit_digits_500).
  - apply no_bracket_tag_free. vm_compute. intuition discriminate.
  - apply no_bracket_tag_free. vm_compute. intuition discriminate.
  - vm_compute. intuition discriminate.
  - vm_compute. intuition discriminate.
  - reflexivity.
  - vm_compute. reflexivity.
Defined.


(** ** Object URLs *)

Lemma remove_head_fresh (u : URL) (l : list URL) :
  Forall (fun v => (v < u)%N) l -> remove N.eq_dec u (u :: l) = l.
Proof.
  intros H. simpl. destruct (N.eq_dec u u); [|congruence].
  now apply remove_fresh.
Qed.

Lemma urls_wf_succ (w : World) :
  urls_wf w -> Forall (fun v => (v < N.succ (nextURL w))%N) (objectURLs w).
Proof.
  unfold urls_wf. intros H. eapply Forall_impl; [|exact H].
  intros v Hv. simpl in Hv. lia.
Qed.

Lemma cropImage_object_urls
  (B : Browser) (f : File) (ymin xmin ymax xmax : number) (w : World) :
  urls_wf w ->
  let w' := snd (cropImage B f ymin xmin ymax xmax w) in
  objectURLs w'
  = (if early_exit B f ymin xmin ymax xmax
     then nextURL w :: objectURLs w else objectURLs w)
  /\ nextURL w' = N.succ (nextURL w)
  /\ urls_wf w'
  /\ console w' = console w
  /\ downloads w' = downloads w.
Proof.
  intros Hwf. pose proof (urls_wf_succ Hwf) as Hs.
  assert (Hkeep : Forall (fun v => (v < N.succ (nextURL w))%N)
                    (nextURL w :: objectURLs w))
    by (constructor; [lia | exact Hs]).
  unfold cropImage, early_exit, bind, createObjectURL, revokeObjectURL, ret,
    urls_wf.
  destruct (decode B f) as [img|].
  - destruct (leb _ _ || leb _ _); [now repeat split|].
    destruct (negb _); [now repeat split|].
    destruct (drawImage B f _ _ _ _).
    + cbn [snd objectURLs nextURL console downloads].
      rewrite remove_head_fresh by exact Hwf. now repeat split.
    + destruct (toBlob B f _ _ _ _).
      * cbn [snd objectURLs nextURL console downloads].
        rewrite remove_head_fresh by exact Hwf. now repeat split.
      * now repeat split.
  - cbn [snd objectURLs nextURL console downloads].
    rewrite remove_head_fresh by exact Hwf. now repeat split.
Qed.

(** X8. What a crop does to the object URLs, from a page whose live URLs
    were all handed out before: its own URL is still alive afterwards
    exactly when the crop left by the degenerate rectangle, the missing
    context or the null blob; every other exit revokes it. In all cases the
    browser has handed out one URL, the URLs alive before are untouched,
    and nothing is logged or saved by the crop itself. *)
Theorem X8_crop_object_url_fate
  (B : Browser) (f : File) (ymin xmin ymax xmax : number) (w : World) :
  urls_wf w ->
  let w' := snd (cropImage B f ymin xmin ymax xmax w) in
  objectURLs w'
  = (if early_exit B f ymin xmin ymax xmax
     then nextURL w :: objectURLs w else objectURLs w)
  /\ nextURL w' = N.succ (nextURL w)
  /\ urls_wf w'
  /\ console w' = console w
  /\ downloads w' = downloads w.
Proof. exact (@cropImage_object_urls B f ymin xmin ymax xmax w). Qed.

Lemma X8_crop_object_url_fate_witness :
  let w' := snd (cropImage okBrowser (png "a.png")
                   (of_Z 0) (of_Z 0) (of_Z 0) (of_Z 500) world0) in
  objectURLs w'
  = (if early_exit okBrowser (png "a.png")
          (of_Z 0) (of_Z 0) (of_Z 0) (of_Z 500)
     then nextURL world0 :: objectURLs world0 else objectURLs world0)
  /\ nextURL w' = N.succ (nextURL world0)
  /\ urls_wf w'
  /\ console w' = console world0
  /\ downloads w' = downloads world0.
Proof.
  apply (@X8_crop_object_url_fate okBrowser (png "a.png")
           (of_Z 0) (of_Z 0) (of_Z 0) (of_Z 500) world0).
  constructor.
Defined.


Lemma keeps_urls_ret (A : Type) (a : A) : keeps_urls (ret a).
Proof. intros w Hwf. split; [exact Hwf | apply incl_refl]. Qed.

Lemma keeps_urls_bind (A C : Type) (m : M A) (k : A -> M C) :
  keeps_urls m -> (forall a, keeps_urls (k a)) -> keeps_urls (bind m k).
Proof.
  intros Hm Hk w Hwf. unfold bind.
  destruct (Hm w Hwf) as [H1 H2]. destruct (m w) as [a w1]. simpl in *.
  destruct (Hk a w1 H1) as [H3 H4].
  split; [exact H3 | eapply incl_tran; eassumption].
Qed.

Lemma keeps_urls_cropImage B f ymin xmin ymax xmax :
  keeps_urls (cropImage B f ymin xmin ymax xmax).
Proof.
  intros w Hwf.
  destruct (@cropImage_object_urls B f ymin xmin ymax xmax w Hwf)
    as (Hu & _ & Hwf' & _).
  split; [exact Hwf'|]. rewrite Hu.
  destruct (early_exit B f ymin xmin ymax xmax);
    [apply incl_tl|]; apply incl_refl.
Qed.

Lemma keeps_urls_console_error e : keeps_urls (console_error e).
Proof. intros w Hwf. split; [exact Hwf | apply incl_refl]. Qed.

Lemma keeps_urls_bind_try (A C : Type) (m : M (Result A))
  (k : A -> M (Result C)) :
  keeps_urls m -> (forall a, keeps_urls (k a)) -> keeps_urls (bind_try m k).
Proof.
  intros Hm Hk. unfold bind_try. apply keeps_urls_bind; [exact Hm|].
  intros [a|e]; [apply Hk | apply keeps_urls_ret].
Qed.

Lemma keeps_urls_part_step B f part b : keeps_urls (part_step B f part b).
Proof.
  unfold part_step. destruct (falsy part); [apply keeps_urls_ret|].
  destruct (match_tag part) as [[[[g1 g2] g3] g4]|]; [|apply keeps_urls_ret].
  unfold crop_part. apply keeps_urls_bind; [apply keeps_urls_cropImage|].
  intros [buffer|e]; [apply keeps_urls_ret|].
  apply keeps_urls_bind; [apply keeps_urls_console_error|].
  intros _. apply keeps_urls_ret.
Qed.

Lemma keeps_urls_for_parts B f parts :
  forall b, keeps_urls (for_parts B f parts b).
Proof.
  induction parts as [|part parts IH]; intros b; simpl;
    [apply keeps_urls_ret|].
  apply keeps_urls_bind_try; [apply keeps_urls_part_step | exact IH].
Qed.

Lemma keeps_urls_for_files B len fs :
  forall index children, keeps_urls (for_files B len index fs children).
Proof.
  induction fs as [|f fs IH]; intros index children; simpl;
    [apply keeps_urls_ret|].
  apply keeps_urls_bind_try; [|intros a; apply IH].
  unfold file_step. apply keeps_urls_bind_try; [apply keeps_urls_for_parts|].
  intros b. apply keeps_urls_ret.
Qed.

Lemma keeps_urls_buildDocument B files : keeps_urls (buildDocument B files).
Proof.
  unfold buildDocument.
  destruct (List.length (validFiles files) =? 0); [apply keeps_urls_ret|].
  apply keeps_urls_bind_try; [apply keeps_urls_for_files|].
  intros children. apply keeps_urls_ret.
Qed.

(** X9. The download step of [generateAndDownloadDocx] leaves the object
    URLs as the document builder left them: it revokes the URL it created
    for the blob and no other, so every URL alive before the call is alive
    after it. *)
Theorem X9_generate_revokes_only_its_own_url
  (B : Browser) (files : list UploadedFile) (w : World) :
  urls_wf w ->
  objectURLs (snd (generateAndDownloadDocx B files w))
  = objectURLs (snd (buildDocument B files w))
  /\ incl (objectURLs w) (objectURLs (snd (generateAndDownloadDocx B files w)))
  /\ urls_wf (snd (generateAndDownloadDocx B files w)).
Proof.
  intros Hwf.
  destruct (keeps_urls_buildDocument B files Hwf) as [Hwf1 Hincl].
  unfold generateAndDownloadDocx, bind in *.
  destruct (buildDocument B files w) as [[doc|e] w1];
    cbn [snd fst] in *; [|now repeat split].
  unfold createObjectURL, save_as, revokeObjectURL, ret.
  cbn [snd fst objectURLs nextURL].
  rewrite remove_head_fresh by exact Hwf1.
  repeat split; [exact Hincl|].
  unfold urls_wf. cbn [objectURLs nextURL]. now apply urls_wf_succ.
Qed.

Lemma X9_generate_revokes_only_its_own_url_witness :
  objectURLs (snd (generateAndDownloadDocx okBrowser [file_y] world0))
  = objectURLs (snd (buildDocument okBrowser [file_y] world0))
  /\ incl (objectURLs world0)
       (objectURLs (snd (generateAndDownloadDocx okBrowser [file_y] world0)))
  /\ urls_wf (snd (generateAndDownloadDocx okBrowser [file_y] world0)).
Proof.
  apply (@X9_generate_revokes_only_its_own_url okBrowser [file_y] world0).
  constructor.
Defined.

(** ** The document depends on the crops only through their outcome *)

Lemma forallb_same (X : Type) (p q : X -> bool) (l : list X) :
  (forall x, p x = q x) -> forallb p l = forallb q l.
Proof.
  intros H. induction l as [|x l IH]; [reflexivity|].
  simpl. now rewrite H, IH.
Qed.

Lemma for_parts_same_crops B1 B2 f parts :
  (forall g ymin xmin ymax xmax,
      crop_result B1 g ymin xmin ymax xmax
      = crop_result B2 g ymin xmin ymax xmax) ->
  forall b,
    fst (for_parts B1 f parts b world0) = fst (for_parts B2 f parts b world0).
Proof.
  intros H. induction parts as [|part parts IH]; intros b; [reflexivity|].
  rewrite !for_parts_cons, !part_step_outcome.
  destruct (falsy part); [apply IH|].
  destruct (match_tag part) as [[[[g1 g2] g3] g4]|]; [|apply IH].
  rewrite H. destruct (crop_result B2 f _ _ _ _); [apply IH | reflexivity].
Qed.

Lemma body_same_crops B1 B2 f :
  (forall g ymin xmin ymax xmax,
      crop_result B1 g ymin xmin ymax xmax
      = crop_result B2 g ymin xmin ymax xmax) ->
  body B1 f = body B2 f /\ crops_resolve B1 f = crops_resolve B2 f.
Proof.
  intros H. split.
  - unfold body. cbv zeta.
    now rewrite (@for_parts_same_crops B1 B2 (file f) _ H).
  - unfold crops_resolve. apply forallb_same. intros part.
    unfold part_resolves.
    destruct (match_tag part) as [[[[g1 g2] g3] g4]|]; [|reflexivity].
    now rewrite H.
Qed.

(** X10. The document depends on the browser only through the outcomes
    of the crops: two browsers whose crops settle alike give the same
    document (or the same error) for the same files, from any two states of
    the page. *)
Theorem X10_document_depends_on_crop_outcomes_only
  (B1 B2 : Browser) (files : list UploadedFile) (w1 w2 : World) :
  (forall g ymin xmin ymax xmax,
      crop_result B1 g ymin xmin ymax xmax
      = crop_result B2 g ymin xmin ymax xmax) ->
  fst (buildDocument B1 files w1) = fst (buildDocument B2 files w2).
Proof.
  intros H. rewrite !buildDocument_fst.
  destruct (validFiles files) as [|f fs]; [reflexivity|].
  assert (Hres : forallb (crops_resolve B1) (f :: fs)
                 = forallb (crops_resolve B2) (f :: fs)).
  { apply forallb_same. intros g. apply (@body_same_crops B1 B2 g H). }
  rewrite Hres. destruct (forallb (crops_resolve B2) (f :: fs));
    [|reflexivity].
  do 3 f_equal.
  generalize (f :: fs). intros l.
  induction l as [|g l IH]; [reflexivity|].
  simpl. rewrite (proj1 (@body_same_crops B1 B2 g H)).
  destruct l; [reflexivity|]. now rewrite IH.
Qed.

Lemma X10_document_depends_on_crop_outcomes_only_witness :
  fst (buildDocument brokenBrowser [file_y] world0)
  = fst (buildDocument
           {| decode := fun _ => None;
              getContext2d := fun _ _ => false;
              drawImage := fun _ _ _ _ _ => None;
              toBlob := fun _ _ _ _ _ => None |}
           [file_y] world0).
Proof.
  apply (@X10_document_depends_on_crop_outcomes_only brokenBrowser
           {| decode := fun _ => None;
              getContext2d := fun _ _ => false;
              drawImage := fun _ _ _ _ _ => None;
              toBlob := fun _ _ _ _ _ => None |}
           [file_y] world0 world0).
  intros g ymin xmin ymax xmax. reflexivity.
Defined.

(* ===================================================================== *)
(** * Properties of the text extraction *)
(* ===================================================================== *)

(** ** [trim] *)

Lemma trimStart_split s :
  exists l, s = l ++ trimStart s
            /\ Forall (fun c => is_whitespace c = true) l.
Proof.
  induction s as [|c s (l & Hs & Hl)].
  - exists []. split; [reflexivity | constructor].
  - simpl. destruct (is_whitespace c) eqn:E.
    + exists (c :: l). split; [simpl; now rewrite <- Hs | now constructor].
    + exists []. split; [reflexivity | constructor].
Qed.

Lemma trimStart_head s c s' :
  trimStart s = c :: s' -> is_whitespace c = false.
Proof.
  induction s as [|x s IH]; simpl; [discriminate|].
  destruct (is_whitespace x) eqn:E; [exact IH|].
  intros H. inversion H; subst. exact E.
Qed.

Lemma trimStart_fixed c s :
  is_whitespace c = false -> trimStart (c :: s) = c :: s.
Proof. intros H. simpl. now rewrite H. Qed.

Lemma trimStart_snoc s c :
  is_whitespace c = false -> trimStart (s ++ [c]) = trimStart s ++ [c].
Proof.
  intros Hc. induction s as [|x s IH]; simpl.
  - now rewrite Hc.
  - destruct (is_whitespace x); [exact IH | reflexivity].
Qed.

Lemma trimEnd_cons c s :
  is_whitespace c = false -> trimEnd (c :: s) = c :: trimEnd s.
Proof.
  intros Hc. unfold trimEnd. simpl.
  rewrite trimStart_snoc by exact Hc. rewrite rev_app_distr. reflexivity.
Qed.

Lemma trimEnd_split s :
  exists r, s = trimEnd s ++ r
            /\ Forall (fun c => is_whitespace c = true) r.
Proof.
  destruct (trimStart_split (rev s)) as (l & Hs & Hl).
  exists (rev l). split.
  - unfold trimEnd. rewrite <- rev_app_distr, <- Hs. now rewrite rev_involutive.
  - now apply Forall_rev.
Qed.

Lemma trimEnd_last s d :
  trimEnd s <> [] -> is_whitespace (last (trimEnd s) d) = false.
Proof.
  unfold trimEnd. intros Hne.
  destruct (trimStart (rev s)) as [|c u] eqn:E; [now elim Hne|].
  simpl. rewrite last_last. eapply trimStart_head. exact E.
Qed.

Lemma trim_trimmed s : trimmed (trim s).
Proof.
  unfold trim. destruct (trimStart s) as [|c u] eqn:E; [exact I|].
  pose proof (trimStart_head _ E) as Hc.
  pose proof (@trimEnd_last (c :: u) c) as Hl.
  rewrite trimEnd_cons in * by exact Hc.
  split; [exact Hc | apply Hl; discriminate].
Qed.

Lemma trimmed_trim s : trimmed s -> trim s = s.
Proof.
  destruct s as [|c s]; [reflexivity|]. intros [Hc Hl].
  unfold trim. rewrite trimStart_fixed by exact Hc.
  unfold trimEnd.
  assert (H : exists x u, c :: s = u ++ [x])
    by (destruct (@exists_last _ (c :: s)) as (u & x & H);
        [discriminate | eauto]).
  destruct H as (x & u & H). rewrite H in *.
  rewrite last_last in Hl. rewrite rev_app_distr. simpl.
  rewrite Hl. simpl. now rewrite rev_involutive.
Qed.

(** X11. [trim] removes white space at the two ends and nothing else: the
    text is its trimmed form between two runs of white space, the trimmed
    form neither starts nor ends with white space, and trimming a text that
    has none at its ends, a trimmed one among them, changes nothing. *)
Theorem X11_trim_removes_outer_whitespace_only (s : str) :
  (exists l r,
      s = l ++ trim s ++ r
      /\ Forall (fun c => is_whitespace c = true) l
      /\ Forall (fun c => is_whitespace c = true) r)
  /\ trimmed (trim s)
  /\ trim (trim s) = trim s
  /\ (trimmed s -> trim s = s).
Proof.
  split; [|split; [apply trim_trimmed|split]].
  - destruct (trimStart_split s) as (l & Hs & Hl).
    destruct (trimEnd_split (trimStart s)) as (r & Hr & Hrr).
    exists l, r. unfold trim. split; [|now split].
    rewrite <- Hr. exact Hs.
  - apply trimmed_trim, trim_trimmed.
  - apply trimmed_trim.
Qed.

(** ** [fileToGenerativePart], [extractTextFromImage] *)

Lemma split_on_app_sep sep cur (h rest : str) :
  ~ In sep h ->
  split_on sep cur (h ++ sep :: rest) = (cur ++ h) :: split_on sep [] rest.
Proof.
  revert cur. induction h as [|c h IH]; intros cur Hh; simpl.
  - rewrite N.eqb_refl. now rewrite app_nil_r.
  - destruct (N.eqb c sep) eqn:E.
    + apply N.eqb_eq in E. elim Hh. now left.
    + rewrite IH by (intros H; apply Hh; now right).
      now rewrite <- app_assoc.
Qed.


(** X12. For a data URL whose header holds no comma, the payload
    [fileToGenerativePart] resolves with is what follows the first comma,
    up to the next comma if there is one: the whole rest when the rest has
    no comma, as with base64 data. *)
Theorem X12_data_url_payload (G : Gemini) (file : File)
  (header payload : str) :
  ~ In (cu ",") header ->
  readAsDataURL G file = Some (header ++ cu "," :: payload) ->
  fileToGenerativePart G file
  = fulfilled (Some (hd [] (split_char (cu ",") payload)))
  /\ (~ In (cu ",") payload ->
      fileToGenerativePart G file = fulfilled (Some payload)).
Proof.
  intros Hh Hr. unfold fileToGenerativePart. rewrite Hr.
  unfold split_char. rewrite split_on_app_sep by exact Hh.
  cbn [nth_error app]. split.
  - destruct (split_on (cu ",") [] payload) eqn:E; [|reflexivity].
    now apply split_on_nonempty in E.
  - intros Hp. rewrite (@split_on_absent (cu ",") payload Hp []).
    reflexivity.
Qed.

Lemma X12_data_url_payload_witness :
  fileToGenerativePart
    (answering (lit "data:image/png;base64,QUJD") None) (png "a.png")
  = fulfilled (Some (hd [] (split_char (cu ",") (lit "QUJD"))))
  /\ (~ In (cu ",") (lit "QUJD") ->
      fileToGenerativePart
        (answering (lit "data:image/png;base64,QUJD") None) (png "a.png")
      = fulfilled (Some (lit "QUJD"))).
Proof.
  apply (@X12_data_url_payload
           (answering (lit "data:image/png;base64,QUJD") None) (png "a.png")
           (lit "data:image/png;base64") (lit "QUJD")).
  - vm_compute. intuition discriminate.
  - reflexivity.
Defined.

(** X13. When the text the reader gives holds no comma, the promise of
    [fileToGenerativePart] is still fulfilled, with [undefined]: the
    request is then sent with no data. *)
Theorem X13_no_comma_no_payload (G : Gemini) (file : File) (dataURL : str) :
  ~ In (cu ",") dataURL ->
  readAsDataURL G file = Some dataURL ->
  fileToGenerativePart G file = fulfilled None.
Proof.
  intros Hd Hr. unfold fileToGenerativePart. rewrite Hr.
  unfold split_char. rewrite (@split_on_absent (cu ",") dataURL Hd []).
  reflexivity.
Qed.

Lemma X13_no_comma_no_payload_witness :
  fileToGenerativePart (answering (lit "QUJD") None) (png "a.png")
  = fulfilled None.
Proof.
  apply (@X13_no_comma_no_payload (answering (lit "QUJD") None)
           (png "a.png") (lit "QUJD")).
  - vm_compute. intuition discriminate.
  - reflexivity.
Defined.

(** X14. [extractTextFromImage] resolves exactly when the file is read,
    the call resolves and the answer has a non-empty text; the value is
    that text trimmed, the MIME type sent is the file's, or image/png when
    the file has none. A resolved value has no white space at its ends and
    nothing is logged; a rejection is logged once, with the value the
    promise is rejected with. *)
Theorem X14_extract_settles (G : Gemini) (file : File) :
  (forall v,
      fst (extractTextFromImage G file) = fulfilled v
      <-> exists dataURL t,
          readAsDataURL G file = Some dataURL
          /\ generateContent G
               (match file_type G file with
                | [] => lit "image/png"
                | _ :: _ => file_type G file
                end)
               (nth_error (split_char (cu ",") dataURL) 1)
             = fulfilled (Some t)
          /\ t <> []
          /\ v = trim t)
  /\ (forall v,
         fst (extractTextFromImage G file) = fulfilled v ->
         trimmed v /\ snd (extractTextFromImage G file) = [])
  /\ (forall e,
         fst (extractTextFromImage G file) = rejected e ->
         snd (extractTextFromImage G file) = [e]).
Proof.
  assert (Hm : (if truthy (file_type G file) then file_type G file
                else lit "image/png")
               = match file_type G file with
                 | [] => lit "image/png"
                 | _ :: _ => file_type G file
                 end)
    by (destruct (file_type G file); reflexivity).
  unfold extractTextFromImage, extractText_try, fileToGenerativePart.
  cbv zeta. rewrite Hm. clear Hm.
  set (mime := match file_type G file with
               | [] => lit "image/png"
               | _ :: _ => file_type G file
               end).
  destruct (readAsDataURL G file) as [dataURL|] eqn:Hr.
  2:{ cbn [fst snd]. split; [|split].
      - intros v. split; [discriminate|].
        intros (d & t & H & _). discriminate.
      - discriminate.
      - intros e H. now inversion H. }
  destruct (generateContent G mime
              (nth_error (split_char (cu ",") dataURL) 1))
    as [[t|]|e0] eqn:Hg.
  - destruct t as [|c t].
    + cbn [falsy fst snd]. split; [|split].
      * intros v. split; [discriminate|].
        intros (d & t' & H & Hg' & Hne & _).
        inversion H; subst d. rewrite Hg in Hg'. inversion Hg'; subst t'.
        now elim Hne.
      * discriminate.
      * intros e H. now inversion H.
    + change (falsy (c :: t)) with false. cbn [fst snd]. split; [|split].
      * intros v. split.
        -- intros H. inversion H. exists dataURL, (c :: t).
           repeat split; try assumption; discriminate.
        -- intros (d & t' & H & Hg' & Hne & ->).
           inversion H; subst d. rewrite Hg in Hg'. now inversion Hg'.
      * intros v H. inversion H. split; [apply trim_trimmed | reflexivity].
      * discriminate.
  - cbn [fst snd]. split; [|split].
    + intros v. split; [discriminate|].
      intros (d & t' & H & Hg' & _).
      inversion H; subst d. rewrite Hg in Hg'. discriminate.
    + discriminate.
    + intros e H. now inversion H.
  - cbn [fst snd]. split; [|split].
    + intros v. split; [discriminate|].
      intros (d & t' & H & Hg' & _).
      inversion H; subst d. rewrite Hg in Hg'. discriminate.
    + discriminate.
    + intros e H. now inversion H.
Qed.

Lemma trimStart_all_whitespace (t : str) :
  Forall (fun c => is_whitespace c = true) t -> trimStart t = [].
Proof.
  induction 1 as [|c t Hc _ IH]; [reflexivity|]. simpl. now rewrite Hc.
Qed.

Lemma trim_all_whitespace (t : str) :
  Forall (fun c => is_whitespace c = true) t -> trim t = [].
Proof.
  intros H. unfold trim. now rewrite trimStart_all_whitespace.
Qed.

Lemma trim_nil_iff (t : str) :
  trim t = [] <-> Forall (fun c => is_whitespace c = true) t.
Proof.
  split; [|apply trim_all_whitespace].
  intros H.
  destruct (trimStart_split t) as (l & Hs & Hl).
  destruct (trimEnd_split (trimStart t)) as (r & Hr & Hrr).
  unfold trim in H. rewrite H in Hr. simpl in Hr.
  rewrite Hs, Hr. apply Forall_app. now split.
Qed.

Lemma extractTextFromImage_answer (G : Gemini) (file : File)
  (dataURL t : str) :
  readAsDataURL G file = Some dataURL ->
  generateContent G
    (match file_type G file with
     | [] => lit "image/png"
     | _ :: _ => file_type G file
     end)
    (nth_error (split_char (cu ",") dataURL) 1)
  = fulfilled (Some t) ->
  t <> [] ->
  extractTextFromImage G file = (fulfilled (trim t), []).
Proof.
  intros Hr Hg Hne.
  unfold extractTextFromImage, extractText_try, fileToGenerativePart.
  rewrite Hr. cbv zeta.
  replace (if truthy (file_type G file) then file_type G file
           else lit "image/png")
    with (match file_type G file with
          | [] => lit "image/png"
          | _ :: _ => file_type G file
          end)
    by (destruct (file_type G file); reflexivity).
  rewrite Hg. destruct t; [now elim Hne | reflexivity].
Qed.

(* ===================================================================== *)
(** * Properties of the application's handlers *)
(* ===================================================================== *)

(** ** Arrays *)

Lemma get_dense (X : Type) (l : list X) i : get (dense l) i = nth_error l i.
Proof.
  unfold get, dense. rewrite nth_error_map.
  destruct (nth_error l i); reflexivity.
Qed.

Lemma dense_length (X : Type) (l : list X) :
  List.length (dense l) = List.length l.
Proof. apply length_map. Qed.

Lemma firstn_length_app (X : Type) (a1 a2 : list X) :
  firstn (List.length a1) (a1 ++ a2) = a1.
Proof. induction a1 as [|c a1 IH]; simpl; [reflexivity | now rewrite IH]. Qed.

Lemma skipn_length_app (X : Type) (a1 a2 : list X) :
  skipn (List.length a1) (a1 ++ a2) = a2.
Proof. induction a1 as [|c a1 IH]; simpl; [reflexivity | exact IH]. Qed.

Lemma set_mid (X : Type) (a1 : list (Slot X)) s a2 v :
  set (a1 ++ s :: a2) (List.length a1) v = a1 ++ put v :: a2.
Proof.
  unfold set. rewrite length_app. cbn [List.length].
  destruct (Nat.ltb_spec (List.length a1)
              (List.length a1 + S (List.length a2))); [|lia].
  rewrite firstn_length_app. f_equal. f_equal.
  change (S (List.length a1)) with (1 + List.length a1).
  rewrite <- skipn_skipn, skipn_length_app. reflexivity.
Qed.

Lemma set_dense_mid (X : Type) (l1 : list X) z l2 v :
  set (dense (l1 ++ z :: l2)) (List.length l1) (Some v)
  = dense (l1 ++ v :: l2).
Proof.
  unfold dense. rewrite !map_app. simpl.
  rewrite <- (length_map (@Val X) l1). apply set_mid.
Qed.

Lemma nth_error_mid (X : Type) (l1 : list X) z l2 :
  nth_error (l1 ++ z :: l2) (List.length l1) = Some z.
Proof. rewrite nth_error_app2 by lia. now rewrite Nat.sub_diag. Qed.

Lemma moveFile_up_swap (X : Type) (l1 : list X) x y l2 :
  moveFile (l1 ++ x :: y :: l2) (S (List.length l1)) up
  = dense (l1 ++ y :: x :: l2).
Proof.
  unfold moveFile. cbv zeta.
  change (0 <? S (List.length l1)) with true. cbv iota.
  replace (S (List.length l1) - 1) with (List.length l1) by lia.
  rewrite !get_dense.
  rewrite nth_error_mid.
  replace (l1 ++ x :: y :: l2) with ((l1 ++ [x]) ++ y :: l2)
    by (now rewrite <- app_assoc).
  replace (S (List.length l1)) with (List.length (l1 ++ [x]))
    by (rewrite length_app; simpl; lia).
  rewrite nth_error_mid, set_dense_mid.
  rewrite <- app_assoc. simpl.
  apply set_dense_mid.
Qed.

Lemma moveFile_down_swap (X : Type) (l1 : list X) x y l2 :
  moveFile (l1 ++ x :: y :: l2) (List.length l1) down
  = dense (l1 ++ y :: x :: l2).
Proof.
  unfold moveFile. cbv zeta. rewrite dense_length, length_app. simpl.
  destruct (Z.ltb_spec (Z.of_nat (List.length l1))
              (Z.of_nat (List.length l1 + S (S (List.length l2))) - 1));
    [|lia].
  rewrite !get_dense, nth_error_mid.
  assert (Hy : nth_error (l1 ++ x :: y :: l2) (List.length l1 + 1) = Some y).
  { replace (l1 ++ x :: y :: l2) with ((l1 ++ [x]) ++ y :: l2)
      by (now rewrite <- app_assoc).
    replace (List.length l1 + 1) with (List.length (l1 ++ [x]))
      by (rewrite length_app; simpl; lia).
    apply nth_error_mid. }
  rewrite Hy, set_dense_mid.
  replace (l1 ++ y :: y :: l2) with ((l1 ++ [y]) ++ y :: l2)
    by (now rewrite <- app_assoc).
  replace (List.length l1 + 1) with (List.length (l1 ++ [y]))
    by (rewrite length_app; simpl; lia).
  rewrite set_dense_mid. now rewrite <- app_assoc.
Qed.

Lemma moveFile_up_first (X : Type) (l : list X) :
  moveFile l 0 up = dense l.
Proof. reflexivity. Qed.

Lemma moveFile_down_last (X : Type) (l : list X) index :
  List.length l <= index + 1 -> moveFile l index down = dense l.
Proof.
  intros H. unfold moveFile. cbv zeta. rewrite dense_length.
  destruct (Z.ltb_spec (Z.of_nat index) (Z.of_nat (List.length l) - 1));
    [lia | reflexivity].
Qed.

Lemma split_two (X : Type) (l : list X) i :
  S i < List.length l ->
  exists l1 x y l2, l = l1 ++ x :: y :: l2 /\ List.length l1 = i.
Proof.
  revert l. induction i as [|i IH]; intros l H.
  - destruct l as [|x [|y l2]]; simpl in H; try lia.
    exists [], x, y, l2. now split.
  - destruct l as [|z l]; simpl in H; [lia|].
    destruct (IH l) as (l1 & x & y & l2 & -> & Hl); [lia|].
    exists (z :: l1), x, y, l2. split; [reflexivity | simpl; lia].
Qed.

(** X15. A move swaps two neighbours and touches nothing else: moving
    the file at position [i + 1] up and moving the file at position [i]
    down give the same list, the one with the two files exchanged; and the
    same move on the result gives the first list back. *)
Theorem X15_move_swaps_neighbours (X : Type) (l1 : list X) (x y : X)
  (l2 : list X) :
  moveFile (l1 ++ x :: y :: l2) (S (List.length l1)) up
  = dense (swapped l1 x y l2)
  /\ moveFile (l1 ++ x :: y :: l2) (List.length l1) down
     = dense (swapped l1 x y l2)
  /\ moveFile (swapped l1 x y l2) (S (List.length l1)) up
     = dense (l1 ++ x :: y :: l2)
  /\ moveFile (swapped l1 x y l2) (List.length l1) down
     = dense (l1 ++ x :: y :: l2).
Proof.
  unfold swapped.
  repeat split; first [apply moveFile_up_swap | apply moveFile_down_swap].
Qed.

Lemma dense_inj (X : Type) (a b : list X) : dense a = dense b -> a = b.
Proof.
  revert b. induction a as [|x a IH]; intros [|y b] H;
    try discriminate; [reflexivity|].
  inversion H. f_equal. now apply IH.
Qed.

Lemma moveFile_in_range (X : Type) (files : list X) index direction :
  index < List.length files ->
  exists files',
    moveFile files index direction = dense files'
    /\ Permutation files files'.
Proof.
  intros Hi. destruct direction.
  - destruct index as [|i].
    + exists files. split; [reflexivity | apply Permutation_refl].
    + destruct (@split_two X files i) as (l1 & x & y & l2 & -> & <-);
        [lia|].
      exists (l1 ++ y :: x :: l2). split; [apply moveFile_up_swap|].
      apply Permutation_app_head, perm_swap.
  - destruct (Nat.lt_ge_cases (S index) (List.length files)) as [H|H].
    + destruct (@split_two X files index H)
        as (l1 & x & y & l2 & -> & <-).
      exists (l1 ++ y :: x :: l2). split; [apply moveFile_down_swap|].
      apply Permutation_app_head, perm_swap.
    + exists files.
      split; [apply moveFile_down_last; lia | apply Permutation_refl].
Qed.

(** X16. A move made from a card, whose index is below the number of
    files, gives a list without holes that holds the same files, each as
    often as before. Where the card disables the button (up on the first
    card, down on the last) the move changes nothing. *)
Theorem X16_move_from_a_card (X : Type) (files : list X) (index : nat)
  (direction : Direction) :
  index < List.length files ->
  (exists files',
      moveFile files index direction = dense files'
      /\ Permutation files files')
  /\ (moveUpDisabled index = true -> moveFile files index up = dense files)
  /\ (moveDownDisabled index (List.length files) = true ->
      moveFile files index down = dense files).
Proof.
  intros Hi. split; [|split].
  - now apply moveFile_in_range.
  - unfold moveUpDisabled. intros H. apply Nat.eqb_eq in H. now subst.
  - unfold moveDownDisabled. intros H. apply Z.eqb_eq in H.
    apply moveFile_down_last. lia.
Qed.

Lemma X16_move_from_a_card_witness :
  (exists files',
      moveFile [file_x; file_y] 1 up = dense files'
      /\ Permutation [file_x; file_y] files')
  /\ (moveUpDisabled 1 = true ->
      moveFile [file_x; file_y] 1 up = dense [file_x; file_y])
  /\ (moveDownDisabled 1 (List.length [file_x; file_y]) = true ->
      moveFile [file_x; file_y] 1 down = dense [file_x; file_y]).
Proof.
  apply (@X16_move_from_a_card UploadedFile [file_x; file_y] 1 up).
  simpl. lia.
Defined.

(** X17. The two guards of [moveFile] are not alike. Moving down from
    the last position or from any index beyond it changes nothing. Moving
    up from an index at or beyond the end, which only the lower bound
    guards, extends the array to that index and leaves [undefined] at the
    position before it: the result is no list of files. *)
Theorem X17_move_guards_are_asymmetric (X : Type) (files : list X)
  (index : nat) :
  (List.length files <= index + 1 -> moveFile files index down = dense files)
  /\ (List.length files <= index -> 0 < index ->
      List.length (moveFile files index up) = S index
      /\ nth_error (moveFile files index up) (index - 1) = Some Undefined
      /\ forall files', moveFile files index up <> dense files').
Proof.
  split; [apply moveFile_down_last|].
  intros Hl Hpos.
  assert (Hlen : List.length (moveFile files index up) = S index
                 /\ nth_error (moveFile files index up) (index - 1)
                    = Some Undefined).
  { unfold moveFile. cbv zeta.
    destruct (Nat.ltb_spec 0 index); [|lia].
    rewrite (get_dense files index).
    replace (nth_error files index) with (@None X)
      by (symmetry; apply nth_error_None; lia).
    set (a := get (dense files) (index - 1)).
    assert (E : set (dense files) index a
                = dense files ++ repeat Hole (index - List.length files)
                    ++ [put a]).
    { unfold set. rewrite dense_length.
      destruct (Nat.ltb_spec index (List.length files)); [lia|reflexivity]. }
    rewrite E. clear E.
    set (arr := dense files ++ repeat Hole (index - List.length files)
                  ++ [put a]).
    assert (Ha : List.length arr = S index).
    { unfold arr. rewrite !length_app, dense_length, repeat_length. simpl.
      lia. }
    unfold set. rewrite Ha.
    destruct (Nat.ltb_spec (index - 1) (S index)); [|lia].
    split.
    - rewrite length_app. cbn [List.length].
      rewrite length_firstn, length_skipn, Ha. lia.
    - rewrite nth_error_app2 by (rewrite length_firstn, Ha; lia).
      rewrite length_firstn, Ha.
      replace (index - 1 - Nat.min (index - 1) (S index)) with 0 by lia.
      reflexivity. }
  destruct Hlen as [H1 H2]. split; [exact H1 | split; [exact H2|]].
  intros files' E. rewrite E in H2. unfold dense in H2.
  rewrite nth_error_map in H2.
  destruct (nth_error files' (index - 1)); discriminate.
Qed.


(** ** The handlers that create and release preview URLs *)

Lemma urls_from_In n k u :
  In u (urls_from n k) <-> (n <= u < n + N.of_nat k)%N.
Proof.
  revert n. induction k as [|k IH]; intros n; simpl urls_from.
  - simpl. lia.
  - simpl In. rewrite IH. lia.
Qed.

Lemma urls_from_NoDup n k : NoDup (urls_from n k).
Proof.
  revert n. induction k as [|k IH]; intros n; simpl; constructor.
  - rewrite urls_from_In. lia.
  - apply IH.
Qed.

Lemma newFiles_from_cons url_name uuidv4 k f fs w :
  newFiles_from url_name uuidv4 k (f :: fs) w
  = ({| id := uuidv4 k;
        file := f;
        previewUrl := url_name (nextURL w);
        status := IDLE;
        extractedText := None;
        errorMessage := None |}
       :: fst (newFiles_from url_name uuidv4 (S k) fs
                 {| objectURLs := nextURL w :: objectURLs w;
                    nextURL := N.succ (nextURL w);
                    console := console w;
                    downloads := downloads w |}),
     snd (newFiles_from url_name uuidv4 (S k) fs
            {| objectURLs := nextURL w :: objectURLs w;
               nextURL := N.succ (nextURL w);
               console := console w;
               downloads := downloads w |})).
Proof.
  cbn [newFiles_from]. unfold bind, createObjectURL, ret.
  now destruct (newFiles_from url_name uuidv4 (S k) fs _).
Qed.

Lemma newFiles_from_spec url_name uuidv4 fs :
  forall k w,
    map file (fst (newFiles_from url_name uuidv4 k fs w)) = fs
    /\ map id (fst (newFiles_from url_name uuidv4 k fs w))
       = map uuidv4 (seq k (List.length fs))
    /\ Forall fresh_entry (fst (newFiles_from url_name uuidv4 k fs w))
    /\ map previewUrl (fst (newFiles_from url_name uuidv4 k fs w))
       = map url_name (urls_from (nextURL w) (List.length fs))
    /\ objectURLs (snd (newFiles_from url_name uuidv4 k fs w))
       = rev (urls_from (nextURL w) (List.length fs)) ++ objectURLs w
    /\ nextURL (snd (newFiles_from url_name uuidv4 k fs w))
       = (nextURL w + N.of_nat (List.length fs))%N
    /\ console (snd (newFiles_from url_name uuidv4 k fs w)) = console w
    /\ downloads (snd (newFiles_from url_name uuidv4 k fs w)) = downloads w.
Proof.
  induction fs as [|f fs IH]; intros k w.
  - simpl. repeat split; try reflexivity; try constructor. lia.
  - rewrite newFiles_from_cons.
    set (w1 := {| objectURLs := nextURL w :: objectURLs w;
                  nextURL := N.succ (nextURL w);
                  console := console w;
                  downloads := downloads w |}).
    specialize (IH (S k) w1).
    destruct (newFiles_from url_name uuidv4 (S k) fs w1) as [more w2].
    cbn [fst snd] in *.
    destruct IH as (H1 & H2 & H3 & H4 & H5 & H6 & H7 & H8).
    cbn [map List.length seq urls_from file id previewUrl].
    rewrite H1, H2, H4, H5, H6, H7, H8. subst w1.
    cbn [nextURL objectURLs console downloads].
    repeat split; try reflexivity.
    + constructor; [repeat split | exact H3].
    + cbn [rev]. now rewrite <- app_assoc.
    + lia.
Qed.

Lemma NoDup_map_injective (X Y : Type) (g : X -> Y) (l : list X) :
  (forall a b, g a = g b -> a = b) -> NoDup l -> NoDup (map g l).
Proof.
  intros Hg. induction 1 as [|x l Hx _ IH]; simpl; constructor; [|exact IH].
  intros Hin. apply in_map_iff in Hin. destruct Hin as (y & E & Hy).
  apply Hg in E. now subst y.
Qed.

(** X18. Selecting files appends one entry per file, in the order of
    the selection, after the entries already there: idle, without text or
    error message, with the ids [uuidv4] returned. When object URLs have
    distinct texts and the URLs alive were all handed out before, the new
    previews are pairwise distinct, alive afterwards and not alive before,
    and the URLs alive before stay alive. *)
Theorem X18_selected_files_are_appended (url_name : URL -> str)
  (uuidv4 : nat -> str) (fs : list File) (prev : list UploadedFile)
  (w : World) :
  urls_wf w ->
  (forall u v, url_name u = url_name v -> u = v) ->
  exists news,
    fst (handleFileSelect url_name uuidv4 (Some fs) prev w) = prev ++ news
    /\ map file news = fs
    /\ map id news = map uuidv4 (seq 0 (List.length fs))
    /\ Forall fresh_entry news
    /\ NoDup (map previewUrl news)
    /\ Forall (fun f =>
                 alive url_name
                   (snd (handleFileSelect url_name uuidv4 (Some fs) prev w))
                   (previewUrl f)
                 /\ ~ alive url_name w (previewUrl f)) news
    /\ incl (objectURLs w)
         (objectURLs (snd (handleFileSelect url_name uuidv4 (Some fs) prev w)))
    /\ urls_wf (snd (handleFileSelect url_name uuidv4 (Some fs) prev w)).
Proof.
  intros Hwf Hinj. unfold handleFileSelect.
  destruct fs as [|f0 fs0].
  { exists []. cbn. rewrite app_nil_r.
    repeat split; try constructor; try exact Hwf.
    apply incl_refl. }
  set (fs := f0 :: fs0).
  change (0 <? List.length fs) with true. cbv iota.
  unfold bind.
  destruct (newFiles_from_spec url_name uuidv4 fs 0 w)
    as (H1 & H2 & H3 & H4 & H5 & H6 & _).
  destruct (newFiles_from url_name uuidv4 0 fs w) as [news w'].
  cbn [fst snd] in *. unfold ret. cbn [fst snd].
  exists news. split; [reflexivity|].
  split; [exact H1|]. split; [exact H2|]. split; [exact H3|].
  split; [|split; [|split]].
  - rewrite H4. apply NoDup_map_injective; [exact Hinj|].
    apply urls_from_NoDup.
  - apply Forall_forall. intros g Hg.
    assert (Hp : In (previewUrl g) (map previewUrl news))
      by (now apply in_map).
    rewrite H4 in Hp. apply in_map_iff in Hp. destruct Hp as (u & Hu & Hin).
    split.
    + exists u. split; [|exact Hu]. rewrite H5. apply in_or_app. left.
      now apply in_rev in Hin.
    + intros (v & Hv & Hvn). rewrite <- Hu in Hvn. apply Hinj in Hvn.
      subst v. apply urls_from_In in Hin.
      unfold urls_wf in Hwf. rewrite Forall_forall in Hwf.
      specialize (Hwf u Hv). lia.
  - rewrite H5. apply incl_appr, incl_refl.
  - unfold urls_wf. rewrite H5, H6. apply Forall_app. split.
    + apply Forall_forall. intros u Hu. apply in_rev in Hu.
      apply urls_from_In in Hu. lia.
    + unfold urls_wf in Hwf. eapply Forall_impl; [|exact Hwf].
      cbv beta. intros u Hu. lia.
Qed.

Lemma X18_selected_files_are_appended_witness :
  exists news,
    fst (handleFileSelect (fun u => [u]) (fun k => [N.of_nat k])
           (Some [png "a.png"; png "b.png"]) [file_x] world0)
    = [file_x] ++ news
    /\ map file news = [png "a.png"; png "b.png"]
    /\ map id news
       = map (fun k => [N.of_nat k])
           (seq 0 (List.length [png "a.png"; png "b.png"]))
    /\ Forall fresh_entry news
    /\ NoDup (map previewUrl news)
    /\ Forall (fun f =>
                 alive (fun u => [u])
                   (snd (handleFileSelect (fun u => [u])
                           (fun k => [N.of_nat k])
                           (Some [png "a.png"; png "b.png"]) [file_x]
                           world0))
                   (previewUrl f)
                 /\ ~ alive (fun u => [u]) world0 (previewUrl f)) news
    /\ incl (objectURLs world0)
         (objectURLs
            (snd (handleFileSelect (fun u => [u]) (fun k => [N.of_nat k])
                    (Some [png "a.png"; png "b.png"]) [file_x] world0)))
    /\ urls_wf
         (snd (handleFileSelect (fun u => [u]) (fun k => [N.of_nat k])
                 (Some [png "a.png"; png "b.png"]) [file_x] world0)).
Proof.
  apply (@X18_selected_files_are_appended (fun u => [u])
           (fun k => [N.of_nat k]) [png "a.png"; png "b.png"] [file_x]
           world0).
  - constructor.
  - intros u v H. now inversion H.
Defined.

Lemma str_eqb_eq a b : str_eqb a b = true <-> a = b.
Proof.
  unfold str_eqb. destruct (list_eq_dec N.eq_dec a b); split; congruence.
Qed.

Lemma str_eqb_refl a : str_eqb a a = true.
Proof. now apply str_eqb_eq. Qed.

Lemma str_eqb_neq a b : a <> b -> str_eqb a b = false.
Proof.
  intros H. destruct (str_eqb a b) eqn:E; [|reflexivity].
  apply str_eqb_eq in E. contradiction.
Qed.

Lemma filter_other_ids id0 (l : list UploadedFile) :
  (forall f, In f l -> id f <> id0) ->
  filter (fun f => negb (str_eqb (id f) id0)) l = l
  /\ find (fun f => str_eqb (id f) id0) l = None.
Proof.
  induction l as [|g l IH]; intros H; [now split|].
  simpl. rewrite str_eqb_neq by (apply H; now left). simpl.
  destruct IH as [E1 E2]; [intros f Hf; apply H; now right|].
  now rewrite E1, E2.
Qed.

Lemma handleRemoveFile_fst url_name id0 prev w :
  fst (handleRemoveFile url_name id0 prev w)
  = filter (fun f => negb (str_eqb (id f) id0)) prev.
Proof.
  unfold handleRemoveFile, bind.
  destruct (find _ prev); reflexivity.
Qed.

Lemma handleRemoveFile_fst_mid url_name id0 (l1 l2 : list UploadedFile) x w :
  id x = id0 ->
  (forall f, In f (l1 ++ l2) -> id f <> id0) ->
  fst (handleRemoveFile url_name id0 (l1 ++ x :: l2) w) = l1 ++ l2.
Proof.
  intros Hx H. rewrite handleRemoveFile_fst, filter_app. simpl.
  rewrite Hx, str_eqb_refl. simpl.
  destruct (@filter_other_ids id0 l1) as [E1 _];
    [intros f Hf; apply H, in_or_app; now left|].
  destruct (@filter_other_ids id0 l2) as [E2 _];
    [intros f Hf; apply H, in_or_app; now right|].
  now rewrite E1, E2.
Qed.

(** X19. Removing by an id no file has changes neither the list nor the
    page. Removing the one file that has the id takes this file out of the
    list, leaves the others in their order, and revokes the object URLs
    with the text of its preview and no other. *)
Theorem X19_remove_takes_one_file_and_its_url (url_name : URL -> str)
  (id0 : str) (l1 l2 : list UploadedFile) (w : World) :
  (forall f, In f (l1 ++ l2) -> id f <> id0) ->
  handleRemoveFile url_name id0 (l1 ++ l2) w = (l1 ++ l2, w)
  /\ forall x,
      id x = id0 ->
      fst (handleRemoveFile url_name id0 (l1 ++ x :: l2) w) = l1 ++ l2
      /\ (forall u,
             In u (objectURLs
                     (snd (handleRemoveFile url_name id0 (l1 ++ x :: l2) w)))
             <-> In u (objectURLs w) /\ url_name u <> previewUrl x)
      /\ nextURL (snd (handleRemoveFile url_name id0 (l1 ++ x :: l2) w))
         = nextURL w.
Proof.
  intros H.
  assert (H1 : forall f, In f l1 -> id f <> id0)
    by (intros f Hf; apply H, in_or_app; now left).
  assert (H2 : forall f, In f l2 -> id f <> id0)
    by (intros f Hf; apply H, in_or_app; now right).
  destruct (filter_other_ids l1 H1) as [F1 N1].
  destruct (filter_other_ids l2 H2) as [F2 N2].
  split.
  - unfold handleRemoveFile, bind, ret.
    destruct (filter_other_ids (l1 ++ l2) H) as [F N].
    now rewrite N, F.
  - intros x Hx. unfold handleRemoveFile, bind.
    assert (Hfind : find (fun f => str_eqb (id f) id0) (l1 ++ x :: l2)
                    = Some x).
    { clear F1 F2 N2 H H2. induction l1 as [|g l1 IH]; simpl.
      - now rewrite Hx, str_eqb_refl.
      - rewrite str_eqb_neq by (apply H1; now left).
        apply IH.
        + intros f Hf. apply H1. now right.
        + simpl in N1. rewrite str_eqb_neq in N1 by (apply H1; now left).
          exact N1. }
    rewrite Hfind. unfold revokeObjectURL_named, ret. cbn [fst snd objectURLs
      nextURL].
    split; [|split; [|reflexivity]].
    + rewrite filter_app. simpl. rewrite Hx, str_eqb_refl. simpl.
      now rewrite F1, F2.
    + intros u. rewrite filter_In. split.
      * intros [Hu Hn]. split; [exact Hu|].
        intros E. rewrite E, str_eqb_refl in Hn. discriminate.
      * intros [Hu Hn]. split; [exact Hu|].
        now rewrite str_eqb_neq.
Qed.

Lemma X19_remove_takes_one_file_and_its_url_witness :
  handleRemoveFile (fun u => [u]) (lit "z.png") ([file_x] ++ [file_y]) world0
  = ([file_x] ++ [file_y], world0)
  /\ forall x,
      id x = lit "z.png" ->
      fst (handleRemoveFile (fun u => [u]) (lit "z.png")
             ([file_x] ++ x :: [file_y]) world0)
      = [file_x] ++ [file_y]
      /\ (forall u,
             In u (objectURLs
                     (snd (handleRemoveFile (fun u => [u]) (lit "z.png")
                             ([file_x] ++ x :: [file_y]) world0)))
             <-> In u (objectURLs world0) /\ [u] <> previewUrl x)
      /\ nextURL (snd (handleRemoveFile (fun u => [u]) (lit "z.png")
                         ([file_x] ++ x :: [file_y]) world0))
         = nextURL world0.
Proof.
  apply (@X19_remove_takes_one_file_and_its_url (fun u => [u])
           (lit "z.png") [file_x] [file_y] world0).
  intros f [<-|[<-|[]]]; vm_compute; discriminate.
Defined.

Lemma revoke_all_cons url_name f files w :
  revoke_all url_name (f :: files) w
  = revoke_all url_name files
      {| objectURLs :=
           filter (fun u => negb (str_eqb (url_name u) (previewUrl f)))
             (objectURLs w);
         nextURL := nextURL w;
         console := console w;
         downloads := downloads w |}.
Proof. reflexivity. Qed.

Lemma revoke_all_spec url_name files :
  forall w,
    (forall u,
        In u (objectURLs (snd (revoke_all url_name files w)))
        <-> In u (objectURLs w)
            /\ forall f, In f files -> url_name u <> previewUrl f)
    /\ nextURL (snd (revoke_all url_name files w)) = nextURL w
    /\ console (snd (revoke_all url_name files w)) = console w
    /\ downloads (snd (revoke_all url_name files w)) = downloads w.
Proof.
  induction files as [|f files IH]; intros w.
  - simpl. repeat split; try tauto.
  - rewrite revoke_all_cons.
    set (w1 := {| objectURLs := _; nextURL := nextURL w;
                  console := console w; downloads := downloads w |}).
    destruct (IH w1) as (Hu & Hn & Hc & Hd).
    split; [|now rewrite Hn, Hc, Hd].
    intros u. rewrite Hu. subst w1. cbn [objectURLs]. rewrite filter_In.
    split.
    + intros [[Hin Hne] Hall]. split; [exact Hin|].
      intros g [<-|Hg]; [|now apply Hall].
      intros E. rewrite E, str_eqb_refl in Hne. discriminate.
    + intros [Hin Hall]. split; [split; [exact Hin|]|].
      * rewrite str_eqb_neq; [reflexivity|]. apply Hall. now left.
      * intros g Hg. apply Hall. now right.
Qed.

Lemma filter_id (X : Type) (p : X -> bool) (l : list X) :
  (forall x, In x l -> p x = true) -> filter p l = l.
Proof.
  induction l as [|x l IH]; intros H; [reflexivity|].
  simpl. rewrite H by now left. f_equal. apply IH.
  intros y Hy. apply H. now right.
Qed.

Lemma filter_none (X : Type) (p : X -> bool) (l : list X) :
  (forall x, In x l -> p x = false) -> filter p l = [].
Proof.
  induction l as [|x l IH]; intros H; [reflexivity|].
  simpl. rewrite H by now left. apply IH.
  intros y Hy. apply H. now right.
Qed.

Lemma revoke_all_urls url_name files :
  forall w,
    objectURLs (snd (revoke_all url_name files w))
    = filter (fun u =>
                forallb (fun f => negb (str_eqb (url_name u) (previewUrl f)))
                  files)
        (objectURLs w).
Proof.
  induction files as [|f files IH]; intros w.
  - simpl. symmetry. now apply filter_id.
  - rewrite revoke_all_cons, IH. cbn [objectURLs forallb].
    induction (objectURLs w) as [|u us IHu]; [reflexivity|].
    simpl. destruct (str_eqb (url_name u) (previewUrl f)); simpl.
    + exact IHu.
    + destruct (forallb _ files); [now rewrite IHu | exact IHu].
Qed.

(** X20. [handleClearAll] empties the list and revokes the previews of
    all the files: an object URL is alive afterwards exactly when it was
    alive before and is the preview of none of them. *)
Theorem X20_clear_all_releases_every_preview (url_name : URL -> str)
  (files : list UploadedFile) (w : World) :
  fst (handleClearAll url_name files w) = []
  /\ (forall u,
         In u (objectURLs (snd (handleClearAll url_name files w)))
         <-> In u (objectURLs w)
             /\ forall f, In f files -> url_name u <> previewUrl f)
  /\ (forall f, In f files ->
                ~ alive url_name (snd (handleClearAll url_name files w))
                    (previewUrl f))
  /\ nextURL (snd (handleClearAll url_name files w)) = nextURL w.
Proof.
  unfold handleClearAll, bind, ret.
  destruct (revoke_all_spec url_name files w) as (Hu & Hn & _).
  destruct (revoke_all url_name files w) as [[] w']. cbn [fst snd] in *.
  split; [reflexivity|]. split; [exact Hu|]. split; [|exact Hn].
  intros f Hf (u & Hin & E). apply Hu in Hin. destruct Hin as [_ Hall].
  now apply (Hall f Hf).
Qed.

Lemma forallb_names (url_name : URL -> str) (u : URL) (vs : list URL) :
  (forall a b, url_name a = url_name b -> a = b) ->
  forallb (fun s => negb (str_eqb (url_name u) s)) (map url_name vs)
  = negb (existsb (N.eqb u) vs).
Proof.
  intros Hinj. induction vs as [|v vs IH]; [reflexivity|].
  simpl. rewrite IH, negb_orb.
  assert (E : str_eqb (url_name u) (url_name v) = N.eqb u v).
  { destruct (N.eqb_spec u v) as [->|Hne]; [apply str_eqb_refl|].
    apply str_eqb_neq. intros E. apply Hne. now apply Hinj. }
  now rewrite E.
Qed.

(** X21. Selecting files on an empty list and then clearing leaves the
    object URLs alive exactly as they were before the selection: every
    preview URL created is revoked and no other URL is. *)
Theorem X21_select_then_clear_leaves_no_url (url_name : URL -> str)
  (uuidv4 : nat -> str) (fs : list File) (w : World) :
  urls_wf w ->
  (forall u v, url_name u = url_name v -> u = v) ->
  let r1 := handleFileSelect url_name uuidv4 (Some fs) [] w in
  let r2 := handleClearAll url_name (fst r1) (snd r1) in
  fst r2 = [] /\ objectURLs (snd r2) = objectURLs w.
Proof.
  intros Hwf Hinj. cbv zeta.
  unfold handleClearAll, bind, ret.
  pose proof (revoke_all_urls url_name
                (fst (handleFileSelect url_name uuidv4 (Some fs) [] w))
                (snd (handleFileSelect url_name uuidv4 (Some fs) [] w)))
    as Hr.
  destruct (revoke_all url_name _ _) as [[] w2]. cbn [fst snd] in *.
  split; [reflexivity|].
  rewrite Hr. clear Hr w2.
  unfold handleFileSelect.
  destruct fs as [|f0 fs0].
  { cbn. now apply filter_id. }
  set (fs := f0 :: fs0).
  change (0 <? List.length fs) with true. cbv iota.
  unfold bind.
  destruct (newFiles_from_spec url_name uuidv4 fs 0 w)
    as (_ & _ & _ & H4 & H5 & _).
  destruct (newFiles_from url_name uuidv4 0 fs w) as [news w'].
  cbn [fst snd] in *. unfold ret. cbn [fst snd app].
  rewrite H5, filter_app.
  assert (Hall : forall u,
             forallb (fun f => negb (str_eqb (url_name u) (previewUrl f)))
               news
             = negb (existsb (N.eqb u)
                       (urls_from (nextURL w) (List.length fs)))).
  { intros u.
    assert (E : forallb (fun f => negb (str_eqb (url_name u) (previewUrl f)))
                  news
                = forallb (fun s => negb (str_eqb (url_name u) s))
                    (map previewUrl news))
      by (clear; induction news as [|g news IH]; simpl;
          [reflexivity | now rewrite IH]).
    rewrite E, H4. now apply forallb_names. }
  rewrite filter_none, filter_id; [reflexivity| |].
  - intros u Hu. rewrite Hall.
    destruct (existsb _ _) eqn:E; [|reflexivity].
    apply existsb_exists in E. destruct E as (v & Hv & Huv).
    apply N.eqb_eq in Huv. subst v. apply urls_from_In in Hv.
    unfold urls_wf in Hwf. rewrite Forall_forall in Hwf.
    specialize (Hwf u Hu). lia.
  - intros u Hu. rewrite Hall. apply in_rev in Hu.
    replace (existsb (N.eqb u) (urls_from (nextURL w) (List.length fs)))
      with true; [reflexivity|].
    symmetry. apply existsb_exists. exists u. split; [exact Hu|].
    apply N.eqb_refl.
Qed.

Lemma X21_select_then_clear_leaves_no_url_witness :
  let r1 := handleFileSelect (fun u => [u]) (fun k => [N.of_nat k])
              (Some [png "a.png"; png "b.png"]) [] world0 in
  let r2 := handleClearAll (fun u => [u]) (fst r1) (snd r1) in
  fst r2 = [] /\ objectURLs (snd r2) = objectURLs world0.
Proof.
  apply (@X21_select_then_clear_leaves_no_url (fun u => [u])
           (fun k => [N.of_nat k]) [png "a.png"; png "b.png"] world0).
  - constructor.
  - intros u v H. now inversion H.
Defined.


(** ** [processImages] *)

Lemma update_at_mid g (done : list UploadedFile) x rest :
  update_at (List.length done) g (done ++ x :: rest)
  = Some (done ++ g x :: rest).
Proof.
  unfold update_at. rewrite nth_error_mid, firstn_length_app.
  change (S (List.length done)) with (1 + List.length done).
  now rewrite <- skipn_skipn, skipn_length_app.
Qed.

Lemma update_at_past g (l : list UploadedFile) index :
  List.length l <= index -> update_at index g l = None.
Proof.
  intros H. unfold update_at.
  now replace (nth_error l index) with (@None UploadedFile)
    by (symmetry; now apply nth_error_None).
Qed.

Lemma status_eqb_eq a b : status_eqb a b = true <-> a = b.
Proof. destruct a, b; simpl; split; congruence. Qed.

Lemma process_item_mid extract (done : list UploadedFile) x x0 rest :
  file x0 = file x ->
  status_eqb (status x0) COMPLETED = false ->
  process_item extract (x0, List.length done) (done ++ x :: rest)
  = Some (done ++
          match extract (file x0) with
          | fulfilled text => completed_with text x
          | rejected error => failed_with error x
          end :: rest).
Proof.
  intros Hf Hs. unfold process_item, markProcessing. cbn [fst snd].
  rewrite update_at_mid.
  destruct (extract (file x0)); unfold markCompleted, markError;
    rewrite update_at_mid; reflexivity.
Qed.

Lemma for_pending_run extract (todo : list UploadedFile) :
  forall done,
    for_pending extract
      (filter (fun item => negb (status_eqb (status (fst item)) COMPLETED))
         (combine todo (seq (List.length done) (List.length todo))))
      (done ++ todo)
    = Some (done ++ map (processed extract) todo).
Proof.
  induction todo as [|x todo IH]; intros done; [reflexivity|].
  cbn [List.length seq combine filter fst map]. unfold processed at 1.
  specialize (IH (done ++ [match extract (file x) with
                           | fulfilled text => completed_with text x
                           | rejected error => failed_with error x
                           end])) as IH1.
  specialize (IH (done ++ [x])) as IH2.
  rewrite length_app in IH1, IH2. cbn [List.length] in IH1, IH2.
  rewrite Nat.add_1_r, <- !app_assoc in IH1, IH2. cbn [app] in IH1, IH2.
  destruct (status_eqb (status x) COMPLETED) eqn:E; cbn [negb].
  - exact IH2.
  - cbn [for_pending]. rewrite process_item_mid by (reflexivity || exact E).
    exact IH1.
Qed.

Lemma processImages_run extract files :
  processImages extract files files = Some (map (processed extract) files).
Proof. exact (for_pending_run extract files []). Qed.

Lemma processed_keeps extract f :
  id (processed extract f) = id f
  /\ file (processed extract f) = file f
  /\ previewUrl (processed extract f) = previewUrl f.
Proof.
  unfold processed. destruct (status_eqb (status f) COMPLETED);
    [now repeat split|]. destruct (extract (file f)); now repeat split.
Qed.

Lemma processed_status extract f :
  status (processed extract f) = COMPLETED
  \/ status (processed extract f) = ERROR.
Proof.
  unfold processed. destruct (status_eqb (status f) COMPLETED) eqn:E.
  - left. now apply status_eqb_eq.
  - destruct (extract (file f)); [now left | now right].
Qed.

Lemma processed_idem extract f :
  processed extract (processed extract f) = processed extract f.
Proof.
  unfold processed.
  destruct (status_eqb (status f) COMPLETED) eqn:E0.
  - now rewrite E0.
  - destruct (extract (file f)) eqn:Ex.
    + reflexivity.
    + change (status (failed_with t f)) with ERROR.
      change (file (failed_with t f)) with (file f).
      cbn [status_eqb]. rewrite Ex. reflexivity.
Qed.

(** X22. A run of [processImages] that no other handler interleaves
    with comes to an end and treats every file on its own: a completed
    file is left as it is, any other becomes COMPLETED with the text
    extracted, or ERROR with the message of the error. Ids, files and
    previews keep their places, no file is left IDLE or PROCESSING, and a
    second run with the same answers changes nothing. *)
Theorem X22_a_run_processes_every_pending_file
  (extract : File -> Settled str) (files : list UploadedFile) :
  processImages extract files files = Some (map (processed extract) files)
  /\ map id (map (processed extract) files) = map id files
  /\ map file (map (processed extract) files) = map file files
  /\ map previewUrl (map (processed extract) files) = map previewUrl files
  /\ Forall (fun f => status f = COMPLETED \/ status f = ERROR)
       (map (processed extract) files)
  /\ processImages extract (map (processed extract) files)
       (map (processed extract) files)
     = Some (map (processed extract) files).
Proof.
  split; [apply processImages_run|].
  rewrite !map_map.
  split; [apply map_ext; intros f; apply processed_keeps|].
  split; [apply map_ext; intros f; apply processed_keeps|].
  split; [apply map_ext; intros f; apply processed_keeps|].
  split.
  - apply Forall_forall. intros f Hf. apply in_map_iff in Hf.
    destruct Hf as (g & <- & _). apply processed_status.
  - rewrite processImages_run, map_map. f_equal. apply map_ext.
    apply processed_idem.
Qed.

(** X23. The updaters of [processImages] address a file by the index it
    had when the run started. If the file being extracted is removed while
    the extraction is under way, its text is stored on the file that
    followed it, which becomes COMPLETED; if it was the last file, the
    write falls past the end of the list. *)
Theorem X23_removal_during_extraction_shifts_the_result
  (url_name : URL -> str) (l1 : list UploadedFile) (x : UploadedFile)
  (rest : list UploadedFile) (text : str) (w : World) :
  (forall f, In f (l1 ++ rest) -> id f <> id x) ->
  exists prev1,
    markProcessing (List.length l1) (l1 ++ x :: rest) = Some prev1
    /\ markCompleted (List.length l1) text
         (fst (handleRemoveFile url_name (id x) prev1 w))
       = match rest with
         | [] => None
         | y :: l2 => Some (l1 ++ completed_with text y :: l2)
         end.
Proof.
  intros H. unfold markProcessing. rewrite update_at_mid.
  eexists. split; [reflexivity|].
  set (x' := {| id := id x; file := file x; previewUrl := previewUrl x;
                status := PROCESSING; extractedText := extractedText x;
                errorMessage := errorMessage x |}).
  rewrite (@handleRemoveFile_fst_mid url_name (id x) l1 rest x' w eq_refl H).
  unfold markCompleted. destruct rest as [|y l2].
  - apply update_at_past. rewrite app_nil_r. lia.
  - apply update_at_mid.
Qed.

Lemma X23_removal_during_extraction_shifts_the_result_witness :
  exists prev1,
    markProcessing (List.length [file_x])
      ([file_x] ++ uploaded "z.png" IDLE None :: [file_y])
    = Some prev1
    /\ markCompleted (List.length [file_x]) (lit "text of z")
         (fst (handleRemoveFile (fun u => [u])
                 (id (uploaded "z.png" IDLE None)) prev1 world0))
       = Some ([file_x] ++ completed_with (lit "text of z") file_y :: []).
Proof.
  apply (@X23_removal_during_extraction_shifts_the_result (fun u => [u])
           [file_x] (uploaded "z.png" IDLE None) [file_y] (lit "text of z")
           world0).
  intros f [<-|[<-|[]]]; vm_compute; discriminate.
Defined.

(** ** The list of files over a session *)

Lemma processed_text_iff extract f :
  text_iff_completed f -> text_iff_completed (processed extract f).
Proof.
  unfold text_iff_completed, processed. intros H.
  destruct (status_eqb (status f) COMPLETED) eqn:E; [exact H|].
  assert (Hs : status f <> COMPLETED)
    by (intros Hs; apply status_eqb_eq in Hs; congruence).
  destruct (extract (file f)); cbn [status extractedText completed_with
    failed_with].
  - split; [discriminate | reflexivity].
  - split; [discriminate|]. intros Ht. elim Hs. now apply H.
Qed.

Lemma handled_text_iff prev next :
  handled prev next ->
  Forall text_iff_completed prev -> Forall text_iff_completed next.
Proof.
  intros Hh Hp. destruct Hh as
    [url_name uuidv4 selected w prev
    |url_name id0 w prev
    |url_name w prev
    |index direction prev next Hi Hm
    |extract prev next Hr].
  - unfold handleFileSelect. destruct selected as [fs|]; [|exact Hp].
    destruct (0 <? List.length fs); [|exact Hp].
    unfold bind.
    destruct (newFiles_from_spec url_name uuidv4 fs 0 w)
      as (_ & _ & H3 & _).
    destruct (newFiles_from url_name uuidv4 0 fs w) as [news w'].
    cbn [fst snd] in *. apply Forall_app. split; [exact Hp|].
    eapply Forall_impl; [|exact H3]. cbv beta.
    intros f (Hs & Ht & _). unfold text_iff_completed. rewrite Hs, Ht.
    split; [discriminate | intros H; now elim H].
  - rewrite handleRemoveFile_fst. rewrite Forall_forall in *.
    intros f Hf. apply filter_In in Hf. now apply Hp.
  - unfold handleClearAll, bind. destruct (revoke_all url_name prev w).
    constructor.
  - destruct (@moveFile_in_range _ prev index direction Hi)
      as (files' & E & Hperm).
    rewrite E in Hm. apply dense_inj in Hm. subst files'.
    eapply Permutation_Forall; eassumption.
  - rewrite processImages_run in Hr. inversion Hr; subst next.
    rewrite Forall_forall in *. intros f Hf. apply in_map_iff in Hf.
    destruct Hf as (g & <- & Hg). apply processed_text_iff. now apply Hp.
Qed.

Lemma session_text_iff files :
  session files -> Forall text_iff_completed files.
Proof.
  induction 1 as [|prev next _ IH Hh]; [constructor|].
  eapply handled_text_iff; eassumption.
Qed.

Lemma filter_length_le (X : Type) (p q : X -> bool) (l : list X) :
  (forall x, In x l -> p x = true -> q x = true) ->
  List.length (filter p l) <= List.length (filter q l).
Proof.
  induction l as [|x l IH]; intros H; [simpl; lia|].
  simpl. assert (IH' := IH (fun y Hy => H y (or_intror Hy))).
  destruct (p x) eqn:E.
  - rewrite (H x (or_introl eq_refl) E). simpl. lia.
  - destruct (q x); simpl; lia.
Qed.

(** X24. Over a session in which the handlers run one at a time from
    the empty list, a file is COMPLETED exactly when it has an extracted
    text (possibly empty). So the files that go into the document are at
    most the completed ones, and whenever the download button is disabled
    there is indeed nothing to download: the call would be rejected with
    "No text available to download." and save nothing. *)
Theorem X24_text_only_on_completed_files (B : Browser)
  (files : list UploadedFile) (w : World) :
  session files ->
  Forall text_iff_completed files
  /\ List.length (validFiles files) <= completedCount files
  /\ (downloadDisabled files = true ->
      fst (generateAndDownloadDocx B files w) = reject NoContent
      /\ downloads (snd (generateAndDownloadDocx B files w)) = downloads w).
Proof.
  intros Hs. pose proof (session_text_iff Hs) as Hinv.
  assert (Hle : List.length (validFiles files) <= completedCount files).
  { unfold validFiles, completedCount. apply filter_length_le.
    intros f Hf Ht. rewrite Forall_forall in Hinv.
    apply status_eqb_eq. apply (Hinv f Hf).
    unfold has_text in Ht. destruct (extractedText f); discriminate. }
  split; [exact Hinv | split; [exact Hle|]].
  unfold downloadDisabled. intros Hd. apply Nat.eqb_eq in Hd.
  assert (Hv : validFiles files = [])
    by (destruct (validFiles files); [reflexivity | simpl in Hle; lia]).
  pose proof (generateAndDownloadDocx_spec B files w) as Hg.
  apply (buildDocument_rejects_iff B files w) in Hv.
  rewrite Hv in Hg. exact Hg.
Qed.

Lemma X24_text_only_on_completed_files_witness :
  Forall text_iff_completed
    (fst (handleFileSelect (fun u => [u]) (fun k => [N.of_nat k])
            (Some [png "a.png"]) [] world0))
  /\ List.length
       (validFiles
          (fst (handleFileSelect (fun u => [u]) (fun k => [N.of_nat k])
                  (Some [png "a.png"]) [] world0)))
     <= completedCount
          (fst (handleFileSelect (fun u => [u]) (fun k => [N.of_nat k])
                  (Some [png "a.png"]) [] world0))
  /\ (downloadDisabled
        (fst (handleFileSelect (fun u => [u]) (fun k => [N.of_nat k])
                (Some [png "a.png"]) [] world0))
      = true ->
      fst (generateAndDownloadDocx okBrowser
             (fst (handleFileSelect (fun u => [u]) (fun k => [N.of_nat k])
                     (Some [png "a.png"]) [] world0))
             world0)
      = reject NoContent
      /\ downloads
           (snd (generateAndDownloadDocx okBrowser
                   (fst (handleFileSelect (fun u => [u])
                           (fun k => [N.of_nat k])
                           (Some [png "a.png"]) [] world0))
                   world0))
         = downloads world0).
Proof.
  apply (@X24_text_only_on_completed_files okBrowser
           (fst (handleFileSelect (fun u => [u]) (fun k => [N.of_nat k])
                   (Some [png "a.png"]) [] world0))
           world0).
  eapply session_step; [apply session_start | apply handled_select].
Defined.

Lemma blank_processed G f :
  status f <> COMPLETED ->
  blank_answer G (file f) ->
  processed (fun x => fst (extractTextFromImage G x)) f
  = completed_with [] f.
Proof.
  intros Hs (dataURL & t & Hr & Hg & Hne & Hw). unfold processed.
  destruct (status_eqb (status f) COMPLETED) eqn:E;
    [apply status_eqb_eq in E; contradiction|].
  rewrite (extractTextFromImage_answer G (file f) Hr Hg Hne).
  cbn [fst]. now rewrite trim_all_whitespace.
Qed.

(** X25. When the service answers every file with white space only, the
    run marks them all COMPLETED with the empty text: the counter shows
    them as ready and the download button is enabled, yet the download
    fails with the alert "Error generating document: No text available
    to download." and leaves the page as it was. *)
Theorem X25_blank_answers_enable_a_download_that_fails (G : Gemini)
  (B : Browser) (files : list UploadedFile) (w : World) :
  files <> [] ->
  Forall (fun f => status f <> COMPLETED /\ blank_answer G (file f)) files ->
  exists files',
    processImages (fun x => fst (extractTextFromImage G x)) files files
    = Some files'
    /\ Forall (fun f => status f = COMPLETED /\ extractedText f = Some [])
         files'
    /\ completedCount files' = List.length files
    /\ downloadDisabled files' = false
    /\ handleDownload B files' w
       = (Some (lit "Error generating document: No text available to download."),
          w).
Proof.
  intros Hne Hall.
  exists (map (completed_with []) files).
  assert (Hmap : map (processed (fun x => fst (extractTextFromImage G x)))
                   files
                 = map (completed_with []) files).
  { apply map_ext_in. intros f Hf. rewrite Forall_forall in Hall.
    destruct (Hall f Hf). now apply blank_processed. }
  assert (Hcount : completedCount (map (completed_with []) files)
                   = List.length files).
  { unfold completedCount. clear. induction files as [|f fs IH];
      [reflexivity|]. simpl. now rewrite IH. }
  split; [rewrite processImages_run; now rewrite Hmap|].
  split; [|split; [exact Hcount|split]].
  - apply Forall_forall. intros f Hf. apply in_map_iff in Hf.
    destruct Hf as (g & <- & _). now split.
  - unfold downloadDisabled. rewrite Hcount.
    destruct files; [now elim Hne | reflexivity].
  - assert (Hv : validFiles (map (completed_with []) files) = []).
    { unfold validFiles. clear. induction files as [|f fs IH];
        [reflexivity | exact IH]. }
    unfold handleDownload, generateAndDownloadDocx, buildDocument, bind.
    rewrite Hv. reflexivity.
Qed.

Lemma X25_blank_answers_enable_a_download_that_fails_witness :
  exists files',
    processImages
      (fun x =>
         fst (extractTextFromImage
                (answering (lit "data:image/png;base64,QUJD")
                   (Some [32%N; 10%N])) x))
      [uploaded "a.png" IDLE None] [uploaded "a.png" IDLE None]
    = Some files'
    /\ Forall (fun f => status f = COMPLETED /\ extractedText f = Some [])
         files'
    /\ completedCount files' = List.length [uploaded "a.png" IDLE None]
    /\ downloadDisabled files' = false
    /\ handleDownload okBrowser files' world0
       = (Some (lit "Error generating document: No text available to download."),
          world0).
Proof.
  apply (@X25_blank_answers_enable_a_download_that_fails
           (answering (lit "data:image/png;base64,QUJD") (Some [32%N; 10%N]))
           okBrowser [uploaded "a.png" IDLE None] world0).
  - discriminate.
  - constructor; [|constructor]. split; [discriminate|].
    exists (lit "data:image/png;base64,QUJD"), [32%N; 10%N].
    split; [reflexivity|]. split; [reflexivity|].
    split; [discriminate|]. repeat constructor.
Defined.
